(** * searchnets: dataset partitioner and signal-detection metrics

    A shallow embedding of [searchnets/data.py] (the function [data]) and of
    [searchnets/utils/metrics.py] ([compute_d_prime], [acc_grid],
    [err_grid]), with the properties of the two components.

    Conventions of the embedding.
    - A Python [dict] is the list of its items in insertion order (the order
      [json.load] and [dict.items()] give).
    - A Python exception is a value of [exn]; code that may raise returns a
      [result].
    - Python's [int / int] is a float; counts stay far below 2^53, where the
      quotient of two integers is a whole float exactly when the divisor
      divides the dividend, so the quotient is kept as an exact rational
      ([per_stim_type_in_float64] and [per_set_size_in_float64] prove the
      agreement with float64 below 2^53; statements that need it carry the
      bound as a hypothesis).
    - [random.shuffle] draws from the interpreter-wide generator of module
      [random]; the state of that generator is threaded explicitly. *)

From Stdlib Require Import String Ascii.
From Stdlib Require Import List ZArith QArith Bool Lia Lqa Arith Permutation.
Import ListNotations.

Open Scope Z_scope.

(** ** Python runtime: exceptions and results *)

Inductive exn : Type :=
| ValueError
| TypeError
| ZeroDivisionError
| IndexError
| AttributeError
| UnboundLocalError.

Inductive result (A : Type) : Type :=
| Ok (a : A)
| Raise (e : exn).

Arguments Ok {A} a.
Arguments Raise {A} e.

(** A local variable of a function body: bound to a value, or not assigned
    yet on the path taken. *)
Inductive local (A : Type) : Type :=
| Unbound
| Bound (a : A).

Arguments Unbound {A}.
Arguments Bound {A} a.

Definition read_local {A} (v : local A) : result A :=
  match v with
  | Bound a => Ok a
  | Unbound => Raise UnboundLocalError
  end.

(** [a / b] on numbers: [ZeroDivisionError] for a zero divisor. *)
Definition true_div (a b : Q) : result Q :=
  if Qeq_bool b 0 then Raise ZeroDivisionError else Ok (a / b)%Q.

(** [float.is_integer()] and [int(float)] (truncation toward zero). *)
Definition is_integer (q : Q) : bool :=
  Z.rem (Qnum q) (Z.pos (Qden q)) =? 0.

Definition py_int (q : Q) : Z :=
  Z.quot (Qnum q) (Z.pos (Qden q)).

(** Truth value of an optional integer argument ([None] and [0] are false). *)
Definition truthy (o : option Z) : bool :=
  match o with
  | Some v => negb (v =? 0)
  | None => false
  end.

(** [needle in haystack] on [str]: substring search. *)
Fixpoint str_in (needle hay : string) : bool :=
  if String.prefix needle hay then true
  else match hay with
       | EmptyString => false
       | String _ rest => str_in needle rest
       end.

(** [l.pop()]: removes and returns the last item. *)
Definition list_pop {A} (l : list A) : result (A * list A) :=
  match rev l with
  | [] => Raise IndexError
  | x :: r => Ok (x, rev r)
  end.

(** [[inds.pop() for _ in range(n)]], with the list that is left. *)
Fixpoint pops {A} (n : nat) (inds : list A) : result (list A * list A) :=
  match n with
  | O => Ok ([], inds)
  | S n' =>
      match list_pop inds with
      | Raise e => Raise e
      | Ok (x, inds') =>
          match pops n' inds' with
          | Raise e => Raise e
          | Ok (xs, rest) => Ok (x :: xs, rest)
          end
      end
  end.

(** [arr[np.asarray(inds)].tolist()] for a 1-D array [arr].  [np.asarray] of
    an empty list is a float64 array, which numpy refuses as an index
    ([IndexError]: arrays used as indices must be of integer type); an index
    out of range is an [IndexError] too. *)
Fixpoint take_at {A} (arr : list A) (inds : list nat) : result (list A) :=
  match inds with
  | [] => Ok []
  | i :: rest =>
      match nth_error arr i, take_at arr rest with
      | Some x, Ok xs => Ok (x :: xs)
      | None, _ => Raise IndexError
      | _, Raise e => Raise e
      end
  end.

Definition fancy_index {A} (arr : list A) (inds : list nat) : result (list A) :=
  match inds with
  | [] => Raise IndexError
  | _ => take_at arr inds
  end.

(** [d[k] = v] on a dict kept as its item list. *)
Fixpoint dict_set {V} (d : list (string * V)) (k : string) (v : V) : list (string * V) :=
  match d with
  | [] => [(k, v)]
  | (k', v') :: rest =>
      if String.eqb k' k then (k, v) :: rest else (k', v') :: dict_set rest k v
  end.

(** ** The stimulus manifest and the dataset bundle *)

(** One record of the .json file written by searchstims; [data] reads its
    ['filename'] only. *)
Record stim_info : Type := mk_stim_info {
  filename : string;
  grid_as_char : list (list string)
}.

(** set size -> presence key -> records, and stimulus type -> that. The set
    size keys are those of the .json file after [int(k)]. *)
Definition present_absent_dict : Type := list (string * list stim_info).
Definition stim_info_by_set_size : Type := list (Z * present_absent_dict).
Definition manifest : Type := list (string * stim_info_by_set_size).

(** The dictionary handed to [joblib.dump]. [None] is Python's [None]. *)
Record bundle : Type := mk_bundle {
  x_train : list string;
  y_train : list Z;
  x_val : option (list string);
  y_val : option (list Z);
  x_test : list string;
  y_test : list Z;
  set_size_vec_train : list Z;
  set_size_vec_val : option (list Z);
  set_size_vec_test : list Z;
  set_sizes_by_stim_stype : list (string * list Z);
  stim_type_vec_train : list string;
  stim_type_vec_val : list string;
  stim_type_vec_test : list string
}.

(** The accumulators of the body of [data]. [l_stim_type_vec_val] is
    assigned on the [if val_size:] path only. *)
Record locals : Type := mk_locals {
  l_x_train : list string;
  l_set_size_vec_train : list Z;
  l_stim_type_vec_train : list string;
  l_x_val : option (list string);
  l_set_size_vec_val : option (list Z);
  l_stim_type_vec_val : local (list string);
  l_x_test : list string;
  l_set_size_vec_test : list Z;
  l_stim_type_vec_test : list string;
  l_set_sizes_by_stim_stype : list (string * list Z)
}.

(** [v.extend(xs)] where [v] may hold [None]. *)
Definition extend_opt {A} (v : option (list A)) (xs : list A) : result (option (list A)) :=
  match v with
  | Some l => Ok (Some (l ++ xs))
  | None => Raise AttributeError
  end.

Definition extend_local {A} (v : local (list A)) (xs : list A) : result (local (list A)) :=
  match v with
  | Bound l => Ok (Bound (l ++ xs))
  | Unbound => Raise UnboundLocalError
  end.

(** ['present' in fname], as the integer the [dtype=int] array holds. *)
Definition label (fname : string) : Z :=
  if str_in "present" fname then 1 else 0.

(** [int(q)] when [q.is_integer()], [TypeError] otherwise. *)
Definition whole (q : Q) : result Z :=
  if is_integer q then Ok (py_int q) else Raise TypeError.

(** [(n / len(set_sizes)) / 2] made an [int], lines 143-150 (and 152-157,
    164-169). *)
Definition per_set_size (n : Z) (num_set_sizes : nat) : result Z :=
  match true_div (inject_Z n) (inject_Z (Z.of_nat num_set_sizes)) with
  | Raise e => Raise e
  | Ok q =>
      match true_div q 2 with
      | Raise e => Raise e
      | Ok q2 => whole q2
      end
  end.

(** [n / num_stim_types] made an [int], lines 106-112. *)
Definition per_stim_type (n : Z) (num_stim_types : nat) : result Z :=
  match true_div (inject_Z n) (inject_Z (Z.of_nat num_stim_types)) with
  | Raise e => Raise e
  | Ok q => whole q
  end.

(** [sum([size for size in (...) if size is not 0 and size is not -1])]. *)
Definition total_size (tr va te : Z) : Z :=
  fold_right Z.add 0
    (filter (fun size => negb (size =? 0) && negb (size =? -1)) [tr; va; te]).

Section Partitioner.

(** The generator of module [random]: its state, and [random.shuffle] as a
    function of the list and the state. *)
Variable rng : Type.
Variable shuffle : list nat -> rng -> list nat * rng.

(** Computations that read and advance the generator and may raise. *)
Definition M (A : Type) : Type := rng -> result (A * rng).

Definition ret {A} (a : A) : M A := fun g => Ok (a, g).

Definition bind {A B} (m : M A) (k : A -> M B) : M B :=
  fun g => match m g with
           | Ok (a, g') => k a g'
           | Raise e => Raise e
           end.

Definition raise {A} (e : exn) : M A := fun _ => Raise e.

Definition lift {A} (r : result A) : M A :=
  fun g => match r with
           | Ok a => Ok (a, g)
           | Raise e => Raise e
           end.

Definition random_shuffle (l : list nat) : M (list nat) :=
  fun g => Ok (shuffle l g).

Notation "x <- m ;; k" := (bind m (fun x => k))
  (at level 61, m at next level, right associativity).
Notation "' p <- m ;; k" := (bind m (fun x => let p := x in k))
  (at level 61, p pattern, m at next level, right associativity).

(** [for x in l: s = body x s]. *)
Fixpoint for_each {A S} (l : list A) (body : A -> S -> M S) (s : S) : M S :=
  match l with
  | [] => ret s
  | x :: rest => s' <- body x s ;; for_each rest body s'
  end.

(** Lines 194-231: one pool of file names (one stimulus type, set size and
    presence key). *)
Definition leaf_body (stim_type : string) (set_size : Z)
    (train_size_per_set_size val_size_per_set_size test_size_per_set_size : Z)
    (stim_fnames : list string) (a : locals) : M locals :=
  if Z.of_nat (length stim_fnames)
     <? total_size train_size_per_set_size val_size_per_set_size test_size_per_set_size
  then raise ValueError
  else
    inds <- random_shuffle (seq 0 (length stim_fnames)) ;;
    ' (train_inds, inds) <- lift (pops (Z.to_nat train_size_per_set_size) inds) ;;
    tmp_x_train <- lift (fancy_index stim_fnames train_inds) ;;
    let a := mk_locals
               (l_x_train a ++ tmp_x_train)
               (l_set_size_vec_train a ++ repeat set_size (length tmp_x_train))
               (l_stim_type_vec_train a ++ repeat stim_type (length tmp_x_train))
               (l_x_val a) (l_set_size_vec_val a) (l_stim_type_vec_val a)
               (l_x_test a) (l_set_size_vec_test a) (l_stim_type_vec_test a)
               (l_set_sizes_by_stim_stype a) in
    ' (a, inds) <-
      (if 0 <? val_size_per_set_size then
         ' (val_inds, inds) <- lift (pops (Z.to_nat val_size_per_set_size) inds) ;;
         tmp_x_val <- lift (fancy_index stim_fnames val_inds) ;;
         xv <- lift (extend_opt (l_x_val a) tmp_x_val) ;;
         sv <- lift (extend_opt (l_set_size_vec_val a)
                       (repeat set_size (length tmp_x_val))) ;;
         tv <- lift (extend_local (l_stim_type_vec_val a)
                       (repeat stim_type (length tmp_x_val))) ;;
         ret (mk_locals (l_x_train a) (l_set_size_vec_train a) (l_stim_type_vec_train a)
                xv sv tv
                (l_x_test a) (l_set_size_vec_test a) (l_stim_type_vec_test a)
                (l_set_sizes_by_stim_stype a), inds)
       else ret (a, inds)) ;;
    test_inds <-
      (if 0 <? test_size_per_set_size then
         ' (test_inds, _) <- lift (pops (Z.to_nat test_size_per_set_size) inds) ;;
         ret test_inds
       else if test_size_per_set_size =? -1 then ret inds
       else raise UnboundLocalError) ;;
    tmp_x_test <- lift (fancy_index stim_fnames test_inds) ;;
    ret (mk_locals
           (l_x_train a) (l_set_size_vec_train a)
           (l_stim_type_vec_train a ++ repeat stim_type (length tmp_x_test))
           (l_x_val a) (l_set_size_vec_val a) (l_stim_type_vec_val a)
           (l_x_test a ++ tmp_x_test)
           (l_set_size_vec_test a ++ repeat set_size (length tmp_x_test))
           (l_stim_type_vec_test a)
           (l_set_sizes_by_stim_stype a)).

(** Lines 180-188: keep the file names of the records. *)
Definition stim_fnames_of (d : present_absent_dict) : list (string * list string) :=
  map (fun '(present_or_absent, stim_info_list) =>
         (present_or_absent, map filename stim_info_list)) d.

(** Lines 135-231: the body of the loop over stimulus types. *)
Definition stim_type_body
    (val_size test_size : option Z)
    (train_size_per_stim_type val_size_per_stim_type test_size_per_stim_type : Z)
    (item : string * stim_info_by_set_size) (a : locals) : M locals :=
  let '(stim_type, by_set_size) := item in
  let set_sizes := map fst by_set_size in
  let a := mk_locals
             (l_x_train a) (l_set_size_vec_train a) (l_stim_type_vec_train a)
             (l_x_val a) (l_set_size_vec_val a) (l_stim_type_vec_val a)
             (l_x_test a) (l_set_size_vec_test a) (l_stim_type_vec_test a)
             (dict_set (l_set_sizes_by_stim_stype a) stim_type set_sizes) in
  train_size_per_set_size <-
    lift (per_set_size train_size_per_stim_type (length set_sizes)) ;;
  val_size_per_set_size <-
    (if truthy val_size
     then lift (per_set_size val_size_per_stim_type (length set_sizes))
     else ret 0) ;;
  test_size_per_set_size <-
    (match test_size with
     | None => ret (-1)
     | Some t =>
         if t =? -1 then ret (-1)
         else if 0 <? t
              then lift (per_set_size test_size_per_stim_type (length set_sizes))
              else raise ValueError
     end) ;;
  for_each by_set_size
    (fun '(set_size, present_absent) a =>
       for_each (stim_fnames_of present_absent)
         (fun '(_, stim_fnames) a =>
            leaf_body stim_type set_size
              train_size_per_set_size val_size_per_set_size test_size_per_set_size
              stim_fnames a)
         a)
    a.

(** Lines 84-100: the accumulators before the loops. *)
Definition init_locals (val_size : option Z) : locals :=
  if truthy val_size
  then mk_locals [] [] [] (Some []) (Some []) (Bound []) [] [] [] []
  else mk_locals [] [] [] None None Unbound [] [] [] [].

(** Lines 84-251: everything up to the labels. *)
Definition partition (fnames_dict : manifest)
    (train_size : Z) (val_size test_size : option Z) : M locals :=
  let num_stim_types := length fnames_dict in
  train_size_per_stim_type <- lift (per_stim_type train_size num_stim_types) ;;
  val_size_per_stim_type <-
    (match val_size with
     | Some v => if truthy val_size then lift (per_stim_type v num_stim_types) else ret 0
     | None => ret 0
     end) ;;
  test_size_per_stim_type <-
    (match test_size with
     | Some t => if truthy test_size then lift (per_stim_type t num_stim_types) else ret (-1)
     | None => ret (-1)
     end) ;;
  for_each fnames_dict
    (stim_type_body val_size test_size
       train_size_per_stim_type val_size_per_stim_type test_size_per_stim_type)
    (init_locals val_size).

(** Lines 241-270: the labels and [data_dict]; reading
    [stim_type_vec_val] needs it bound. *)
Definition make_dict (val_size : option Z) (a : locals) : result bundle :=
  let y_train := map label (l_x_train a) in
  match (if truthy val_size
         then match l_x_val a with
              | Some xv => Ok (Some (map label xv))
              | None => Raise TypeError
              end
         else Ok None) with
  | Raise e => Raise e
  | Ok y_val =>
      let y_test := map label (l_x_test a) in
      match read_local (l_stim_type_vec_val a) with
      | Raise e => Raise e
      | Ok stim_type_vec_val =>
          Ok (mk_bundle
                (l_x_train a) y_train (l_x_val a) y_val (l_x_test a) y_test
                (l_set_size_vec_train a) (l_set_size_vec_val a) (l_set_size_vec_test a)
                (l_set_sizes_by_stim_stype a)
                (l_stim_type_vec_train a) stim_type_vec_val (l_stim_type_vec_test a))
      end
  end.

(** [data]: [found] lists the (parsed) .json files that [glob] finds in
    [train_dir]; the result is the dictionary that is dumped to
    [gz_filename]. *)
Definition data (found : list manifest)
    (train_size : Z) (val_size test_size : option Z) : M bundle :=
  match found with
  | [] => raise ValueError
  | [fnames_dict] =>
      a <- partition fnames_dict train_size val_size test_size ;;
      lift (make_dict val_size a)
  | _ :: _ :: _ => raise ValueError
  end.

End Partitioner.

(** ** numpy values for the metrics

    A float64 is NaN, an infinity or a finite value; finite values are kept
    as exact rationals (rounding is not modelled, the sign of zero neither).
    With numpy's default error state, dividing by zero yields NaN or an
    infinity and a [RuntimeWarning]; nothing is raised. *)

Inductive float64 : Type :=
| NaN
| PosInf
| NegInf
| Finite (q : Q).

Definition of_int (n : Z) : float64 := Finite (inject_Z n).

(** [x / y] *)
Definition f_div (x y : float64) : float64 :=
  match x, y with
  | NaN, _ | _, NaN => NaN
  | (PosInf | NegInf), (PosInf | NegInf) => NaN
  | PosInf, Finite b => if Qlt_le_dec b 0 then NegInf else PosInf
  | NegInf, Finite b => if Qlt_le_dec b 0 then PosInf else NegInf
  | Finite _, (PosInf | NegInf) => Finite 0
  | Finite a, Finite b =>
      if Qeq_bool b 0
      then if Qeq_bool a 0 then NaN
           else if Qlt_le_dec a 0 then NegInf else PosInf
      else Finite (a / b)
  end.

(** [x - y] *)
Definition f_sub (x y : float64) : float64 :=
  match x, y with
  | NaN, _ | _, NaN => NaN
  | PosInf, PosInf | NegInf, NegInf => NaN
  | PosInf, _ => PosInf
  | NegInf, _ => NegInf
  | Finite _, PosInf => NegInf
  | Finite _, NegInf => PosInf
  | Finite a, Finite b => Finite (a - b)
  end.

(** [x == y]; NaN equals nothing. *)
Definition f_eqb (x y : float64) : bool :=
  match x, y with
  | Finite a, Finite b => Qeq_bool a b
  | PosInf, PosInf | NegInf, NegInf => true
  | _, _ => false
  end.

(** [np.logical_and(a, b)] on 1-D arrays: equal lengths, or one of length 1
    that is broadcast; [ValueError] otherwise. *)
Definition np_logical_and (a b : list bool) : result (list bool) :=
  if (length a =? length b)%nat then Ok (map (fun p => fst p && snd p) (combine a b))
  else if (length a =? 1)%nat then Ok (map (andb (hd false a)) b)
  else if (length b =? 1)%nat then Ok (map (fun x => x && hd false b) a)
  else Raise ValueError.

(** [mask.sum()] *)
Definition np_sum (mask : list bool) : Z :=
  Z.of_nat (length (filter (fun b => b) mask)).

(** [arr == v] *)
Definition np_eq (arr : list Z) (v : Z) : list bool :=
  map (fun x => x =? v) arr.

(** [np.logical_and(y_pred == p, y_true == t).sum()] *)
Definition count_where (y_true y_pred : list Z) (p t : Z) : result Z :=
  match np_logical_and (np_eq y_pred p) (np_eq y_true t) with
  | Ok mask => Ok (np_sum mask)
  | Raise e => Raise e
  end.

(** Lines 28-31 (and 33-36): the two corrections, one after the other. *)
Definition correct_rate (rate half : float64) : float64 :=
  let rate := if f_eqb rate (Finite 1) then f_sub (Finite 1) half else rate in
  if f_eqb rate (Finite 0) then half else rate.

(** ** Grids *)

(** A grid of characters as the .json file has it, and its shape as
    [np.asarray(g).shape]: one axis for an empty list, two for rows of one
    length; rows of different lengths are refused. *)
Definition char_grid : Type := list (list string).

Definition np_shape (g : char_grid) : result (list nat) :=
  match g with
  | [] => Ok [0%nat]
  | row :: rows =>
      if forallb (fun r => (length r =? length row)%nat) rows
      then Ok [length g; length row]
      else Raise ValueError
  end.

Fixpoint shapes (gs : list char_grid) : result (list (list nat)) :=
  match gs with
  | [] => Ok []
  | g :: rest =>
      match np_shape g, shapes rest with
      | Ok s, Ok ss => Ok (s :: ss)
      | Raise e, _ => Raise e
      | _, Raise e => Raise e
      end
  end.

(** Lines 127-135: the one shape of all grids; [set(grid_shape)] has one
    element when there is a grid and all shapes are equal. *)
Definition common_shape (gs : list char_grid) : result (list nat) :=
  match shapes gs with
  | Raise e => Raise e
  | Ok [] => Raise ValueError
  | Ok (s :: ss) =>
      if forallb (fun s' => if list_eq_dec Nat.eq_dec s' s then true else false) ss
      then Ok s
      else Raise ValueError
  end.

(** [np.zeros(shape)] for the shapes that reach the loop, as rows of counts
    (the counts are whole float64 numbers). *)
Definition np_zeros (shape : list nat) : list (list Z) :=
  match shape with
  | [r; c] => repeat (repeat 0 c) r
  | _ => []
  end.

(** [row_inds, col_inds = np.nonzero(g != '')] zipped: the positions of the
    cells that are not empty, row by row. *)
Definition nonzero_row (r : nat) (row : list string) : list (nat * nat) :=
  map (fun c => (r, c))
    (filter (fun c => negb (String.eqb (nth c row EmptyString) EmptyString))
       (seq 0 (length row))).

Definition nonzero_positions (g : char_grid) : list (nat * nat) :=
  flat_map (fun r => nonzero_row r (nth r g [])) (seq 0 (length g)).

(** [counts[row_ind, col_ind] += 1] *)
Definition incr_at (counts : list (list Z)) (pos : nat * nat) : result (list (list Z)) :=
  match nth_error counts (fst pos) with
  | None => Raise IndexError
  | Some row =>
      match nth_error row (snd pos) with
      | None => Raise IndexError
      | Some v =>
          Ok (firstn (fst pos) counts
                ++ (firstn (snd pos) row ++ (v + 1) :: skipn (S (snd pos)) row)
                :: skipn (S (fst pos)) counts)
      end
  end.

Fixpoint incr_all (counts : list (list Z)) (ps : list (nat * nat)) : result (list (list Z)) :=
  match ps with
  | [] => Ok counts
  | p :: rest =>
      match incr_at counts p with
      | Ok counts' => incr_all counts' rest
      | Raise e => Raise e
      end
  end.

(** [np.nonzero(stim_fnames == g_fname)[0]] *)
Definition where_eq (stim_fnames : list string) (g_fname : string) : list nat :=
  filter (fun i => String.eqb (nth i stim_fnames EmptyString) g_fname)
    (seq 0 (length stim_fnames)).

(** [a / b] and [1 - a], elementwise on arrays of one shape. *)
Definition grid_div (a b : list (list Z)) : list (list float64) :=
  map (fun rows => map (fun cells => f_div (of_int (fst cells)) (of_int (snd cells)))
                     (combine (fst rows) (snd rows)))
    (combine a b).

Definition grid_complement (a : list (list float64)) : list (list float64) :=
  map (map (f_sub (Finite 1))) a.

(** What [acc_grid] and [err_grid] return: the grid, or with
    [return_counts] the grid and the two arrays of counts. *)
Inductive grid_result : Type :=
| Grid (g : list (list float64))
| GridCounts (g : list (list float64)) (correct_counts trial_counts : list (list Z)).

(** Lines 139-158: one pass of the loop over [zip(char_grids,
    stim_fnames_meta)]. *)
Definition acc_grid_step (stim_fnames : list string) (y_true y_pred : list Z)
    (item : char_grid * string) (counts : list (list Z) * list (list Z))
  : result (list (list Z) * list (list Z)) :=
  let '(g, g_fname) := item in
  let '(correct_counts, trial_counts) := counts in
  match np_shape g with
  | Ok [_; _] =>
      let positions := nonzero_positions g in
      match where_eq stim_fnames g_fname with
      | [ind] =>
          match nth_error y_true ind, nth_error y_pred ind with
          | Some t, Some p =>
              match (if t =? p then incr_all correct_counts positions
                     else Ok correct_counts) with
              | Raise e => Raise e
              | Ok correct_counts' =>
                  match incr_all trial_counts positions with
                  | Raise e => Raise e
                  | Ok trial_counts' => Ok (correct_counts', trial_counts')
                  end
              end
          | _, _ => Raise IndexError
          end
      | _ => Raise ValueError
      end
  | Ok _ => Raise ValueError
  | Raise e => Raise e
  end.

Fixpoint acc_grid_loop (stim_fnames : list string) (y_true y_pred : list Z)
    (items : list (char_grid * string)) (counts : list (list Z) * list (list Z))
  : result (list (list Z) * list (list Z)) :=
  match items with
  | [] => Ok counts
  | item :: rest =>
      match acc_grid_step stim_fnames y_true y_pred item counts with
      | Ok counts' => acc_grid_loop stim_fnames y_true y_pred rest counts'
      | Raise e => Raise e
      end
  end.

Definition acc_grid (stim_fnames : list string) (y_true y_pred : list Z)
    (char_grids : list char_grid) (stim_fnames_meta : list string)
    (return_counts : bool) : result grid_result :=
  match common_shape char_grids with
  | Raise e => Raise e
  | Ok grid_shape =>
      match acc_grid_loop stim_fnames y_true y_pred
              (combine char_grids stim_fnames_meta)
              (np_zeros grid_shape, np_zeros grid_shape) with
      | Raise e => Raise e
      | Ok (correct_counts, trial_counts) =>
          let acc := grid_div correct_counts trial_counts in
          if return_counts then Ok (GridCounts acc correct_counts trial_counts)
          else Ok (Grid acc)
      end
  end.

Definition err_grid (stim_fnames : list string) (y_true y_pred : list Z)
    (char_grids : list char_grid) (stim_fnames_meta : list string)
    (return_counts : bool) : result grid_result :=
  if return_counts then
    match acc_grid stim_fnames y_true y_pred char_grids stim_fnames_meta return_counts with
    | Raise e => Raise e
    | Ok (GridCounts acc correct_counts trial_counts) =>
        Ok (GridCounts (grid_complement acc) correct_counts trial_counts)
    | Ok (Grid _) => Raise ValueError
    end
  else
    match acc_grid stim_fnames y_true y_pred char_grids stim_fnames_meta return_counts with
    | Raise e => Raise e
    | Ok (Grid acc) => Ok (Grid (grid_complement acc))
    | Ok (GridCounts _ _ _) => Raise TypeError
    end.

Section DPrime.

(** [z_score = scipy.stats.norm.ppf], the quantile function of the
    standard normal distribution, on float64. *)
Variable z_score : float64 -> float64.

Definition compute_d_prime (y_true y_pred : list Z)
  : result (float64 * float64 * float64) :=
  match count_where y_true y_pred 1 1 with
  | Raise e => Raise e
  | Ok hits =>
  match count_where y_true y_pred 0 1 with
  | Raise e => Raise e
  | Ok misses =>
  let hit_rate := f_div (of_int hits) (of_int (hits + misses)) in
  match count_where y_true y_pred 1 0 with
  | Raise e => Raise e
  | Ok false_alarms =>
  match count_where y_true y_pred 0 0 with
  | Raise e => Raise e
  | Ok correct_rejects =>
  let false_alarm_rate :=
    f_div (of_int false_alarms) (of_int (false_alarms + correct_rejects)) in
  let half_hit := f_div (Finite (1 # 2)) (of_int (hits + misses)) in
  let half_fa := f_div (Finite (1 # 2)) (of_int (false_alarms + correct_rejects)) in
  let hit_rate := correct_rate hit_rate half_hit in
  let false_alarm_rate := correct_rate false_alarm_rate half_fa in
  let d_prime := f_sub (z_score hit_rate) (z_score false_alarm_rate) in
  Ok (hit_rate, false_alarm_rate, d_prime)
  end end end end.

End DPrime.

(** ** Leaf pools and the draws from them

    The vocabulary in which the properties of [data] are stated: a leaf is
    one pool of file names with the counts computed for it, a draw is what
    one pass over a leaf takes into the three splits. *)

Record leaf : Type := mk_leaf {
  lf_stim_type : string;
  lf_set_size : Z;
  lf_train : Z;
  lf_val : Z;
  lf_test : Z;
  lf_pool : list string
}.

Record draw : Type := mk_draw {
  d_train : list string;
  d_val : list string;
  d_test : list string
}.

(** How many file names of a leaf go to the test split: the computed count,
    or all that train and val left when the count is the remainder mark. *)
Definition test_count (lf : leaf) : nat :=
  if 0 <? lf_test lf then Z.to_nat (lf_test lf)
  else (length (lf_pool lf) - Z.to_nat (lf_train lf) - Z.to_nat (lf_val lf))%nat.

Definition draw_ok (lf : leaf) (d : draw) : Prop :=
  length (d_train d) = Z.to_nat (lf_train lf) /\
  length (d_val d) = Z.to_nat (lf_val lf) /\
  length (d_test d) = test_count lf /\
  exists rest, Permutation (d_train d ++ d_val d ++ d_test d ++ rest) (lf_pool lf).

Definition extend_some {A} (v : option (list A)) (xs : list A) : option (list A) :=
  match v with
  | Some l => Some (l ++ xs)
  | None => None
  end.

Definition extend_bound {A} (v : local (list A)) (xs : list A) : local (list A) :=
  match v with
  | Bound l => Bound (l ++ xs)
  | Unbound => Unbound
  end.

(** The effect of one pass of the innermost loop on the accumulators. *)
Definition apply_draw (a : locals) (ld : leaf * draw) : locals :=
  let '(lf, d) := ld in
  mk_locals
    (l_x_train a ++ d_train d)
    (l_set_size_vec_train a ++ repeat (lf_set_size lf) (length (d_train d)))
    ((l_stim_type_vec_train a ++ repeat (lf_stim_type lf) (length (d_train d)))
       ++ repeat (lf_stim_type lf) (length (d_test d)))
    (extend_some (l_x_val a) (d_val d))
    (extend_some (l_set_size_vec_val a) (repeat (lf_set_size lf) (length (d_val d))))
    (extend_bound (l_stim_type_vec_val a) (repeat (lf_stim_type lf) (length (d_val d))))
    (l_x_test a ++ d_test d)
    (l_set_size_vec_test a ++ repeat (lf_set_size lf) (length (d_test d)))
    (l_stim_type_vec_test a)
    (l_set_sizes_by_stim_stype a).

Definition apply_draws (a : locals) (lds : list (leaf * draw)) : locals :=
  fold_left apply_draw lds a.

Definition with_catalog (c : list (string * list Z)) (a : locals) : locals :=
  mk_locals
    (l_x_train a) (l_set_size_vec_train a) (l_stim_type_vec_train a)
    (l_x_val a) (l_set_size_vec_val a) (l_stim_type_vec_val a)
    (l_x_test a) (l_set_size_vec_test a) (l_stim_type_vec_test a) c.

(** The validation accumulators hold lists. *)
Definition val_bound (a : locals) : Prop :=
  exists xv sv tv,
    l_x_val a = Some xv /\ l_set_size_vec_val a = Some sv /\
    l_stim_type_vec_val a = Bound tv.

Definition zsum (l : list Z) : Z := fold_right Z.add 0 l.

(** [drawn lfs a a']: the accumulators [a'] are [a] after one well-formed
    draw from each leaf of [lfs], in order (the catalog apart). *)
Definition drawn (lfs : list leaf) (a a' : locals) : Prop :=
  exists draws c,
    Forall2 draw_ok lfs draws /\
    a' = with_catalog c (apply_draws a (combine lfs draws)).

(** The per-leaf counts, as the specification computes them:
    [(size / num_stim_types / num_set_sizes) / 2]. *)
Definition leaf_count (size : Z) (num_stim_types num_set_sizes : nat) : Z :=
  size / Z.of_nat num_stim_types / Z.of_nat num_set_sizes / 2.

Definition train_per_leaf (train_size : Z) (num_stim_types num_set_sizes : nat) : Z :=
  leaf_count train_size num_stim_types num_set_sizes.

Definition val_per_leaf (val_size : option Z) (num_stim_types num_set_sizes : nat) : Z :=
  match val_size with
  | Some v => leaf_count v num_stim_types num_set_sizes
  | None => 0
  end.

(** [-1] stands for "all that remain". *)
Definition test_per_leaf (test_size : option Z) (num_stim_types num_set_sizes : nat) : Z :=
  match test_size with
  | Some t => if t =? -1 then -1 else leaf_count t num_stim_types num_set_sizes
  | None => -1
  end.

(** The leaf pools of a manifest, in the order the loops visit them. *)
Definition leaves_of_set_size (st : string) (tr va te : Z)
    (item : Z * present_absent_dict) : list leaf :=
  map (fun kv => mk_leaf st (fst item) tr va te (map filename (snd kv))) (snd item).

Definition leaves_of_stim_type (tr va te : Z)
    (item : string * stim_info_by_set_size) : list leaf :=
  flat_map (leaves_of_set_size (fst item) tr va te) (snd item).

Definition leaves (m : manifest) (train_size : Z) (val_size test_size : option Z)
  : list leaf :=
  flat_map
    (fun item =>
       leaves_of_stim_type
         (train_per_leaf train_size (length m) (length (snd item)))
         (val_per_leaf val_size (length m) (length (snd item)))
         (test_per_leaf test_size (length m) (length (snd item)))
         item)
    m.

(** All file names of a manifest. *)
Definition manifest_filenames (m : manifest) : list string :=
  flat_map (fun item =>
    flat_map (fun ss_item =>
      flat_map (fun kv => map filename (snd kv)) (snd ss_item)) (snd item)) m.

(** The validation file names of a bundle; none when [x_val] is [None]. *)
Definition val_names (b : bundle) : list string :=
  match x_val b with
  | Some l => l
  | None => []
  end.

(** What a sequence of draws appends to each accumulator. *)
Definition inc_x_train (lds : list (leaf * draw)) : list string :=
  flat_map (fun ld => d_train (snd ld)) lds.

Definition inc_x_val (lds : list (leaf * draw)) : list string :=
  flat_map (fun ld => d_val (snd ld)) lds.

Definition inc_x_test (lds : list (leaf * draw)) : list string :=
  flat_map (fun ld => d_test (snd ld)) lds.

Definition inc_set_size_train (lds : list (leaf * draw)) : list Z :=
  flat_map (fun ld => repeat (lf_set_size (fst ld)) (length (d_train (snd ld)))) lds.

Definition inc_set_size_val (lds : list (leaf * draw)) : list Z :=
  flat_map (fun ld => repeat (lf_set_size (fst ld)) (length (d_val (snd ld)))) lds.

Definition inc_set_size_test (lds : list (leaf * draw)) : list Z :=
  flat_map (fun ld => repeat (lf_set_size (fst ld)) (length (d_test (snd ld)))) lds.

(** Line 231 appends the stimulus type of the test files to
    [stim_type_vec_train]. *)
Definition inc_stim_type_train (lds : list (leaf * draw)) : list string :=
  flat_map (fun ld => repeat (lf_stim_type (fst ld)) (length (d_train (snd ld)))
                        ++ repeat (lf_stim_type (fst ld)) (length (d_test (snd ld)))) lds.

Definition inc_stim_type_val (lds : list (leaf * draw)) : list string :=
  flat_map (fun ld => repeat (lf_stim_type (fst ld)) (length (d_val (snd ld)))) lds.

(** The bundle assembled from a sequence of draws, as lines 233-270 build
    it when a validation split is requested. *)
Definition bundle_of_draws (b : bundle) (lds : list (leaf * draw)) : Prop :=
  x_train b = inc_x_train lds /\
  x_val b = Some (inc_x_val lds) /\
  x_test b = inc_x_test lds /\
  y_train b = map label (inc_x_train lds) /\
  y_val b = Some (map label (inc_x_val lds)) /\
  y_test b = map label (inc_x_test lds) /\
  set_size_vec_train b = inc_set_size_train lds /\
  set_size_vec_val b = Some (inc_set_size_val lds) /\
  set_size_vec_test b = inc_set_size_test lds /\
  stim_type_vec_train b = inc_stim_type_train lds /\
  stim_type_vec_val b = inc_stim_type_val lds /\
  stim_type_vec_test b = [].

(** ** Requests that the partitioner serves *)

(** The request divides into whole numbers at every level: by the number of
    stimulus types, by the number of set sizes of each type, and by the two
    presence states. *)
Definition whole_at_every_level (m : manifest) (size : Z) : Prop :=
  Forall (fun item =>
            (Z.of_nat (length m) * (Z.of_nat (length (snd item)) * 2) | size)) m.

(** The manifest has a stimulus type, every type a set size, and every set
    size its two pools (['present'] and ['absent']). *)
Definition well_formed (m : manifest) : Prop :=
  m <> [] /\
  Forall (fun item =>
            snd item <> [] /\
            Forall (fun ss_item => length (snd ss_item) = 2%nat) (snd item)) m.

(** The pool holds what is asked of it; in remainder mode something is left
    for the test split. *)
Definition serves (lf : leaf) : Prop :=
  if 0 <? lf_test lf
  then lf_train lf + lf_val lf + lf_test lf <= Z.of_nat (length (lf_pool lf))
  else lf_test lf = -1 /\ lf_train lf + lf_val lf < Z.of_nat (length (lf_pool lf)).

Definition valid_request (m : manifest) (train_size : Z) (val_size test_size : option Z)
  : Prop :=
  well_formed m /\
  0 < train_size /\ whole_at_every_level m train_size /\
  match val_size with
  | Some v => 0 < v /\ whole_at_every_level m v
  | None => True
  end /\
  match test_size with
  | Some t => 0 < t /\ whole_at_every_level m t
  | None => True
  end /\
  Forall serves (leaves m train_size val_size test_size).

(** ** Labels *)

(** [s] occurs in [t] as a (contiguous) substring. *)
Definition occurs_in (s t : string) : Prop :=
  exists pre post, t = (pre ++ s ++ post)%string.

(** The label [y] fits the file path [f]. *)
Definition labelled (f : string) (y : Z) : Prop :=
  (y = 1 <-> occurs_in "present" f) /\ (~ occurs_in "present" f -> y = 0).

(** ** Signal detection *)

(** The number of samples predicted [p] whose true label is [t]. *)
Definition tally (y_true y_pred : list Z) (p t : Z) : Z :=
  Z.of_nat (length (filter (fun yy => (fst yy =? p) && (snd yy =? t))
                      (combine y_pred y_true))).

Definition binary (y : list Z) : Prop := Forall (fun v => v = 0 \/ v = 1) y.

(** The rate that [compute_d_prime] returns for [k] out of [n]: the raw
    rate, moved off 1 and off 0 by half a sample. *)
Definition corrected_rate (k n : Z) (q : Q) : Prop :=
  (0 < q /\ q < 1)%Q /\
  ((inject_Z k / inject_Z n == 1)%Q -> (q == 1 - (1 # 2) / inject_Z n)%Q) /\
  ((inject_Z k / inject_Z n == 0)%Q -> (q == (1 # 2) / inject_Z n)%Q) /\
  (~ (inject_Z k / inject_Z n == 1)%Q -> ~ (inject_Z k / inject_Z n == 0)%Q ->
   (q == inject_Z k / inject_Z n)%Q).

(** ** Grids *)

(** The error grid that goes with a result of [acc_grid]: 1 minus the
    accuracy in every cell, the counts as they are. *)
Definition complement_result (r : grid_result) : grid_result :=
  match r with
  | Grid acc => Grid (grid_complement acc)
  | GridCounts acc correct_counts trial_counts =>
      GridCounts (grid_complement acc) correct_counts trial_counts
  end.

Definition result_grid (r : grid_result) : list (list float64) :=
  match r with
  | Grid g => g
  | GridCounts g _ _ => g
  end.

(** An error cell against the accuracy cell: 1 minus a defined accuracy,
    undefined where the accuracy is. *)
Definition complement_cell (acc err : float64) : Prop :=
  (forall q, acc = Finite q -> err = Finite (1 - q)) /\ (acc = NaN -> err = NaN).

(** ** Runs from two generators *)

(** Two runs agree: they return the same value or raise the same exception,
    and leave the generators related again. *)
Definition agree {A rng1 rng2 : Type} (R : rng1 -> rng2 -> Prop)
    (r1 : result (A * rng1)) (r2 : result (A * rng2)) : Prop :=
  match r1, r2 with
  | Ok (a1, g1), Ok (a2, g2) => a1 = a2 /\ R g1 g2
  | Raise e1, Raise e2 => e1 = e2
  | _, _ => False
  end.

(** From related states the two generators deal the same permutation, and
    are related again. *)
Definition same_stream {rng1 rng2 : Type}
    (shuffle1 : list nat -> rng1 -> list nat * rng1)
    (shuffle2 : list nat -> rng2 -> list nat * rng2)
    (R : rng1 -> rng2 -> Prop) : Prop :=
  forall l g1 g2,
    R g1 g2 ->
    fst (shuffle1 l g1) = fst (shuffle2 l g2) /\
    R (snd (shuffle1 l g1)) (snd (shuffle2 l g2)).

(** ** A generator and a manifest for the worked examples *)

(** An instance of the generator: its state is a counter, and a shuffle
    rotates the list by the counter and advances it. *)
Definition counter_shuffle (l : list nat) (g : nat) : list nat * nat :=
  (skipn (Nat.modulo g (length l)) l ++ firstn (Nat.modulo g (length l)) l, S g).

Definition record_of (f : string) : stim_info := mk_stim_info f [].

(** One stimulus type, one set size, three images with and three without
    the target. *)
Definition example_manifest : manifest :=
  [("RVvGV"%string,
    [(3, [("present"%string,
           [record_of "RVvGV/3/present/0.png"; record_of "RVvGV/3/present/1.png";
            record_of "RVvGV/3/present/2.png"]);
          ("absent"%string,
           [record_of "RVvGV/3/absent/0.png"; record_of "RVvGV/3/absent/1.png";
            record_of "RVvGV/3/absent/2.png"])])])].

(** [data(train_dir, train_size=2, val_size=2)] on it, from counter 0. *)
Definition example_bundle : bundle :=
  mk_bundle
    ["RVvGV/3/present/2.png"; "RVvGV/3/absent/0.png"]%string [1; 0]
    (Some ["RVvGV/3/present/1.png"; "RVvGV/3/absent/2.png"]%string) (Some [1; 0])
    ["RVvGV/3/present/0.png"; "RVvGV/3/absent/1.png"]%string [1; 0]
    [3; 3] (Some [3; 3]) [3; 3]
    [("RVvGV"%string, [3])]
    ["RVvGV"; "RVvGV"; "RVvGV"; "RVvGV"]%string
    ["RVvGV"; "RVvGV"]%string
    [].

(** The labels of the worked example of d-prime. *)
Definition example_y_true : list Z := [1; 1; 1; 0; 0; 0].
Definition example_y_pred : list Z := [1; 1; 0; 0; 1; 0].

(** A quantile function for the examples: finite inside (0, 1), as
    [norm.ppf] is, and NaN at NaN. *)
Definition example_ppf (x : float64) : float64 :=
  match x with
  | Finite q => Finite (q - (1 # 2))
  | _ => NaN
  end.

(** One 2 x 2 stimulus with a target and a distractor, predicted right. *)
Definition example_grid : char_grid :=
  [["t"; ""]; [""; "d"]]%string.

(** ** Vocabulary of the further properties *)

(** What a pass over one stimulus type that returns says of the request. *)
Definition type_request_ok (T : nat) (train_size : Z) (val_size test_size : option Z)
    (item : string * stim_info_by_set_size) : Prop :=
  snd item <> [] /\
  (Z.of_nat T * (Z.of_nat (length (snd item)) * 2) | train_size) /\
  (forall v, val_size = Some v -> v <> 0 ->
             (Z.of_nat T * (Z.of_nat (length (snd item)) * 2) | v)) /\
  (forall t, test_size = Some t -> t <> -1 ->
             0 < t /\ (Z.of_nat T * (Z.of_nat (length (snd item)) * 2) | t)) /\
  Forall (fun lf => 0 < lf_train lf /\ serves lf)
    (leaves_of_stim_type
       (train_per_leaf train_size T (length (snd item)))
       (val_per_leaf val_size T (length (snd item)))
       (test_per_leaf test_size T (length (snd item)))
       item).


(** The file name [f] is in a pool of stimulus type [st] and set size [ss]
    of the manifest. *)
Definition in_pool (m : manifest) (st : string) (ss : Z) (f : string) : Prop :=
  exists by_ss pa key infos,
    In (st, by_ss) m /\ In (ss, pa) by_ss /\ In (key, infos) pa /\
    In f (map filename infos).

(** The catalog of a manifest: its stimulus types with their set sizes. *)
Definition catalog_of (m : manifest) : list (string * list Z) :=
  map (fun item => (fst item, map fst (snd item))) m.

(** Two stimulus types of one set size each, two images per pool. *)
Definition two_type_manifest : manifest :=
  [("RVvGV"%string,
    [(3, [("present"%string,
           [record_of "RVvGV/3/present/0.png"; record_of "RVvGV/3/present/1.png"]);
          ("absent"%string,
           [record_of "RVvGV/3/absent/0.png"; record_of "RVvGV/3/absent/1.png"])])]);
   ("2_v_5"%string,
    [(6, [("present"%string,
           [record_of "2_v_5/6/present/0.png"; record_of "2_v_5/6/present/1.png"]);
          ("absent"%string,
           [record_of "2_v_5/6/absent/0.png"; record_of "2_v_5/6/absent/1.png"])])])].

(** ** Cells and shapes of grids *)

Definition cell_at (counts : list (list Z)) (r c : nat) : Z :=
  nth c (nth r counts []) 0.

Definition char_at (g : char_grid) (r c : nat) : string :=
  nth c (nth r g []) EmptyString.

Definition value_at (a : list (list float64)) (r c : nat) : float64 :=
  nth c (nth r a []) NaN.

(** [R] rows of [C] cells each. *)
Definition has_shape {A} (R C : nat) (a : list (list A)) : Prop :=
  length a = R /\ forall r, (r < R)%nat -> length (nth r a []) = C.

Definition rows_of (shape : list nat) : nat :=
  match shape with
  | [r; _] => r
  | _ => 0%nat
  end.

Definition cols_of (shape : list nat) : nat :=
  match shape with
  | [_; c] => c
  | _ => 0%nat
  end.

(** How often the position [(r, c)] is in a list of positions. *)
Definition occurrences (ps : list (nat * nat)) (r c : nat) : Z :=
  Z.of_nat (length (filter (fun p => (fst p =? r)%nat && (snd p =? c)%nat) ps)).

Definition Qsum (l : list Q) : Q := fold_right Qplus 0%Q l.

(** ** [p_item_grid] (metrics.py, lines 42-90) *)

(** [np.nonzero(mask)] for a mask computed cell by cell from a grid: the
    positions where it holds, row by row. *)
Definition positions_where (p : string -> bool) (g : char_grid) : list (nat * nat) :=
  flat_map
    (fun r => map (fun c => (r, c))
                (filter (fun c => p (nth c (nth r g []) EmptyString))
                   (seq 0 (length (nth r g [])))))
    (seq 0 (length g)).

(** [np.nonzero(g == item_char)] *)
Definition item_positions (item_char : string) (g : char_grid) : list (nat * nat) :=
  positions_where (fun s => String.eqb s item_char) g.

(** [np.sum(counts)] *)
Definition np_sum_grid (counts : list (list Z)) : Z := zsum (concat counts).

(** What [p_item_grid] returns: [p], or with [return_counts] the pair
    [(p, counts)]. *)
Inductive p_result : Type :=
| Probabilities (p : list (list float64))
| ProbabilitiesCounts (p : list (list float64)) (counts : list (list Z)).

(** Lines 82-85: [counts[np.nonzero(g == item_char)] += 1] for every grid.
    The positions of one grid are distinct, so the indexed [+= 1] adds one
    at each of them. *)
Fixpoint p_item_grid_loop (item_char : string) (char_grids : list char_grid)
    (counts : list (list Z)) : result (list (list Z)) :=
  match char_grids with
  | [] => Ok counts
  | g :: rest =>
      match incr_all counts (item_positions item_char g) with
      | Ok counts' => p_item_grid_loop item_char rest counts'
      | Raise e => Raise e
      end
  end.

Definition p_item_grid (char_grids : list char_grid) (item_char : string)
    (return_counts : bool) : result p_result :=
  match common_shape char_grids with
  | Raise e => Raise e
  | Ok grid_shape =>
      match p_item_grid_loop item_char char_grids (np_zeros grid_shape) with
      | Raise e => Raise e
      | Ok counts =>
          let total := np_sum_grid counts in
          let p := map (map (fun n => f_div (of_int n) (of_int total))) counts in
          if return_counts then Ok (ProbabilitiesCounts p counts)
          else Ok (Probabilities p)
      end
  end.

(** In how many of the grids the cell [(r, c)] holds [item_char]. *)
Definition item_count (char_grids : list char_grid) (item_char : string) (r c : nat) : Z :=
  Z.of_nat (length (filter (fun g => String.eqb (char_at g r c) item_char) char_grids)).

(** ** Vocabulary for [acc_grid] *)

(** The cell [(r, c)] of the grid holds an item. *)
Definition occupied (g : char_grid) (r c : nat) : bool :=
  negb (String.eqb (char_at g r c) EmptyString).

(** The prediction for the stimulus file [g_fname] is right; the file is
    looked up in [stim_fnames] as [acc_grid] does. *)
Definition is_correct (stim_fnames : list string) (y_true y_pred : list Z)
    (g_fname : string) : bool :=
  match where_eq stim_fnames g_fname with
  | [ind] =>
      match nth_error y_true ind, nth_error y_pred ind with
      | Some t, Some p => t =? p
      | _, _ => false
      end
  | _ => false
  end.

(** The trials that show an item in the cell [(r, c)], and those of them
    that are predicted right. *)
Definition trial_count (items : list (char_grid * string)) (r c : nat) : Z :=
  Z.of_nat (length (filter (fun item => occupied (fst item) r c) items)).

Definition correct_count (stim_fnames : list string) (y_true y_pred : list Z)
    (items : list (char_grid * string)) (r c : nat) : Z :=
  Z.of_nat (length (filter
                      (fun item => occupied (fst item) r c
                                   && is_correct stim_fnames y_true y_pred (snd item))
                      items)).

(** Two 2 x 2 stimuli: the target in the top left cell of the first and in
    the bottom right cell of the second. *)
Definition example_grids : list char_grid :=
  [[["t"; ""]; [""; "d"]]; [["d"; ""]; [""; "t"]]]%string.

(** How many cells of all the grids hold [item_char]. *)
Definition item_total (char_grids : list char_grid) (item_char : string) : Z :=
  zsum (map (fun g => Z.of_nat (length (item_positions item_char g))) char_grids).

(** [g_fname] is at the index [ind] of [stim_fnames] and nowhere else. *)
Definition found_once (stim_fnames : list string) (g_fname : string) (ind : nat) : Prop :=
  nth_error stim_fnames ind = Some g_fname /\
  forall j, nth_error stim_fnames j = Some g_fname -> j = ind.

(** The stimulus file is listed once, at an index that both [y_true] and
    [y_pred] have. *)
Definition scored (stim_fnames : list string) (y_true y_pred : list Z)
    (g_fname : string) : Prop :=
  exists ind, found_once stim_fnames g_fname ind /\
              (ind < length y_true)%nat /\ (ind < length y_pred)%nat.

(** A rate: undefined, or a number from 0 to 1. *)
Definition rate_or_nan (x : float64) : Prop :=
  x = NaN \/ exists q, x = Finite q /\ (0 <= q <= 1)%Q.

(** How many entries of [y] are [v]. *)
Definition count_of (y : list Z) (v : Z) : Z :=
  Z.of_nat (length (filter (fun x => x =? v) y)).

(** The grid has at least one cell. *)
Definition has_cell (g : char_grid) : Prop := exists row, In row g /\ row <> [].

(** ** Calling [data] (data.py, lines 10-14)

    [def data(train_dir, train_size, gz_filename, val_size=None,
    test_size=None)].  A call passes [train_dir], [train_size] and
    [gz_filename] by position, then possibly more positional arguments, then
    keyword arguments; the further values are integers or [None].  Python
    binds the arguments before the body runs, and every failure to bind is a
    [TypeError]: a sixth positional argument, a keyword that is no
    parameter, a parameter given twice. *)

Definition data_parameters : list string :=
  ["train_dir"; "train_size"; "gz_filename"; "val_size"; "test_size"]%string.

(** The parameters [val_size] and [test_size] while the arguments are bound:
    not yet given, or given a value. *)
Definition slots : Type := (option (option Z) * option (option Z))%type.

Definition bind_positional (extra : list (option Z)) : result slots :=
  match extra with
  | [] => Ok (None, None)
  | [v] => Ok (Some v, None)
  | [v; t] => Ok (Some v, Some t)
  | _ => Raise TypeError
  end.

Fixpoint bind_keywords (kwargs : list (string * option Z)) (s : slots) : result slots :=
  match kwargs with
  | [] => Ok s
  | (name, v) :: rest =>
      if String.eqb name "val_size" then
        match fst s with
        | Some _ => Raise TypeError
        | None => bind_keywords rest (Some v, snd s)
        end
      else if String.eqb name "test_size" then
        match snd s with
        | Some _ => Raise TypeError
        | None => bind_keywords rest (fst s, Some v)
        end
      else Raise TypeError
  end.

(** A parameter that was not given takes its default, [None]. *)
Definition default_none (slot : option (option Z)) : option Z :=
  match slot with
  | Some v => v
  | None => None
  end.

Definition bind_optional (extra : list (option Z)) (kwargs : list (string * option Z))
  : result (option Z * option Z) :=
  match bind_positional extra with
  | Raise e => Raise e
  | Ok s =>
      match bind_keywords kwargs s with
      | Raise e => Raise e
      | Ok (v, t) => Ok (default_none v, default_none t)
      end
  end.

(** [data(train_dir, train_size, gz_filename, *extra, **kwargs)], where
    [found] is what [glob] finds in [train_dir]. *)
Definition call_data (rng : Type) (shuffle : list nat -> rng -> list nat * rng)
    (found : list manifest) (train_size : Z)
    (extra : list (option Z)) (kwargs : list (string * option Z)) : M rng bundle :=
  match bind_optional extra kwargs with
  | Raise e => raise rng e
  | Ok (val_size, test_size) => data rng shuffle found train_size val_size test_size
  end.

(** A second generator for the examples: it deals what [counter_shuffle]
    deals, and also counts the shuffles it has made. *)
Definition logged_shuffle (l : list nat) (g : nat * nat) : list nat * (nat * nat) :=
  (fst (counter_shuffle l (fst g)), (S (fst g), S (snd g))).

(** ** Sizes that float64 holds exactly

    [int / int] is computed in float64.  For a dividend below 2^53 in
    magnitude the quotient is a whole float exactly when the divisor
    divides the dividend; beyond, the quotient is rounded. *)
Definition exact_in_float64 (n : Z) : Prop := Z.abs n < 2 ^ 53.

Definition request_exact_in_float64 (train_size : Z) (val_size test_size : option Z)
  : Prop :=
  exact_in_float64 train_size /\
  (forall v, val_size = Some v -> exact_in_float64 v) /\
  (forall t, test_size = Some t -> exact_in_float64 t).

(** ** Division in float64

    Python computes [int / int] and [float / int] in float64: the result is
    the float64 nearest to the quotient, ties going to the even
    significand.  The partitioner is modelled with exact quotients
    ([true_div]); the definitions below are the rounding, and the lemmas on
    them show that for sizes below 2^53 in magnitude the exact quotient
    passes [is_integer()] exactly when the rounded one does, with the same
    [int()]. *)

(** The integer nearest to [p / q], ties to the even one ([0 <= p],
    [0 < q]). *)
Definition round_half_even (p q : Z) : Z :=
  let f := p / q in
  let r := p mod q in
  if 2 * r <? q then f
  else if q <? 2 * r then f + 1
  else if Z.even f then f else f + 1.

(** [floor (log2 (a / d))] for positive [a] and [d]. *)
Definition floor_log2_quotient (a d : Z) : Z :=
  let k := Z.log2 d + 1 in
  Z.log2 (a * 2 ^ k / d) - k.

(** The float64 nearest to [x]: a significand of 53 bits, the exponent of
    its last bit not below -1074, an infinity from 2^1024 on.  (The sign of
    zero is not kept.) *)
Definition round_float64 (x : Q) : float64 :=
  let n := Qnum x in
  let d := Z.pos (Qden x) in
  if n =? 0 then Finite 0
  else
    let a := Z.abs n in
    let u := Z.max (floor_log2_quotient a d - 52) (-1074) in
    let m := round_half_even (a * 2 ^ Z.max 0 (- u)) (d * 2 ^ Z.max 0 u) in
    if 2 ^ 1024 <=? m * 2 ^ u
    then if n <? 0 then NegInf else PosInf
    else Finite (Z.sgn n * m * 2 ^ Z.max 0 u # Z.to_pos (2 ^ Z.max 0 (- u))).

(** [x.is_integer()] and [int(x)] as lines 107-112 use them: a float that is
    not whole (an infinity or NaN is not) raises [TypeError]. *)
Definition float64_whole (x : float64) : result Z :=
  match x with
  | Finite q => whole q
  | _ => Raise TypeError
  end.

(** The number of keys of a dictionary fits a machine word. *)
Definition dict_length (k : nat) : Prop := (0 < k)%nat /\ Z.of_nat k < 2 ^ 63.
(** * Properties

    ** Whole quotients *)

Lemma whole_spec (q : Q) (z : Z) : whole q = Ok z <-> (q == inject_Z z)%Q.
Proof.
  unfold whole, is_integer, py_int. destruct q as [n d]; simpl.
  pose proof (Z.quot_rem' n (Z.pos d)) as E.
  unfold Qeq; simpl. split.
  - destruct (Z.eqb_spec (Z.rem n (Z.pos d)) 0) as [H|H]; [|discriminate].
    intros [= <-]. rewrite H in E. lia.
  - intros H. rewrite Z.mul_1_r in H. subst n.
    rewrite Z.rem_mul by lia. simpl. rewrite Z.quot_mul by lia. reflexivity.
Qed.

Lemma true_div_Ok (a b r : Q) : true_div a b = Ok r <-> ~ (b == 0)%Q /\ r = (a / b)%Q.
Proof.
  unfold true_div. destruct (Qeq_bool b 0) eqn:E.
  - apply Qeq_bool_iff in E. split; [discriminate | tauto].
  - apply Qeq_bool_neq in E. split.
    + intros [= <-]. tauto.
    + intros [_ ->]. reflexivity.
Qed.

Lemma inject_Z_of_nat_neq0 (k : nat) : ~ (inject_Z (Z.of_nat k) == 0)%Q <-> k <> 0%nat.
Proof.
  unfold Qeq; simpl. lia.
Qed.

Lemma per_stim_type_spec (n : Z) (k : nat) (z : Z) :
  per_stim_type n k = Ok z <-> k <> 0%nat /\ n = z * Z.of_nat k.
Proof.
  unfold per_stim_type. split.
  - destruct (true_div _ _) as [q|] eqn:E; [|discriminate].
    apply true_div_Ok in E. destruct E as [Hk ->].
    intros Hw. apply whole_spec in Hw. apply inject_Z_of_nat_neq0 in Hk.
    split; [exact Hk|].
    unfold Qeq in Hw; simpl in Hw.
    destruct k; [congruence|]. simpl in Hw. lia.
  - intros [Hk ->].
    destruct (true_div _ _) as [q|] eqn:E.
    + apply true_div_Ok in E. destruct E as [_ ->]. apply whole_spec.
      unfold Qeq; simpl. destruct k; [congruence|]. simpl. lia.
    + unfold true_div in E. destruct (Qeq_bool _ _) eqn:E'; [|discriminate].
      apply Qeq_bool_iff in E'. apply inject_Z_of_nat_neq0 in Hk. tauto.
Qed.

Lemma per_set_size_spec (n : Z) (k : nat) (z : Z) :
  per_set_size n k = Ok z <-> k <> 0%nat /\ n = z * (Z.of_nat k * 2).
Proof.
  unfold per_set_size. split.
  - destruct (true_div _ _) as [q|] eqn:E; [|discriminate].
    apply true_div_Ok in E. destruct E as [Hk ->].
    destruct (true_div _ 2) as [q2|] eqn:E2; [|discriminate].
    apply true_div_Ok in E2. destruct E2 as [_ ->].
    intros Hw. apply whole_spec in Hw. apply inject_Z_of_nat_neq0 in Hk.
    split; [exact Hk|].
    unfold Qeq in Hw; simpl in Hw.
    destruct k; [congruence|]. simpl in Hw. lia.
  - intros [Hk ->].
    destruct (true_div _ _) as [q|] eqn:E.
    + apply true_div_Ok in E. destruct E as [_ ->].
      destruct (true_div _ 2) as [q2|] eqn:E2.
      * apply true_div_Ok in E2. destruct E2 as [_ ->]. apply whole_spec.
        unfold Qeq; simpl. destruct k; [congruence|]. simpl. lia.
      * unfold true_div in E2. simpl in E2. discriminate.
    + unfold true_div in E. destruct (Qeq_bool _ _) eqn:E'; [|discriminate].
      apply Qeq_bool_iff in E'. apply inject_Z_of_nat_neq0 in Hk. tauto.
Qed.

(** ** Popping and indexing *)

Lemma pops_Ok {A} (k : nat) (l xs rest : list A) :
  pops k l = Ok (xs, rest) ->
  (k <= length l)%nat /\ xs = firstn k (rev l) /\ rest = rev (skipn k (rev l)).
Proof.
  revert l xs rest. induction k as [|k IH]; intros l xs rest; simpl.
  - intros [= <- <-]. rewrite rev_involutive. repeat split. lia.
  - unfold list_pop. destruct (rev l) as [|x r] eqn:E; [discriminate|].
    destruct (pops k (rev r)) as [[xs' rest']|] eqn:Ep; [|discriminate].
    intros [= <- <-]. apply IH in Ep. rewrite rev_involutive in Ep.
    destruct Ep as (Hk & -> & ->).
    rewrite length_rev in Hk.
    assert (length l = S (length r)) as ->.
    { rewrite <- (length_rev l), E. reflexivity. }
    repeat split. lia.
Qed.

Lemma pops_total {A} (k : nat) (l : list A) :
  (k <= length l)%nat ->
  pops k l = Ok (firstn k (rev l), rev (skipn k (rev l))).
Proof.
  revert l. induction k as [|k IH]; intros l Hk; simpl.
  - rewrite rev_involutive. reflexivity.
  - unfold list_pop. destruct (rev l) as [|x r] eqn:E.
    + rewrite <- (length_rev l), E in Hk. simpl in Hk. lia.
    + rewrite IH.
      * rewrite rev_involutive. reflexivity.
      * rewrite length_rev. rewrite <- (length_rev l), E in Hk. simpl in Hk. lia.
Qed.

Lemma take_at_Ok {A} (d : A) (arr : list A) (inds : list nat) (xs : list A) :
  take_at arr inds = Ok xs ->
  Forall (fun i => (i < length arr)%nat) inds /\ xs = map (fun i => nth i arr d) inds.
Proof.
  revert xs. induction inds as [|i inds IH]; intros xs; simpl.
  - intros [= <-]. split; constructor.
  - destruct (nth_error arr i) as [x|] eqn:E; [|discriminate].
    destruct (take_at arr inds) as [xs'|]; [|discriminate].
    intros [= <-]. destruct (IH _ eq_refl) as [HF ->]. split.
    + constructor; [|exact HF]. apply nth_error_Some. congruence.
    + f_equal. symmetry. apply nth_error_nth. exact E.
Qed.

Lemma take_at_total {A} (d : A) (arr : list A) (inds : list nat) :
  Forall (fun i => (i < length arr)%nat) inds ->
  take_at arr inds = Ok (map (fun i => nth i arr d) inds).
Proof.
  induction 1 as [|i inds Hi _ IH]; simpl; [reflexivity|].
  rewrite IH. destruct (nth_error arr i) as [x|] eqn:E.
  - rewrite (nth_error_nth _ _ d E). reflexivity.
  - apply nth_error_None in E. lia.
Qed.

Lemma fancy_index_Ok {A} (d : A) (arr : list A) (inds : list nat) (xs : list A) :
  fancy_index arr inds = Ok xs ->
  inds <> [] /\ Forall (fun i => (i < length arr)%nat) inds /\
  xs = map (fun i => nth i arr d) inds.
Proof.
  destruct inds as [|i inds]; [discriminate|].
  intros H. split; [discriminate|]. apply take_at_Ok. exact H.
Qed.

Lemma fancy_index_total {A} (d : A) (arr : list A) (inds : list nat) :
  inds <> [] ->
  Forall (fun i => (i < length arr)%nat) inds ->
  fancy_index arr inds = Ok (map (fun i => nth i arr d) inds).
Proof.
  intros Hne HF. destruct inds as [|i inds]; [congruence|].
  apply take_at_total. exact HF.
Qed.

Lemma map_nth_seq {A} (d : A) (l : list A) :
  map (fun i => nth i l d) (seq 0 (length l)) = l.
Proof.
  apply nth_ext with (d := d) (d' := d).
  - rewrite length_map, length_seq. reflexivity.
  - intros n Hn. rewrite length_map, length_seq in Hn.
    rewrite (nth_indep _ d (nth 0 l d)) by (rewrite length_map, length_seq; exact Hn).
    rewrite (map_nth (fun i => nth i l d) (seq 0 (length l)) 0%nat n).
    rewrite seq_nth by exact Hn. reflexivity.
Qed.

Lemma combine_app_eq {A B} (l1 l2 : list A) (d1 d2 : list B) :
  length l1 = length d1 ->
  combine (l1 ++ l2) (d1 ++ d2) = combine l1 d1 ++ combine l2 d2.
Proof.
  revert d1. induction l1 as [|x l1 IH]; intros [|y d1] H; simpl in *;
    try discriminate; [reflexivity|].
  f_equal. apply IH. congruence.
Qed.

Lemma Forall_firstn {A} (P : A -> Prop) (n : nat) (l : list A) :
  Forall P l -> Forall P (firstn n l).
Proof.
  intros H. rewrite <- (firstn_skipn n l) in H.
  apply Forall_app in H. tauto.
Qed.

Lemma Forall_skipn {A} (P : A -> Prop) (n : nat) (l : list A) :
  Forall P l -> Forall P (skipn n l).
Proof.
  intros H. rewrite <- (firstn_skipn n l) in H.
  apply Forall_app in H. tauto.
Qed.

(** ** One pass over a leaf pool *)

Lemma segments_perm (pool : list string) (p : list nat) (a b c : nat) :
  Permutation (seq 0 (length pool)) p ->
  let f := fun i => nth i pool EmptyString in
  let r := rev p in
  Permutation
    (map f (firstn a r) ++ map f (firstn b (skipn a r))
       ++ map f (firstn c (skipn b (skipn a r)))
       ++ map f (skipn c (skipn b (skipn a r))))
    pool.
Proof.
  intros Hp f r.
  rewrite <- !map_app, !firstn_skipn.
  transitivity (map f (seq 0 (length pool))).
  - apply Permutation_map. subst r.
    rewrite <- Permutation_rev. symmetry. exact Hp.
  - subst f. rewrite map_nth_seq. reflexivity.
Qed.

Section PartitionerFacts.

Variable rng : Type.
Variable shuffle : list nat -> rng -> list nat * rng.

(** [random.shuffle] permutes its argument. *)
Hypothesis shuffle_perm : forall l g, Permutation l (fst (shuffle l g)).

Local Abbreviation M := (M rng).

Lemma bind_Ok {A B} (m : M A) (k : A -> M B) g b g' :
  bind rng m k g = Ok (b, g') <->
  exists a g1, m g = Ok (a, g1) /\ k a g1 = Ok (b, g').
Proof.
  unfold bind. split.
  - destruct (m g) as [[a g1]|]; [|discriminate]. eauto.
  - intros (a & g1 & -> & H). exact H.
Qed.

Lemma lift_Ok {A} (r : result A) g a g' :
  lift rng r g = Ok (a, g') <-> r = Ok a /\ g' = g.
Proof.
  unfold lift. destruct r; split; try discriminate.
  - intros [= -> ->]. auto.
  - intros [[= ->] ->]. reflexivity.
  - intros [[=] _].
Qed.

Lemma ret_Ok {A} (x : A) g a g' :
  ret rng x g = Ok (a, g') <-> a = x /\ g' = g.
Proof.
  unfold ret. split.
  - intros [= -> ->]. auto.
  - intros [-> ->]. reflexivity.
Qed.

Lemma leaf_body_Ok st ss tr va te pool a g a' g' :
  leaf_body rng shuffle st ss tr va te pool a g = Ok (a', g') ->
  exists d,
    draw_ok (mk_leaf st ss tr va te pool) d /\
    a' = apply_draw a (mk_leaf st ss tr va te pool, d) /\
    g' = snd (shuffle (seq 0 (length pool)) g).
Proof.
  unfold leaf_body. intros H.
  destruct (Z.of_nat (length pool) <? total_size tr va te) eqn:Etot; [discriminate|].
  apply bind_Ok in H as (p & g1 & Hs & H).
  unfold random_shuffle in Hs. injection Hs as Hs.
  pose proof (shuffle_perm (seq 0 (length pool)) g) as Hp.
  rewrite Hs in Hp |- *. cbn [fst snd] in Hp |- *.
  assert (Hlen : length p = length pool).
  { rewrite <- (Permutation_length Hp), length_seq. reflexivity. }
  pose proof (segments_perm pool p) as Hseg. specialize (fun x y z => Hseg x y z Hp).
  cbv zeta in Hseg.
  set (f := fun i => nth i pool EmptyString) in *.
  set (r := rev p) in *.
  assert (Hr : length r = length pool) by (subst r; rewrite length_rev; exact Hlen).
  apply bind_Ok in H as ([train_inds inds1] & g2 & Hp1 & H).
  apply lift_Ok in Hp1 as [Hp1 ->].
  apply pops_Ok in Hp1. destruct Hp1 as (Hktr & -> & ->). fold r in H |- *.
  apply bind_Ok in H as (tmp_tr & g2 & Hf1 & H).
  apply lift_Ok in Hf1 as [Hf1 ->].
  apply (fancy_index_Ok EmptyString) in Hf1. destruct Hf1 as (_ & _ & ->). fold f in H.
  apply bind_Ok in H as ([a2 inds2] & g2 & Hv & H).
  destruct a as [xtr str ttr xva sva tva xte ste tte cat].
  cbn [l_x_train l_set_size_vec_train l_stim_type_vec_train l_x_val l_set_size_vec_val
       l_stim_type_vec_val l_x_test l_set_size_vec_test l_stim_type_vec_test
       l_set_sizes_by_stim_stype] in Hv.
  set (B := skipn (Z.to_nat va) (skipn (Z.to_nat tr) r)) in *.
  assert (Hval : exists dva,
    dva = map f (firstn (Z.to_nat va) (skipn (Z.to_nat tr) r)) /\
    length dva = Z.to_nat va /\
    inds2 = rev B /\ g2 = g1 /\
    a2 = mk_locals
           (xtr ++ map f (firstn (Z.to_nat tr) r))
           (str ++ repeat ss (length (map f (firstn (Z.to_nat tr) r))))
           (ttr ++ repeat st (length (map f (firstn (Z.to_nat tr) r))))
           (extend_some xva dva)
           (extend_some sva (repeat ss (length dva)))
           (extend_bound tva (repeat st (length dva)))
           xte ste tte cat).
  { destruct (0 <? va) eqn:Eva.
    - apply bind_Ok in Hv as ([val_inds inds3] & g3 & Hp2 & Hv).
      apply lift_Ok in Hp2 as [Hp2 ->].
      apply pops_Ok in Hp2. rewrite rev_involutive in Hp2.
      destruct Hp2 as (Hkva & -> & ->).
      apply bind_Ok in Hv as (tmp_va & g3 & Hf2 & Hv).
      apply lift_Ok in Hf2 as [Hf2 ->].
      apply (fancy_index_Ok EmptyString) in Hf2. destruct Hf2 as (_ & _ & ->). fold f in Hv.
      apply bind_Ok in Hv as (xv' & g3 & Hx & Hv). apply lift_Ok in Hx as [Hx ->].
      apply bind_Ok in Hv as (sv' & g3 & Hsv & Hv). apply lift_Ok in Hsv as [Hsv ->].
      apply bind_Ok in Hv as (tv' & g3 & Htv & Hv). apply lift_Ok in Htv as [Htv ->].
      apply ret_Ok in Hv as [Hv ->]. injection Hv as -> ->.
      cbn [l_x_train l_set_size_vec_train l_stim_type_vec_train l_x_val l_set_size_vec_val
           l_stim_type_vec_val l_x_test l_set_size_vec_test l_stim_type_vec_test
           l_set_sizes_by_stim_stype] in *.
      destruct xva as [xv|]; [|discriminate].
      destruct sva as [sv|]; [|discriminate].
      destruct tva as [|tv]; [discriminate|].
      cbn [extend_opt extend_local] in *.
      injection Hx as <-. injection Hsv as <-. injection Htv as <-.
      eexists. split; [reflexivity|].
      split.
      { rewrite length_map, length_rev in *. apply firstn_length_le. exact Hkva. }
      repeat split; reflexivity.
    - apply ret_Ok in Hv as [Hv ->]. injection Hv as -> ->.
      assert (Hz : Z.to_nat va = 0%nat) by (apply Z.ltb_ge in Eva; lia).
      exists []. subst B. rewrite Hz. cbn [skipn firstn map length repeat].
      repeat split.
      destruct xva, sva, tva; cbn [extend_some extend_bound];
        rewrite ?app_nil_r; reflexivity. }
  clear Hv. destruct Hval as (dva & Hdva & Hldva & -> & -> & ->).
  cbv beta iota in H.
  apply bind_Ok in H as (test_inds & g3 & Ht & H).
  apply bind_Ok in H as (tmp_te & g4 & Hf3 & H).
  apply lift_Ok in Hf3 as [Hf3 ->].
  apply (fancy_index_Ok EmptyString) in Hf3. destruct Hf3 as (_ & _ & ->). fold f in H.
  apply ret_Ok in H as [-> ->].
  cbn [l_x_train l_set_size_vec_train l_stim_type_vec_train l_x_val l_set_size_vec_val
       l_stim_type_vec_val l_x_test l_set_size_vec_test l_stim_type_vec_test
       l_set_sizes_by_stim_stype].
  assert (Hkva : (Z.to_nat va <= length (skipn (Z.to_nat tr) r))%nat).
  { pose proof Hldva as Hl. rewrite Hdva, length_map, length_firstn in Hl. lia. }
  assert (HB : length B = (length pool - Z.to_nat tr - Z.to_nat va)%nat).
  { subst B. rewrite !length_skipn, Hr. reflexivity. }
  assert (Htest : g3 = g1 /\ length test_inds = test_count (mk_leaf st ss tr va te pool) /\
                  exists rest, Permutation (map f test_inds ++ map f rest) (map f B)).
  { unfold test_count. cbn [lf_test lf_pool lf_train lf_val].
    destruct (0 <? te) eqn:Ete.
    - apply bind_Ok in Ht as ([ti inds3] & g5 & Hp3 & Ht).
      apply lift_Ok in Hp3 as [Hp3 ->].
      apply pops_Ok in Hp3. rewrite rev_involutive in Hp3.
      destruct Hp3 as (Hkte & -> & ->).
      apply ret_Ok in Ht as [-> ->].
      split; [reflexivity|]. split.
      + apply firstn_length_le. rewrite length_rev in Hkte. exact Hkte.
      + exists (skipn (Z.to_nat te) B). rewrite <- map_app, firstn_skipn. reflexivity.
    - destruct (te =? -1) eqn:Ete1; [|discriminate].
      apply ret_Ok in Ht as [-> ->].
      split; [reflexivity|]. split.
      + rewrite length_rev. exact HB.
      + exists []. cbn [map]. rewrite app_nil_r. apply Permutation_map.
        symmetry. apply Permutation_rev. }
  destruct Htest as (-> & Hlte & rest & Hperm).
  exists (mk_draw (map f (firstn (Z.to_nat tr) r)) dva (map f test_inds)).
  split; [|split; [|reflexivity]].
  - unfold draw_ok. cbn [d_train d_val d_test lf_train lf_val lf_test lf_pool].
    split. { rewrite length_map. apply firstn_length_le. rewrite Hr, <- Hlen. exact Hktr. }
    split. { exact Hldva. }
    split. { rewrite length_map. exact Hlte. }
    exists (map f rest).
    rewrite <- (Hseg (Z.to_nat tr) (Z.to_nat va) 0%nat).
    cbn [firstn map app skipn]. fold B. rewrite Hdva.
    apply Permutation_app_head. apply Permutation_app_head. exact Hperm.
  - unfold apply_draw.
    cbn [d_train d_val d_test lf_stim_type lf_set_size l_x_train l_set_size_vec_train
         l_stim_type_vec_train l_x_val l_set_size_vec_val
         l_stim_type_vec_val l_x_test l_set_size_vec_test l_stim_type_vec_test
         l_set_sizes_by_stim_stype].
    reflexivity.
Qed.


(** *** Composition of draws *)

Lemma with_catalog_apply_draw c a ld :
  apply_draw (with_catalog c a) ld = with_catalog c (apply_draw a ld).
Proof. destruct ld as [lf d]. reflexivity. Qed.

Lemma with_catalog_apply_draws c a lds :
  apply_draws (with_catalog c a) lds = with_catalog c (apply_draws a lds).
Proof.
  revert a. unfold apply_draws.
  induction lds as [|ld lds IH]; intros a; simpl; [reflexivity|].
  rewrite with_catalog_apply_draw. apply IH.
Qed.

Lemma with_catalog_idem c1 c2 a :
  with_catalog c2 (with_catalog c1 a) = with_catalog c2 a.
Proof. reflexivity. Qed.

Lemma with_catalog_self a : with_catalog (l_set_sizes_by_stim_stype a) a = a.
Proof. destruct a; reflexivity. Qed.

Lemma drawn_nil a : drawn [] a a.
Proof.
  exists [], (l_set_sizes_by_stim_stype a). split; [constructor|].
  simpl. symmetry. apply with_catalog_self.
Qed.

Lemma drawn_app l1 l2 a a1 a2 :
  drawn l1 a a1 -> drawn l2 a1 a2 -> drawn (l1 ++ l2) a a2.
Proof.
  intros (d1 & c1 & H1 & ->) (d2 & c2 & H2 & ->).
  exists (d1 ++ d2), c2. split.
  - apply Forall2_app; assumption.
  - rewrite with_catalog_apply_draws, with_catalog_idem.
    f_equal. unfold apply_draws.
    rewrite combine_app_eq by (eapply Forall2_length; eassumption).
    rewrite fold_left_app. reflexivity.
Qed.

Lemma drawn_catalog lfs c a a' :
  drawn lfs (with_catalog c a) a' -> drawn lfs a a'.
Proof.
  intros (d & c' & H & ->). exists d, c'. split; [exact H|].
  rewrite with_catalog_apply_draws. reflexivity.
Qed.

Lemma leaf_body_drawn st ss tr va te pool a g a' g' :
  leaf_body rng shuffle st ss tr va te pool a g = Ok (a', g') ->
  drawn [mk_leaf st ss tr va te pool] a a'.
Proof.
  intros H. apply leaf_body_Ok in H as (d & Hd & -> & _).
  exists [d], (l_set_sizes_by_stim_stype a). split.
  - constructor; [exact Hd|constructor].
  - simpl. destruct a; reflexivity.
Qed.

(** A loop whose passes each draw from the leaves [lv x] draws from all of
    them. *)
Lemma for_each_drawn {A} (body : A -> locals -> M locals) (lv : A -> list leaf)
    (l : list A) :
  (forall x a g a' g', In x l -> body x a g = Ok (a', g') -> drawn (lv x) a a') ->
  forall a g a' g',
    for_each rng l body a g = Ok (a', g') -> drawn (flat_map lv l) a a'.
Proof.
  induction l as [|x l IH]; intros Hbody a g a' g' H; simpl in H |- *.
  - apply ret_Ok in H as [-> _]. apply drawn_nil.
  - apply bind_Ok in H as (a1 & g1 & Hx & H).
    apply drawn_app with (a1 := a1).
    + eapply Hbody; [left; reflexivity|exact Hx].
    + eapply IH; [|exact H]. intros; eapply Hbody; [right|]; eassumption.
Qed.


(** *** The loops over set sizes and stimulus types *)

Lemma leaves_of_set_size_flat st tr va te ss (pa : present_absent_dict) :
  flat_map (fun kv : string * list string => [mk_leaf st ss tr va te (snd kv)])
    (stim_fnames_of pa)
  = leaves_of_set_size st tr va te (ss, pa).
Proof.
  unfold leaves_of_set_size, stim_fnames_of. cbn [fst snd].
  induction pa as [|[k infos] pa IH]; simpl; [reflexivity|].
  f_equal. exact IH.
Qed.

Lemma set_size_loop_drawn st tr va te (by_ss : stim_info_by_set_size) a g a' g' :
  for_each rng by_ss
    (fun '(set_size, present_absent) a =>
       for_each rng (stim_fnames_of present_absent)
         (fun '(_, stim_fnames) a =>
            leaf_body rng shuffle st set_size tr va te stim_fnames a)
         a)
    a g = Ok (a', g') ->
  drawn (leaves_of_stim_type tr va te (st, by_ss)) a a'.
Proof.
  unfold leaves_of_stim_type. cbn [fst snd].
  apply for_each_drawn.
  intros [ss pa] a0 g0 a1 g1 _ H.
  rewrite <- leaves_of_set_size_flat.
  revert H. apply for_each_drawn.
  intros [k fnames] a2 g2 a3 g3 _ H. cbn [snd].
  eapply leaf_body_drawn. exact H.
Qed.

Lemma leaf_count_exact (z : Z) (T k : nat) :
  T <> 0%nat -> k <> 0%nat ->
  leaf_count (z * (Z.of_nat k * 2) * Z.of_nat T) T k = z.
Proof.
  intros HT Hk. unfold leaf_count.
  rewrite Z.div_mul by lia.
  replace (z * (Z.of_nat k * 2)) with (z * 2 * Z.of_nat k) by ring.
  rewrite Z.div_mul by lia. apply Z.div_mul. lia.
Qed.

Lemma stim_type_body_drawn (T : nat) train_size val_size test_size
    trT vaT teT item a g a' g' :
  per_stim_type train_size T = Ok trT ->
  (if truthy val_size
   then exists v, val_size = Some v /\ per_stim_type v T = Ok vaT
   else vaT = 0) ->
  (match test_size with
   | Some t => if truthy test_size then per_stim_type t T = Ok teT else teT = -1
   | None => teT = -1
   end) ->
  stim_type_body rng shuffle val_size test_size trT vaT teT item a g = Ok (a', g') ->
  drawn (leaves_of_stim_type
           (train_per_leaf train_size T (length (snd item)))
           (val_per_leaf val_size T (length (snd item)))
           (test_per_leaf test_size T (length (snd item)))
           item) a a'.
Proof.
  intros Htr Hva Hte H. destruct item as [st by_ss]. unfold stim_type_body in H.
  cbn [snd].
  apply bind_Ok in H as (tr & g1 & H1 & H). apply lift_Ok in H1 as [H1 ->].
  apply bind_Ok in H as (va & g1 & H2 & H).
  apply bind_Ok in H as (te & g2 & H3 & H).
  rewrite length_map in *.
  apply per_stim_type_spec in Htr as [HT ->].
  apply per_set_size_spec in H1 as [Hk ->].
  apply set_size_loop_drawn in H. apply drawn_catalog in H.
  assert (Etr : train_per_leaf (tr * (Z.of_nat (length by_ss) * 2) * Z.of_nat T) T
                  (length by_ss) = tr) by (apply leaf_count_exact; assumption).
  assert (Eva : val_per_leaf val_size T (length by_ss) = va).
  { unfold val_per_leaf. destruct (truthy val_size) eqn:Et.
    - destruct Hva as (v & -> & Hv). apply lift_Ok in H2 as [H2 ->].
      apply per_stim_type_spec in Hv as [_ ->].
      apply per_set_size_spec in H2 as [_ ->].
      apply leaf_count_exact; assumption.
    - apply ret_Ok in H2 as [-> ->]. destruct val_size as [v|]; [|reflexivity].
      simpl in Et. apply negb_false_iff, Z.eqb_eq in Et. subst v.
      unfold leaf_count. rewrite !Z.div_0_l by lia. reflexivity. }
  assert (Ete : test_per_leaf test_size T (length by_ss) = te).
  { unfold test_per_leaf. destruct test_size as [t|].
    - destruct (t =? -1) eqn:E1.
      + apply ret_Ok in H3 as [-> _]. reflexivity.
      + destruct (0 <? t) eqn:E0; [|discriminate].
        apply lift_Ok in H3 as [H3 ->].
        assert (Ht : truthy (Some t) = true).
        { simpl. apply negb_true_iff, Z.eqb_neq. apply Z.ltb_lt in E0. lia. }
        rewrite Ht in Hte.
        apply per_stim_type_spec in Hte as [_ ->].
        apply per_set_size_spec in H3 as [_ ->].
        apply leaf_count_exact; assumption.
    - apply ret_Ok in H3 as [-> _]. reflexivity. }
  rewrite Etr, Eva, Ete. exact H.
Qed.

(** The splits that [partition] accumulates are one well-formed draw from
    each leaf pool of the manifest, with the per-leaf counts of the
    specification. *)
Lemma partition_drawn m train_size val_size test_size g a g' :
  partition rng shuffle m train_size val_size test_size g = Ok (a, g') ->
  drawn (leaves m train_size val_size test_size) (init_locals val_size) a.
Proof.
  unfold partition, leaves. intros H.
  apply bind_Ok in H as (trT & g1 & H1 & H). apply lift_Ok in H1 as [H1 ->].
  apply bind_Ok in H as (vaT & g1 & H2 & H).
  apply bind_Ok in H as (teT & g2 & H3 & H).
  revert H. apply for_each_drawn.
  intros item a0 g0 a1 g3 _ H.
  eapply stim_type_body_drawn; [exact H1| | |exact H].
  - destruct val_size as [v|]; simpl in *.
    + destruct (negb (v =? 0)).
      * apply lift_Ok in H2 as [H2 _]. eauto.
      * apply ret_Ok in H2 as [-> _]. reflexivity.
    + apply ret_Ok in H2 as [-> _]. reflexivity.
  - destruct test_size as [t|]; simpl in *.
    + destruct (negb (t =? 0)).
      * apply lift_Ok in H3 as [H3 _]. exact H3.
      * apply ret_Ok in H3 as [-> _]. reflexivity.
    + apply ret_Ok in H3 as [-> _]. reflexivity.
Qed.


(** *** The accumulators after a sequence of draws *)

Lemma extend_some_nil {A} (v : option (list A)) : extend_some v [] = v.
Proof. destruct v; simpl; rewrite ?app_nil_r; reflexivity. Qed.

Lemma extend_bound_nil {A} (v : local (list A)) : extend_bound v [] = v.
Proof. destruct v; simpl; rewrite ?app_nil_r; reflexivity. Qed.

Lemma extend_some_app {A} (v : option (list A)) xs ys :
  extend_some (extend_some v xs) ys = extend_some v (xs ++ ys).
Proof. destruct v; simpl; rewrite <- ?app_assoc; reflexivity. Qed.

Lemma extend_bound_app {A} (v : local (list A)) xs ys :
  extend_bound (extend_bound v xs) ys = extend_bound v (xs ++ ys).
Proof. destruct v; simpl; rewrite <- ?app_assoc; reflexivity. Qed.

Lemma apply_draws_fields a lds :
  apply_draws a lds =
  mk_locals
    (l_x_train a ++ inc_x_train lds)
    (l_set_size_vec_train a ++ inc_set_size_train lds)
    (l_stim_type_vec_train a ++ inc_stim_type_train lds)
    (extend_some (l_x_val a) (inc_x_val lds))
    (extend_some (l_set_size_vec_val a) (inc_set_size_val lds))
    (extend_bound (l_stim_type_vec_val a) (inc_stim_type_val lds))
    (l_x_test a ++ inc_x_test lds)
    (l_set_size_vec_test a ++ inc_set_size_test lds)
    (l_stim_type_vec_test a)
    (l_set_sizes_by_stim_stype a).
Proof.
  revert a. unfold apply_draws.
  induction lds as [|[lf d] lds IH]; intros a.
  - simpl. rewrite !app_nil_r, !extend_some_nil, extend_bound_nil.
    destruct a; reflexivity.
  - cbn [fold_left]. rewrite IH. unfold apply_draw.
    cbn [l_x_train l_set_size_vec_train l_stim_type_vec_train l_x_val l_set_size_vec_val
         l_stim_type_vec_val l_x_test l_set_size_vec_test l_stim_type_vec_test
         l_set_sizes_by_stim_stype].
    rewrite !extend_some_app, extend_bound_app.
    unfold inc_x_train, inc_x_val, inc_x_test, inc_set_size_train, inc_set_size_val,
      inc_set_size_test, inc_stim_type_train, inc_stim_type_val.
    cbn [flat_map fst snd]. rewrite <- !app_assoc. reflexivity.
Qed.


(** *** The dictionary that [data] builds *)

Lemma data_Ok_partition found train_size val_size test_size g b g' :
  data rng shuffle found train_size val_size test_size g = Ok (b, g') ->
  exists m a,
    found = [m] /\
    partition rng shuffle m train_size val_size test_size g = Ok (a, g') /\
    make_dict val_size a = Ok b.
Proof.
  unfold data. destruct found as [|m [|m' found]]; try discriminate.
  intros H. apply bind_Ok in H as (a & g1 & Hp & H).
  apply lift_Ok in H as [H ->]. eauto.
Qed.

(** Without a validation size, [stim_type_vec_val] is still unbound when
    [data_dict] is built. *)
Lemma drawn_init_unbound lfs val_size a :
  truthy val_size = false ->
  drawn lfs (init_locals val_size) a ->
  l_stim_type_vec_val a = Unbound.
Proof.
  intros Hv (draws & c & _ & ->). rewrite apply_draws_fields.
  unfold init_locals. rewrite Hv. reflexivity.
Qed.

Lemma data_Ok found train_size val_size test_size g b g' :
  data rng shuffle found train_size val_size test_size g = Ok (b, g') ->
  exists m draws,
    found = [m] /\
    truthy val_size = true /\
    Forall2 draw_ok (leaves m train_size val_size test_size) draws /\
    bundle_of_draws b (combine (leaves m train_size val_size test_size) draws).
Proof.
  intros H. apply data_Ok_partition in H as (m & a & -> & Hp & Hd).
  apply partition_drawn in Hp.
  destruct (truthy val_size) eqn:Hv.
  - destruct Hp as (draws & c & HF & ->).
    exists m, draws. split; [reflexivity|]. split; [reflexivity|]. split; [exact HF|].
    rewrite apply_draws_fields in Hd. unfold make_dict, init_locals in Hd.
    rewrite Hv in Hd. cbn in Hd. injection Hd as <-.
    unfold bundle_of_draws. cbn. repeat split; reflexivity.
  - apply (drawn_init_unbound _ _ _ Hv) in Hp.
    unfold make_dict in Hd. rewrite Hv, Hp in Hd. discriminate.
Qed.


(** *** Runs that do not raise *)

Lemma total_size_eq tr va te :
  0 <= tr -> 0 <= va -> 0 < te \/ te = -1 ->
  total_size tr va te = tr + va + (if 0 <? te then te else 0).
Proof.
  intros Htr Hva Hte. unfold total_size. cbn [filter].
  destruct (Z.eqb_spec tr 0), (Z.eqb_spec tr (-1)), (Z.eqb_spec va 0),
    (Z.eqb_spec va (-1)), (Z.eqb_spec te 0), (Z.eqb_spec te (-1)),
    (Z.ltb_spec 0 te); cbn [negb andb fold_right]; lia.
Qed.

Lemma perm_seq_bound (n : nat) (p : list nat) :
  Permutation (seq 0 n) p -> Forall (fun i => (i < n)%nat) p.
Proof.
  intros Hp. eapply Permutation_Forall; [exact Hp|].
  apply Forall_forall. intros i Hi. apply in_seq in Hi. lia.
Qed.

Lemma nonempty_length {A} (l : list A) : (0 < length l)%nat -> l <> [].
Proof. destruct l; simpl; [lia|discriminate]. Qed.

Lemma leaf_body_total st ss tr va te pool a g :
  0 < tr -> 0 <= va -> (0 < va -> val_bound a) ->
  (if 0 <? te
   then tr + va + te <= Z.of_nat (length pool)
   else te = -1 /\ tr + va < Z.of_nat (length pool)) ->
  exists a' g', leaf_body rng shuffle st ss tr va te pool a g = Ok (a', g').
Proof.
  intros Htr Hva Hb Hte.
  assert (Hte' : 0 < te \/ te = -1).
  { destruct (Z.ltb_spec 0 te); [left; assumption|right; tauto]. }
  unfold leaf_body.
  rewrite total_size_eq by lia.
  assert (Hroom : tr + va + (if 0 <? te then te else 0) <= Z.of_nat (length pool)).
  { destruct (0 <? te); lia. }
  destruct (Z.ltb_spec (Z.of_nat (length pool)) (tr + va + (if 0 <? te then te else 0)));
    [lia|].
  assert (Hnat : (Z.to_nat tr + Z.to_nat va + (if (0 <? te)%Z then Z.to_nat te else 1)
                  <= length pool)%nat).
  { destruct (Z.ltb_spec 0 te); lia. }
  assert (Hktr : (0 < Z.to_nat tr)%nat) by lia.
  clear Hroom Hte.
  unfold bind, lift, ret, random_shuffle.
  pose proof (shuffle_perm (seq 0 (length pool)) g) as Hp.
  destruct (shuffle (seq 0 (length pool)) g) as [p g1]. cbn [fst] in Hp.
  assert (Hlen : length p = length pool).
  { rewrite <- (Permutation_length Hp), length_seq. reflexivity. }
  pose proof (perm_seq_bound _ _ Hp) as Hb0.
  set (r := rev p).
  assert (Hr : length r = length pool) by (subst r; rewrite length_rev; exact Hlen).
  assert (Hbr : Forall (fun i => (i < length pool)%nat) r) by (apply Forall_rev; exact Hb0).
  rewrite pops_total by lia. fold r.
  rewrite (fancy_index_total EmptyString).
  2:{ apply nonempty_length. rewrite firstn_length_le; lia. }
  2:{ apply Forall_firstn. exact Hbr. }
  set (B1 := skipn (Z.to_nat tr) r).
  assert (HB1 : length B1 = (length pool - Z.to_nat tr)%nat).
  { subst B1. rewrite length_skipn, Hr. reflexivity. }
  assert (HbB1 : Forall (fun i => (i < length pool)%nat) B1) by (apply Forall_skipn; exact Hbr).
  (* the step for the test split, from any list of remaining indices *)
  assert (Htest : forall (B : list nat) (a2 : locals) (g2 : rng),
    Forall (fun i => (i < length pool)%nat) B ->
    (if 0 <? te then (Z.to_nat te <= length B)%nat else (0 < length B)%nat) ->
    exists r2,
      match
        (if 0 <? te
         then fun g0 : rng =>
           match match pops (Z.to_nat te) (rev B) with
                 | Ok a0 => Ok (a0, g0) | Raise e => Raise e end with
           | Ok (a0, g'0) => (let '(test_inds, _) := a0 in fun g3 : rng => Ok (test_inds, g3)) g'0
           | Raise e => Raise e
           end
         else if te =? -1 then fun g0 : rng => Ok (rev B, g0)
              else fun _ : rng => Raise UnboundLocalError) g2
      with
      | Ok (test_inds, g3) =>
          match match fancy_index pool test_inds with
                | Ok a0 => Ok (a0, g3) | Raise e => Raise e end with
          | Ok (tmp_x_test, g4) =>
              Ok (mk_locals
                    (l_x_train a2) (l_set_size_vec_train a2)
                    (l_stim_type_vec_train a2 ++ repeat st (length tmp_x_test))
                    (l_x_val a2) (l_set_size_vec_val a2) (l_stim_type_vec_val a2)
                    (l_x_test a2 ++ tmp_x_test)
                    (l_set_size_vec_test a2 ++ repeat ss (length tmp_x_test))
                    (l_stim_type_vec_test a2) (l_set_sizes_by_stim_stype a2), g4)
          | Raise e => Raise e
          end
      | Raise e => Raise e
      end = Ok r2).
  { intros B a2 g2 HbB HlB. destruct (0 <? te) eqn:Ete.
    - rewrite pops_total by (rewrite length_rev; exact HlB).
      rewrite rev_involutive.
      rewrite (fancy_index_total EmptyString).
      + eexists. reflexivity.
      + apply nonempty_length. rewrite firstn_length_le by exact HlB.
        apply Z.ltb_lt in Ete. lia.
      + apply Forall_firstn. exact HbB.
    - destruct Hte' as [Hte'| ->]; [apply Z.ltb_lt in Hte'; congruence|]. rewrite Z.eqb_refl.
      rewrite (fancy_index_total EmptyString).
      + eexists. reflexivity.
      + apply nonempty_length. rewrite length_rev. exact HlB.
      + apply Forall_rev. exact HbB. }
  destruct (0 <? va) eqn:Eva.
  - apply Z.ltb_lt in Eva. destruct (Hb Eva) as (xv & sv & tv & Hx & Hs & Ht).
    rewrite pops_total by (rewrite length_rev; fold B1; lia).
    rewrite rev_involutive. fold B1.
    rewrite (fancy_index_total EmptyString).
    2:{ apply nonempty_length. rewrite firstn_length_le; lia. }
    2:{ apply Forall_firstn. exact HbB1. }
    cbn [l_x_train l_set_size_vec_train l_stim_type_vec_train l_x_val l_set_size_vec_val
         l_stim_type_vec_val l_x_test l_set_size_vec_test l_stim_type_vec_test
         l_set_sizes_by_stim_stype].
    rewrite Hx, Hs, Ht. cbn [extend_opt extend_local].
    edestruct (Htest (skipn (Z.to_nat va) B1)) as [[a' g'] Hres];
      [apply Forall_skipn; exact HbB1| |exists a', g'; exact Hres].
    rewrite length_skipn, HB1. destruct (0 <? te); lia.
  - apply Z.ltb_ge in Eva.
    edestruct (Htest B1) as [[a' g'] Hres];
      [exact HbB1| |exists a', g'; exact Hres].
    rewrite HB1. destruct (0 <? te); lia.
Qed.


Lemma apply_draw_val_bound a ld : val_bound a -> val_bound (apply_draw a ld).
Proof.
  intros (xv & sv & tv & Hx & Hs & Ht). destruct ld as [lf d].
  unfold val_bound, apply_draw. cbn. rewrite Hx, Hs, Ht. cbn.
  do 3 eexists. repeat split; reflexivity.
Qed.

Lemma for_each_total {A} (I : locals -> Prop) (body : A -> locals -> M locals)
    (l : list A) :
  (forall x a g, In x l -> I a -> exists a' g', body x a g = Ok (a', g') /\ I a') ->
  forall a g, I a -> exists a' g', for_each rng l body a g = Ok (a', g') /\ I a'.
Proof.
  induction l as [|x l IH]; intros Hbody a g Ha; simpl.
  - exists a, g. split; [reflexivity|exact Ha].
  - destruct (Hbody x a g (or_introl eq_refl) Ha) as (a1 & g1 & Hx & Ha1).
    destruct (IH (fun y a0 g0 Hy => Hbody y a0 g0 (or_intror Hy)) a1 g1 Ha1)
      as (a2 & g2 & Hl & Ha2).
    exists a2, g2. split; [|exact Ha2].
    apply bind_Ok. exists a1, g1. split; assumption.
Qed.

Lemma set_size_loop_total st tr va te (by_ss : stim_info_by_set_size) a g :
  0 < tr -> 0 <= va ->
  Forall serves (leaves_of_stim_type tr va te (st, by_ss)) ->
  (0 < va -> val_bound a) ->
  exists a' g',
    for_each rng by_ss
      (fun '(set_size, present_absent) a =>
         for_each rng (stim_fnames_of present_absent)
           (fun '(_, stim_fnames) a =>
              leaf_body rng shuffle st set_size tr va te stim_fnames a)
           a)
      a g = Ok (a', g') /\ (0 < va -> val_bound a').
Proof.
  intros Htr Hva Hs. unfold leaves_of_stim_type in Hs. cbn [fst snd] in Hs.
  rewrite Forall_flat_map, Forall_forall in Hs.
  apply (for_each_total (fun a => 0 < va -> val_bound a)).
  intros [ss pa] a0 g0 Hin Ha0.
  specialize (Hs _ Hin). rewrite <- leaves_of_set_size_flat in Hs.
  rewrite Forall_flat_map, Forall_forall in Hs.
  revert a0 g0 Ha0. apply (for_each_total (fun a => 0 < va -> val_bound a)).
  intros [k fnames] a1 g1 Hin1 Ha1.
  specialize (Hs _ Hin1). cbn [snd] in Hs. apply Forall_inv in Hs.
  unfold serves in Hs. cbn [lf_train lf_val lf_test lf_pool] in Hs.
  destruct (leaf_body_total st ss tr va te fnames a1 g1) as (a2 & g2 & H);
    [lia|lia|exact Ha1|exact Hs|].
  exists a2, g2. split; [exact H|].
  apply leaf_body_Ok in H as (d & _ & -> & _).
  intros Hpos. apply apply_draw_val_bound. exact (Ha1 Hpos).
Qed.


Lemma with_catalog_val_bound c a : val_bound a -> val_bound (with_catalog c a).
Proof. intros H. exact H. Qed.

Lemma stim_type_body_total val_size test_size tr va te vaT teT st by_ss a g :
  by_ss <> [] -> 0 < tr ->
  match val_size with
  | Some v => 0 < v /\ 0 < va /\ vaT = va * (Z.of_nat (length by_ss) * 2)
  | None => va = 0
  end ->
  match test_size with
  | Some t => 0 < t /\ 0 < te /\ teT = te * (Z.of_nat (length by_ss) * 2)
  | None => te = -1
  end ->
  Forall serves (leaves_of_stim_type tr va te (st, by_ss)) ->
  (0 < va -> val_bound a) ->
  exists a' g',
    stim_type_body rng shuffle val_size test_size
      (tr * (Z.of_nat (length by_ss) * 2)) vaT teT
      (st, by_ss) a g = Ok (a', g') /\ (0 < va -> val_bound a').
Proof.
  intros Hne Htr Hva Hte Hs Ha.
  assert (Hk : length by_ss <> 0%nat).
  { intros E. apply length_zero_iff_nil in E. exact (Hne E). }
  unfold stim_type_body. rewrite length_map.
  assert (E1 : per_set_size (tr * (Z.of_nat (length by_ss) * 2)) (length by_ss) = Ok tr)
    by (apply per_set_size_spec; auto).
  rewrite E1. unfold bind at 1. cbn [lift].
  assert (E2 : (if truthy val_size
                then lift rng (per_set_size vaT (length by_ss))
                else ret rng 0) g = Ok (va, g)).
  { destruct val_size as [v|].
    - destruct Hva as (Hv & Hva & ->).
      assert (Et : truthy (Some v) = true).
      { simpl. apply negb_true_iff, Z.eqb_neq. lia. }
      rewrite Et. apply lift_Ok. split; [|reflexivity].
      apply per_set_size_spec; auto.
    - subst va. reflexivity. }
  unfold bind at 1. rewrite E2.
  assert (E3 : (match test_size with
                | Some t =>
                    if t =? -1 then ret rng (-1)
                    else if 0 <? t
                         then lift rng (per_set_size teT (length by_ss))
                         else raise rng ValueError
                | None => ret rng (-1)
                end) g = Ok (te, g)).
  { destruct test_size as [t|].
    - destruct Hte as (Ht & Hte & ->).
      destruct (Z.eqb_spec t (-1)); [lia|]. destruct (Z.ltb_spec 0 t); [|lia].
      apply lift_Ok. split; [|reflexivity]. apply per_set_size_spec; auto.
    - subst te. reflexivity. }
  unfold bind at 1. rewrite E3.
  apply set_size_loop_total; try assumption.
  destruct val_size; lia.
Qed.

Lemma whole_level_quotient (n : Z) (T k : nat) :
  T <> 0%nat -> k <> 0%nat ->
  (Z.of_nat T * (Z.of_nat k * 2) | n) ->
  n = leaf_count n T k * (Z.of_nat k * 2) * Z.of_nat T /\
  n / Z.of_nat T = leaf_count n T k * (Z.of_nat k * 2).
Proof.
  intros HT Hk [q Hq].
  assert (E : n = q * (Z.of_nat k * 2) * Z.of_nat T) by (rewrite Hq; ring).
  assert (Hl : leaf_count n T k = q).
  { rewrite E. apply leaf_count_exact; assumption. }
  rewrite Hl. split; [exact E|].
  rewrite E at 1. apply Z.div_mul. lia.
Qed.

Lemma leaf_count_pos (n : Z) (T k : nat) :
  T <> 0%nat -> k <> 0%nat ->
  (Z.of_nat T * (Z.of_nat k * 2) | n) -> 0 < n -> 0 < leaf_count n T k.
Proof.
  intros HT Hk Hd Hn.
  destruct (whole_level_quotient n T k HT Hk Hd) as [E _]. nia.
Qed.

Lemma partition_total m train_size val_size test_size g :
  valid_request m train_size val_size test_size ->
  exists a g',
    partition rng shuffle m train_size val_size test_size g = Ok (a, g') /\
    (val_size <> None -> val_bound a).
Proof.
  intros ((Hne & Hwf) & Htr & Hwtr & Hva & Hte & Hs).
  assert (HT : length m <> 0%nat) by (destruct m; [congruence|discriminate]).
  assert (Hitem : exists item, In item m).
  { destruct m as [|item m']; [congruence|]. exists item. left. reflexivity. }
  destruct Hitem as (item0 & Hin0).
  assert (Hk0 : length (snd item0) <> 0%nat).
  { rewrite Forall_forall in Hwf. destruct (Hwf _ Hin0) as [H _]. cbv beta in H.
    intros E. apply length_zero_iff_nil in E. exact (H E). }
  assert (Hdiv : forall n, whole_at_every_level m n ->
            per_stim_type n (length m) = Ok (n / Z.of_nat (length m))).
  { intros n Hw. unfold whole_at_every_level in Hw. rewrite Forall_forall in Hw.
    specialize (Hw _ Hin0).
    destruct (whole_level_quotient n _ _ HT Hk0 Hw) as [E1 E2].
    apply per_stim_type_spec. split; [exact HT|].
    rewrite E2. exact E1. }
  unfold partition.
  rewrite (Hdiv _ Hwtr). unfold bind at 1. cbn [lift].
  set (vaT := match val_size with
              | Some v => v / Z.of_nat (length m)
              | None => 0
              end).
  assert (E2 : (match val_size with
                | Some v =>
                    if truthy val_size
                    then lift rng (per_stim_type v (length m))
                    else ret rng 0
                | None => ret rng 0
                end) g = Ok (vaT, g)).
  { subst vaT. destruct val_size as [v|]; [|reflexivity].
    destruct Hva as [Hv Hwv].
    assert (Et : truthy (Some v) = true).
    { simpl. apply negb_true_iff, Z.eqb_neq. lia. }
    rewrite Et, (Hdiv _ Hwv). reflexivity. }
  unfold bind at 1. rewrite E2.
  set (teT := match test_size with
              | Some t => t / Z.of_nat (length m)
              | None => -1
              end).
  assert (E3 : (match test_size with
                | Some t =>
                    if truthy test_size
                    then lift rng (per_stim_type t (length m))
                    else ret rng (-1)
                | None => ret rng (-1)
                end) g = Ok (teT, g)).
  { subst teT. destruct test_size as [t|]; [|reflexivity].
    destruct Hte as [Ht Hwt].
    assert (Ett : truthy (Some t) = true).
    { simpl. apply negb_true_iff, Z.eqb_neq. lia. }
    rewrite Ett, (Hdiv _ Hwt). reflexivity. }
  unfold bind at 1. rewrite E3.
  unfold leaves in Hs. rewrite Forall_flat_map, Forall_forall in Hs.
  apply (for_each_total (fun a => val_size <> None -> val_bound a)).
  2:{ intros Hv. destruct val_size as [v|]; [|congruence]. destruct Hva as [Hv0 _].
      unfold init_locals, val_bound.
      assert (Et : truthy (Some v) = true).
      { simpl. apply negb_true_iff, Z.eqb_neq. lia. }
      rewrite Et. cbn. do 3 eexists. repeat split; reflexivity. }
  intros [st by_ss] a0 g0 Hin Ha0.
  specialize (Hs _ Hin). cbn [snd] in Hs.
  rewrite Forall_forall in Hwf. destruct (Hwf _ Hin) as [Hne' _]. cbn [snd] in Hne'.
  assert (Hk : length by_ss <> 0%nat).
  { intros E. apply length_zero_iff_nil in E. exact (Hne' E). }
  unfold whole_at_every_level in Hwtr. rewrite Forall_forall in Hwtr.
  pose proof (Hwtr _ Hin) as Hd1. cbn [snd] in Hd1.
  destruct (whole_level_quotient _ _ _ HT Hk Hd1) as [_ Eq1].
  rewrite Eq1.
  destruct (stim_type_body_total val_size test_size
              (leaf_count train_size (length m) (length by_ss))
              (val_per_leaf val_size (length m) (length by_ss))
              (test_per_leaf test_size (length m) (length by_ss))
              vaT teT st by_ss a0 g0) as (a1 & g1 & Hres & Hb1).
  - exact Hne'.
  - apply leaf_count_pos; assumption.
  - subst vaT. destruct val_size as [v|]; [|reflexivity].
    destruct Hva as [Hv Hwv].
    unfold whole_at_every_level in Hwv. rewrite Forall_forall in Hwv.
    pose proof (Hwv _ Hin) as Hd2. cbn [snd] in Hd2.
    destruct (whole_level_quotient _ _ _ HT Hk Hd2) as [_ Eq2].
    split; [exact Hv|]. split; [apply leaf_count_pos; assumption|exact Eq2].
  - subst teT. destruct test_size as [t|]; [|reflexivity].
    destruct Hte as [Ht Hwt].
    unfold whole_at_every_level in Hwt. rewrite Forall_forall in Hwt.
    pose proof (Hwt _ Hin) as Hd3. cbn [snd] in Hd3.
    destruct (whole_level_quotient _ _ _ HT Hk Hd3) as [_ Eq3].
    unfold test_per_leaf. destruct (Z.eqb_spec t (-1)); [lia|].
    split; [exact Ht|]. split; [apply leaf_count_pos; assumption|exact Eq3].
  - exact Hs.
  - intros Hpos. apply Ha0. destruct val_size; [discriminate|].
    simpl in Hpos. lia.
  - exists a1, g1. split; [exact Hres|].
    intros Hv. apply Hb1. destruct val_size as [v|]; [|congruence].
    destruct Hva as [Hv0 Hwv].
    unfold whole_at_every_level in Hwv. rewrite Forall_forall in Hwv.
    pose proof (Hwv _ Hin) as Hd2. cbn [snd] in Hd2.
    apply leaf_count_pos; assumption.
Qed.

(** A valid request with a validation size is served: [data] returns its
    dictionary. *)
Lemma data_total m train_size val_size test_size g :
  valid_request m train_size val_size test_size ->
  val_size <> None ->
  exists b g', data rng shuffle [m] train_size val_size test_size g = Ok (b, g').
Proof.
  intros Hvalid Hsome.
  destruct (partition_total m train_size val_size test_size g Hvalid)
    as (a & g' & Hp & Hb).
  destruct (Hb Hsome) as (xv & sv & tv & Hx & Hsv & Htv).
  destruct Hvalid as (_ & _ & _ & Hva & _).
  destruct val_size as [v|]; [|congruence]. destruct Hva as [Hv _].
  unfold data. unfold bind. rewrite Hp. unfold lift, make_dict.
  assert (Et : truthy (Some v) = true).
  { simpl. apply negb_true_iff, Z.eqb_neq. lia. }
  rewrite Et, Hx, Htv. cbn [read_local]. eexists _, _. reflexivity.
Qed.

(** Without a validation size the splits are computed, and building
    [data_dict] then reads the unbound [stim_type_vec_val]. *)
Lemma data_val_unset_unbound m train_size test_size g :
  valid_request m train_size None test_size ->
  data rng shuffle [m] train_size None test_size g = Raise UnboundLocalError.
Proof.
  intros Hvalid.
  destruct (partition_total m train_size None test_size g Hvalid)
    as (a & g' & Hp & _).
  pose proof (partition_drawn _ _ _ _ _ _ _ Hp) as Hd.
  apply (drawn_init_unbound _ None) in Hd; [|reflexivity].
  unfold data, bind. rewrite Hp. unfold lift, make_dict.
  cbn [truthy]. rewrite Hd. reflexivity.
Qed.

Lemma data_val_unset_not_Ok found train_size val_size test_size g :
  truthy val_size = false ->
  exists e, data rng shuffle found train_size val_size test_size g = Raise e.
Proof.
  intros Hv.
  destruct (data rng shuffle found train_size val_size test_size g) as [[b g']|e] eqn:E.
  - apply data_Ok in E as (m & draws & _ & Ht & _). congruence.
  - exists e. reflexivity.
Qed.

End PartitionerFacts.

(** ** Sequences of draws *)

Lemma inc_set_size_train_length lds :
  length (inc_set_size_train lds) = length (inc_x_train lds).
Proof.
  induction lds as [|ld lds IH]; simpl; [reflexivity|].
  rewrite !length_app, repeat_length, IH. reflexivity.
Qed.

Lemma inc_set_size_val_length lds :
  length (inc_set_size_val lds) = length (inc_x_val lds).
Proof.
  induction lds as [|ld lds IH]; simpl; [reflexivity|].
  rewrite !length_app, repeat_length, IH. reflexivity.
Qed.

Lemma inc_set_size_test_length lds :
  length (inc_set_size_test lds) = length (inc_x_test lds).
Proof.
  induction lds as [|ld lds IH]; simpl; [reflexivity|].
  rewrite !length_app, repeat_length, IH. reflexivity.
Qed.

Lemma inc_stim_type_val_length lds :
  length (inc_stim_type_val lds) = length (inc_x_val lds).
Proof.
  induction lds as [|ld lds IH]; simpl; [reflexivity|].
  rewrite !length_app, repeat_length, IH. reflexivity.
Qed.

Lemma inc_stim_type_train_length lds :
  length (inc_stim_type_train lds)
  = (length (inc_x_train lds) + length (inc_x_test lds))%nat.
Proof.
  induction lds as [|ld lds IH]; simpl; [reflexivity|].
  rewrite !length_app, !repeat_length, IH. lia.
Qed.

Lemma inc_combine_train lfs draws :
  Forall2 draw_ok lfs draws ->
  inc_x_train (combine lfs draws) = concat (map d_train draws).
Proof.
  induction 1 as [|lf d lfs draws _ _ IH]; simpl; [reflexivity|].
  unfold inc_x_train in *. simpl. rewrite IH. reflexivity.
Qed.

Lemma inc_combine_val lfs draws :
  Forall2 draw_ok lfs draws ->
  inc_x_val (combine lfs draws) = concat (map d_val draws).
Proof.
  induction 1 as [|lf d lfs draws _ _ IH]; simpl; [reflexivity|].
  unfold inc_x_val in *. simpl. rewrite IH. reflexivity.
Qed.

Lemma inc_combine_test lfs draws :
  Forall2 draw_ok lfs draws ->
  inc_x_test (combine lfs draws) = concat (map d_test draws).
Proof.
  induction 1 as [|lf d lfs draws _ _ IH]; simpl; [reflexivity|].
  unfold inc_x_test in *. simpl. rewrite IH. reflexivity.
Qed.

Lemma zsum_app l1 l2 : zsum (l1 ++ l2) = zsum l1 + zsum l2.
Proof.
  unfold zsum. induction l1 as [|x l1 IH]; simpl; [reflexivity|]. rewrite IH. lia.
Qed.

Lemma draws_train_length lfs draws :
  Forall2 draw_ok lfs draws ->
  Forall (fun lf => 0 <= lf_train lf) lfs ->
  Z.of_nat (length (concat (map d_train draws))) = zsum (map lf_train lfs).
Proof.
  induction 1 as [|lf d lfs draws Hd _ IH]; intros Hpos; simpl; [reflexivity|].
  inversion Hpos as [|? ? Hlf Hrest]; subst.
  rewrite length_app, Nat2Z.inj_add, (IH Hrest).
  destruct Hd as (Hl & _). rewrite Hl. unfold zsum. simpl. lia.
Qed.

Lemma draws_val_length lfs draws :
  Forall2 draw_ok lfs draws ->
  Forall (fun lf => 0 <= lf_val lf) lfs ->
  Z.of_nat (length (concat (map d_val draws))) = zsum (map lf_val lfs).
Proof.
  induction 1 as [|lf d lfs draws Hd _ IH]; intros Hpos; simpl; [reflexivity|].
  inversion Hpos as [|? ? Hlf Hrest]; subst.
  rewrite length_app, Nat2Z.inj_add, (IH Hrest).
  destruct Hd as (_ & Hl & _). rewrite Hl. unfold zsum. simpl. lia.
Qed.

Lemma draws_test_length lfs draws :
  Forall2 draw_ok lfs draws ->
  Forall (fun lf => 0 < lf_test lf) lfs ->
  Z.of_nat (length (concat (map d_test draws))) = zsum (map lf_test lfs).
Proof.
  induction 1 as [|lf d lfs draws Hd _ IH]; intros Hpos; simpl; [reflexivity|].
  inversion Hpos as [|? ? Hlf Hrest]; subst.
  rewrite length_app, Nat2Z.inj_add, (IH Hrest).
  destruct Hd as (_ & _ & Hl & _). rewrite Hl. unfold test_count.
  destruct (Z.ltb_spec 0 (lf_test lf)); [|lia]. unfold zsum. simpl. lia.
Qed.

(** *** No file name is drawn twice *)

Lemma perm_interleave {A} (a b c d : list A) :
  Permutation ((a ++ b) ++ (c ++ d)) ((a ++ c) ++ (b ++ d)).
Proof.
  rewrite <- !app_assoc. apply Permutation_app_head.
  rewrite !app_assoc. apply Permutation_app_tail. apply Permutation_app_comm.
Qed.

Lemma draws_permutation lfs draws :
  Forall2 draw_ok lfs draws ->
  exists rest,
    Permutation
      (concat (map d_train draws) ++ concat (map d_val draws)
         ++ concat (map d_test draws) ++ rest)
      (flat_map lf_pool lfs).
Proof.
  induction 1 as [|lf d lfs draws Hd _ IH].
  - exists []. reflexivity.
  - destruct IH as (rest & IH). destruct Hd as (_ & _ & _ & rest0 & Hp).
    exists (rest0 ++ rest). cbn [map concat flat_map].
    rewrite <- Hp, <- IH.
    set (TR := concat (map d_train draws)). set (VA := concat (map d_val draws)).
    set (TE := concat (map d_test draws)).
    etransitivity; [|apply perm_interleave].
    apply Permutation_app_head.
    etransitivity; [|apply perm_interleave].
    apply Permutation_app_head. apply perm_interleave.
Qed.

Lemma flat_map_flat_map {A B C} (f : B -> list C) (g : A -> list B) (l : list A) :
  flat_map f (flat_map g l) = flat_map (fun x => flat_map f (g x)) l.
Proof.
  induction l as [|x l IH]; simpl; [reflexivity|].
  rewrite flat_map_app, IH. reflexivity.
Qed.

Lemma flat_map_map {A B C} (f : B -> list C) (g : A -> B) (l : list A) :
  flat_map f (map g l) = flat_map (fun x => f (g x)) l.
Proof.
  induction l as [|x l IH]; simpl; [reflexivity|]. rewrite IH. reflexivity.
Qed.

Lemma leaves_pools m train_size val_size test_size :
  flat_map lf_pool (leaves m train_size val_size test_size) = manifest_filenames m.
Proof.
  unfold leaves, manifest_filenames. rewrite flat_map_flat_map.
  apply flat_map_ext. intros [st by_ss]. unfold leaves_of_stim_type. cbn [fst snd].
  rewrite flat_map_flat_map. apply flat_map_ext. intros [ss pa].
  unfold leaves_of_set_size. cbn [fst snd]. rewrite flat_map_map. reflexivity.
Qed.

Lemma NoDup_app_disjoint {A} (l1 l2 : list A) :
  NoDup (l1 ++ l2) -> forall x, In x l1 -> ~ In x l2.
Proof.
  induction l1 as [|y l1 IH]; intros Hnd x Hin; [contradiction|].
  simpl in Hnd. inversion Hnd as [|? ? Hy Hrest]; subst.
  destruct Hin as [<-|Hin].
  - intros H2. apply Hy. apply in_or_app. right. exact H2.
  - apply IH; assumption.
Qed.

(** *** The per-leaf counts add up to the request *)

Lemma zsum_const {A} (h : A -> Z) (c : Z) (l : list A) :
  (forall x, In x l -> h x = c) -> zsum (map h l) = Z.of_nat (length l) * c.
Proof.
  induction l as [|x l IH]; intros H; [reflexivity|].
  cbn [map length]. unfold zsum in *. cbn [fold_right].
  rewrite IH by (intros; apply H; right; assumption).
  rewrite (H x) by (left; reflexivity). lia.
Qed.

Lemma zsum_flat_map {A} (h : leaf -> Z) (f : A -> list leaf) (l : list A) :
  zsum (map h (flat_map f l)) = zsum (map (fun x => zsum (map h (f x))) l).
Proof.
  induction l as [|x l IH]; [reflexivity|].
  cbn [flat_map map]. rewrite map_app, zsum_app, IH. reflexivity.
Qed.

Lemma leaves_of_stim_type_fields tr va te item lf :
  In lf (leaves_of_stim_type tr va te item) ->
  lf_train lf = tr /\ lf_val lf = va /\ lf_test lf = te /\
  lf_stim_type lf = fst item.
Proof.
  unfold leaves_of_stim_type, leaves_of_set_size. intros H.
  apply in_flat_map in H as (ss_item & _ & H).
  apply in_map_iff in H as (kv & <- & _). repeat split.
Qed.

Lemma leaves_of_stim_type_length tr va te (item : string * stim_info_by_set_size) :
  Forall (fun ss_item : Z * present_absent_dict => length (snd ss_item) = 2%nat)
    (snd item) ->
  length (leaves_of_stim_type tr va te item) = (2 * length (snd item))%nat.
Proof.
  unfold leaves_of_stim_type. destruct item as [st by_ss]. cbn [fst snd].
  induction 1 as [|ss_item by_ss H2 _ IH]; [reflexivity|].
  cbn [flat_map length]. rewrite length_app, IH.
  unfold leaves_of_set_size. rewrite length_map, H2. lia.
Qed.

Lemma whole_types_sum (size : Z) (T k : nat) :
  T <> 0%nat ->
  (Z.of_nat T * (Z.of_nat k * 2) | size) ->
  Z.of_nat T * (size / Z.of_nat T) = size.
Proof.
  intros HT [q Hq].
  replace size with (q * (Z.of_nat k * 2) * Z.of_nat T) by (rewrite Hq; ring).
  rewrite Z.div_mul by lia. ring.
Qed.

Lemma whole_set_sizes_sum (size : Z) (T k : nat) :
  T <> 0%nat -> k <> 0%nat ->
  (Z.of_nat T * (Z.of_nat k * 2) | size) ->
  Z.of_nat (2 * k) * leaf_count size T k = size / Z.of_nat T.
Proof.
  intros HT Hk [q Hq]. unfold leaf_count.
  replace size with (q * 2 * Z.of_nat k * Z.of_nat T) by (rewrite Hq; ring).
  rewrite !Z.div_mul by lia. lia.
Qed.

Lemma leaves_sum (sel : leaf -> Z) (size : Z) m train_size val_size test_size :
  well_formed m ->
  whole_at_every_level m size ->
  (forall item lf,
      In item m ->
      In lf (leaves_of_stim_type
               (train_per_leaf train_size (length m) (length (snd item)))
               (val_per_leaf val_size (length m) (length (snd item)))
               (test_per_leaf test_size (length m) (length (snd item))) item) ->
      sel lf = leaf_count size (length m) (length (snd item))) ->
  zsum (map sel (leaves m train_size val_size test_size)) = size.
Proof.
  intros [Hne Hwf] Hw Hsel. unfold leaves. rewrite zsum_flat_map.
  assert (HT : length m <> 0%nat) by (destruct m; [congruence|discriminate]).
  rewrite (zsum_const _ (size / Z.of_nat (length m))).
  - destruct m as [|item0 m']; [congruence|].
    unfold whole_at_every_level in Hw. apply Forall_inv in Hw.
    eapply whole_types_sum; [exact HT|exact Hw].
  - intros item Hin.
    rewrite Forall_forall in Hwf. destruct (Hwf _ Hin) as [Hne' H2].
    unfold whole_at_every_level in Hw. rewrite Forall_forall in Hw.
    pose proof (Hw _ Hin) as Hd.
    assert (Hk : length (snd item) <> 0%nat).
    { intros E. apply length_zero_iff_nil in E. exact (Hne' E). }
    rewrite (zsum_const _ (leaf_count size (length m) (length (snd item)))).
    + rewrite leaves_of_stim_type_length by exact H2.
      apply whole_set_sizes_sum; assumption.
    + intros lf Hlf. apply Hsel with (item := item); assumption.
Qed.

(** ** The generator of the examples *)

Lemma counter_shuffle_perm (l : list nat) (g : nat) :
  Permutation l (fst (counter_shuffle l g)).
Proof.
  unfold counter_shuffle. cbn [fst].
  rewrite <- (firstn_skipn (Nat.modulo g (length l)) l) at 1.
  apply Permutation_app_comm.
Qed.

Lemma example_run :
  data nat counter_shuffle [example_manifest] 2 (Some 2) None 0%nat
  = Ok (example_bundle, 2%nat).
Proof. reflexivity. Qed.

Lemma example_valid (val_size : option Z) :
  val_size = None \/ val_size = Some 2 ->
  valid_request example_manifest 2 val_size None.
Proof.
  intros Hv. unfold valid_request, well_formed, whole_at_every_level.
  split.
  { split; [discriminate|].
    repeat first [apply conj | apply Forall_cons | apply Forall_nil
                 | discriminate | reflexivity]. }
  split; [lia|].
  split; [repeat constructor; exists 1; reflexivity|].
  split.
  { destruct Hv as [->| ->]; [exact I|].
    split; [lia|repeat constructor; exists 1; reflexivity]. }
  split; [exact I|].
  destruct Hv as [->| ->]; repeat constructor; vm_compute; split; congruence.
Qed.

Section PartitionerProperties.

Variable rng : Type.
Variable shuffle : list nat -> rng -> list nat * rng.
Hypothesis shuffle_perm : forall l g, Permutation l (fst (shuffle l g)).

Lemma leaves_counts m train_size val_size test_size lf :
  In lf (leaves m train_size val_size test_size) ->
  exists item,
    In item m /\
    lf_train lf = train_per_leaf train_size (length m) (length (snd item)) /\
    lf_val lf = val_per_leaf val_size (length m) (length (snd item)) /\
    lf_test lf = test_per_leaf test_size (length m) (length (snd item)).
Proof.
  unfold leaves. intros H. apply in_flat_map in H as (item & Hin & H).
  apply leaves_of_stim_type_fields in H as (H1 & H2 & H3 & _).
  exists item. auto.
Qed.

Lemma valid_request_counts m train_size val_size test_size :
  valid_request m train_size val_size test_size ->
  Forall (fun lf => 0 < lf_train lf /\ 0 <= lf_val lf /\
                    (test_size <> None -> 0 < lf_test lf))
    (leaves m train_size val_size test_size).
Proof.
  intros ((Hne & Hwf) & Htr & Hwtr & Hva & Hte & _).
  assert (HT : length m <> 0%nat) by (destruct m; [congruence|discriminate]).
  apply Forall_forall. intros lf Hlf.
  apply leaves_counts in Hlf as (item & Hin & -> & -> & ->).
  rewrite Forall_forall in Hwf. destruct (Hwf _ Hin) as [Hne' _].
  assert (Hk : length (snd item) <> 0%nat).
  { intros E. apply length_zero_iff_nil in E. exact (Hne' E). }
  unfold whole_at_every_level in *. rewrite Forall_forall in Hwtr.
  split; [apply leaf_count_pos; auto|]. split.
  - destruct val_size as [v|]; [|simpl; lia]. destruct Hva as [Hv Hwv].
    rewrite Forall_forall in Hwv. apply Z.lt_le_incl.
    apply leaf_count_pos; auto.
  - intros Hsome. destruct test_size as [t|]; [|congruence]. destruct Hte as [Ht Hwt].
    rewrite Forall_forall in Hwt. unfold test_per_leaf.
    destruct (Z.eqb_spec t (-1)); [lia|]. apply leaf_count_pos; auto.
Qed.

(** Exact counts: a valid request with a validation size is served, the
    train, validation and (fixed-size) test splits have exactly the
    requested sizes, and each split is the concatenation, leaf pool by leaf
    pool, of a draw of exactly the computed per-leaf count from that pool. *)
Theorem data_exact_count m train_size v test_size g :
  valid_request m train_size (Some v) test_size ->
  exists b g' draws xv,
    data rng shuffle [m] train_size (Some v) test_size g = Ok (b, g') /\
    Z.of_nat (length (x_train b)) = train_size /\
    x_val b = Some xv /\ Z.of_nat (length xv) = v /\
    (forall t, test_size = Some t -> Z.of_nat (length (x_test b)) = t) /\
    Forall2 draw_ok (leaves m train_size (Some v) test_size) draws /\
    x_train b = concat (map d_train draws) /\
    xv = concat (map d_val draws) /\
    x_test b = concat (map d_test draws).
Proof.
  intros Hvalid.
  destruct (data_total rng shuffle shuffle_perm m train_size (Some v) test_size g Hvalid)
    as (b & g' & Hrun); [discriminate|].
  pose proof (data_Ok rng shuffle shuffle_perm _ _ _ _ _ _ _ Hrun)
    as (m' & draws & [= <-] & _ & HF & Hb).
  destruct Hb as (Hxt & Hxv & Hxe & _).
  rewrite (inc_combine_train _ _ HF) in Hxt.
  rewrite (inc_combine_val _ _ HF) in Hxv.
  rewrite (inc_combine_test _ _ HF) in Hxe.
  pose proof (valid_request_counts _ _ _ _ Hvalid) as Hc.
  destruct Hvalid as (Hwf & Htr & Hwtr & (Hv & Hwv) & Hte & _).
  exists b, g', draws, (concat (map d_val draws)).
  split; [exact Hrun|]. split.
  { rewrite Hxt, (draws_train_length _ _ HF).
    - apply leaves_sum; [exact Hwf|exact Hwtr|].
      intros item lf _ Hlf. apply leaves_of_stim_type_fields in Hlf. tauto.
    - eapply Forall_impl; [|exact Hc]. intros lf (H & _). lia. }
  split; [exact Hxv|]. split.
  { rewrite (draws_val_length _ _ HF).
    - apply leaves_sum; [exact Hwf|exact Hwv|].
      intros item lf _ Hlf. apply leaves_of_stim_type_fields in Hlf.
      destruct Hlf as (_ & -> & _). reflexivity.
    - eapply Forall_impl; [|exact Hc]. intros lf (_ & H & _). exact H. }
  split.
  { intros t ->. destruct Hte as [Ht Hwt].
    rewrite Hxe, (draws_test_length _ _ HF).
    - apply leaves_sum; [exact Hwf|exact Hwt|].
      intros item lf _ Hlf. apply leaves_of_stim_type_fields in Hlf.
      destruct Hlf as (_ & _ & -> & _). unfold test_per_leaf.
      destruct (Z.eqb_spec t (-1)); [lia|reflexivity].
    - eapply Forall_impl; [|exact Hc]. intros lf (_ & _ & H). apply H. discriminate. }
  repeat split; assumption.
Qed.

End PartitionerProperties.

(** ** Labels *)

Lemma prefix_spec (s t : string) :
  String.prefix s t = true <-> exists post, t = (s ++ post)%string.
Proof.
  revert t. induction s as [|c s IH]; intros [|c' t]; simpl.
  - split; [intros _; exists ""%string; reflexivity|reflexivity].
  - split; [intros _; exists (String c' t); reflexivity|reflexivity].
  - split; [discriminate|intros [post H]; discriminate].
  - destruct (Ascii.ascii_dec c c') as [<-|Hne].
    + rewrite IH. split; intros [post H]; exists post; congruence.
    + split; [discriminate|]. intros [post H]. congruence.
Qed.

Lemma str_in_spec (s t : string) : str_in s t = true <-> occurs_in s t.
Proof.
  unfold occurs_in. induction t as [|c t IH]; cbn [str_in].
  - destruct (String.prefix s "") eqn:E.
    + split; [|reflexivity]. intros _. apply prefix_spec in E as [post E].
      exists ""%string, post. exact E.
    + split; [discriminate|]. intros (pre & post & H).
      destruct pre; [|discriminate]. simpl in H.
      assert (String.prefix s "" = true) by (apply prefix_spec; eauto). congruence.
  - destruct (String.prefix s (String c t)) eqn:E.
    + split; [|reflexivity]. intros _. apply prefix_spec in E as [post E].
      exists ""%string, post. exact E.
    + rewrite IH. split.
      * intros (pre & post & ->). exists (String c pre), post. reflexivity.
      * intros (pre & post & H). destruct pre as [|c' pre].
        -- simpl in H.
           assert (String.prefix s (String c t) = true) by (apply prefix_spec; eauto).
           congruence.
        -- simpl in H. injection H as _ ->. eauto.
Qed.

Lemma label_labelled (f : string) : labelled f (label f).
Proof.
  unfold labelled, label. destruct (str_in "present" f) eqn:E.
  - apply str_in_spec in E. split; [tauto|contradiction].
  - split; [|reflexivity]. split; [discriminate|].
    intros H. apply str_in_spec in H. congruence.
Qed.

Lemma map_label_labelled (xs : list string) : Forall2 labelled xs (map label xs).
Proof.
  induction xs as [|f xs IH]; simpl; constructor; [apply label_labelled|exact IH].
Qed.

(** ** The claims about the dataset bundle *)

Section BundleProperties.

Variable rng : Type.
Variable shuffle : list nat -> rng -> list nat * rng.
Hypothesis shuffle_perm : forall l g, Permutation l (fst (shuffle l g)).

(** C2.  Every bundle that [data] returns has [set_size_vec_*] and
    [stim_type_vec_val] parallel to the file names, but line 231 files the
    stimulus types of the test images under [stim_type_vec_train]:
    [stim_type_vec_test] is empty whatever [x_test] holds, and
    [stim_type_vec_train] is as long as [x_train] and [x_test] together. *)
Theorem data_stim_type_vec_test_empty found train_size val_size test_size g b g' :
  data rng shuffle found train_size val_size test_size g = Ok (b, g') ->
  length (set_size_vec_train b) = length (x_train b) /\
  length (set_size_vec_test b) = length (x_test b) /\
  (exists sv, set_size_vec_val b = Some sv /\ length sv = length (val_names b)) /\
  length (stim_type_vec_val b) = length (val_names b) /\
  stim_type_vec_test b = [] /\
  length (stim_type_vec_train b) = (length (x_train b) + length (x_test b))%nat.
Proof.
  intros H. apply (data_Ok rng shuffle shuffle_perm) in H as (m & draws & _ & _ & _ & Hb).
  destruct Hb as (E1 & E2 & E3 & _ & _ & _ & E7 & E8 & E9 & E10 & E11 & E12).
  unfold val_names. rewrite E1, E2, E3, E7, E8, E9, E10, E11, E12.
  split; [apply inc_set_size_train_length|].
  split; [apply inc_set_size_test_length|].
  split; [eexists; split; [reflexivity|apply inc_set_size_val_length]|].
  split; [apply inc_stim_type_val_length|].
  split; [reflexivity|apply inc_stim_type_train_length].
Qed.

(** C3.  On a request that is valid but for the missing validation size,
    [data] computes the three splits and then raises [UnboundLocalError]
    when it builds [data_dict]: [stim_type_vec_val] is assigned on the
    [if val_size:] path only.  No dictionary is written. *)
Theorem data_without_val_size_raises m train_size test_size g :
  valid_request m train_size None test_size ->
  data rng shuffle [m] train_size None test_size g = Raise UnboundLocalError.
Proof.
  apply data_val_unset_unbound. exact shuffle_perm.
Qed.

(** C7.  In every split of every bundle that [data] returns, the label of
    a sample is 1 exactly when "present" occurs in its file path, and 0
    otherwise. *)
Theorem data_labels found train_size val_size test_size g b g' :
  data rng shuffle found train_size val_size test_size g = Ok (b, g') ->
  Forall2 labelled (x_train b) (y_train b) /\
  (exists xv yv, x_val b = Some xv /\ y_val b = Some yv /\ Forall2 labelled xv yv) /\
  Forall2 labelled (x_test b) (y_test b).
Proof.
  intros H. apply (data_Ok rng shuffle shuffle_perm) in H as (m & draws & _ & _ & _ & Hb).
  destruct Hb as (E1 & E2 & E3 & E4 & E5 & E6 & _).
  rewrite E1, E2, E3, E4, E5, E6.
  split; [apply map_label_labelled|].
  split; [|apply map_label_labelled].
  do 2 eexists. split; [reflexivity|]. split; [reflexivity|].
  apply map_label_labelled.
Qed.

(** C8.  When the file names of the manifest are pairwise distinct, no
    file name of a bundle that [data] returns is in two splits (nor twice
    in one). *)
Theorem data_splits_disjoint m train_size val_size test_size g b g' :
  data rng shuffle [m] train_size val_size test_size g = Ok (b, g') ->
  NoDup (manifest_filenames m) ->
  NoDup (x_train b ++ val_names b ++ x_test b) /\
  (forall f, In f (x_train b) -> ~ In f (val_names b)) /\
  (forall f, In f (x_train b) -> ~ In f (x_test b)) /\
  (forall f, In f (val_names b) -> ~ In f (x_test b)).
Proof.
  intros H Hnd.
  apply (data_Ok rng shuffle shuffle_perm) in H as (m' & draws & [= <-] & _ & HF & Hb).
  destruct Hb as (E1 & E2 & E3 & _).
  unfold val_names. rewrite E1, E2, E3.
  rewrite (inc_combine_train _ _ HF), (inc_combine_val _ _ HF), (inc_combine_test _ _ HF).
  destruct (draws_permutation _ _ HF) as (rest & Hp).
  rewrite leaves_pools in Hp.
  assert (Hall : NoDup (concat (map d_train draws) ++ concat (map d_val draws)
                          ++ concat (map d_test draws))).
  { apply (Permutation_NoDup (Permutation_sym Hp)) in Hnd.
    rewrite !app_assoc in Hnd. apply NoDup_app_remove_r in Hnd.
    rewrite <- !app_assoc in Hnd. exact Hnd. }
  split; [exact Hall|].
  split; [|split].
  - intros f H1 H2. apply (NoDup_app_disjoint _ _ Hall f H1).
    apply in_or_app. left. exact H2.
  - intros f H1 H2. apply (NoDup_app_disjoint _ _ Hall f H1).
    apply in_or_app. right. exact H2.
  - apply NoDup_app_remove_l in Hall. apply NoDup_app_disjoint. exact Hall.
Qed.

End BundleProperties.

(** ** The claims on the example *)

Lemma example_filenames_distinct : NoDup (manifest_filenames example_manifest).
Proof.
  vm_compute.
  repeat (constructor; [simpl; intuition discriminate|]). constructor.
Qed.

Lemma data_exact_count_witness :
  (forall l g, Permutation l (fst (counter_shuffle l g))) /\
  valid_request example_manifest 2 (Some 2) None /\
  exists b g' draws xv,
    data nat counter_shuffle [example_manifest] 2 (Some 2) None 0%nat = Ok (b, g') /\
    Z.of_nat (length (x_train b)) = 2 /\
    x_val b = Some xv /\ Z.of_nat (length xv) = 2 /\
    (forall t, None = Some t -> Z.of_nat (length (x_test b)) = t) /\
    Forall2 draw_ok (leaves example_manifest 2 (Some 2) None) draws /\
    x_train b = concat (map d_train draws) /\
    xv = concat (map d_val draws) /\
    x_test b = concat (map d_test draws).
Proof.
  split; [exact counter_shuffle_perm|].
  split; [apply example_valid; right; reflexivity|].
  apply (data_exact_count nat counter_shuffle counter_shuffle_perm).
  apply example_valid. right. reflexivity.
Defined.

Lemma data_stim_type_vec_test_empty_witness :
  (forall l g, Permutation l (fst (counter_shuffle l g))) /\
  data nat counter_shuffle [example_manifest] 2 (Some 2) None 0%nat
  = Ok (example_bundle, 2%nat) /\
  (length (set_size_vec_train example_bundle) = length (x_train example_bundle) /\
   length (set_size_vec_test example_bundle) = length (x_test example_bundle) /\
   (exists sv, set_size_vec_val example_bundle = Some sv /\
               length sv = length (val_names example_bundle)) /\
   length (stim_type_vec_val example_bundle) = length (val_names example_bundle) /\
   stim_type_vec_test example_bundle = [] /\
   length (stim_type_vec_train example_bundle)
   = (length (x_train example_bundle) + length (x_test example_bundle))%nat).
Proof.
  split; [exact counter_shuffle_perm|]. split; [reflexivity|].
  apply (data_stim_type_vec_test_empty nat counter_shuffle counter_shuffle_perm
           [example_manifest] 2 (Some 2) None 0%nat example_bundle 2%nat).
  reflexivity.
Defined.

Lemma data_without_val_size_raises_witness :
  (forall l g, Permutation l (fst (counter_shuffle l g))) /\
  valid_request example_manifest 2 None None /\
  data nat counter_shuffle [example_manifest] 2 None None 0%nat
  = Raise UnboundLocalError.
Proof.
  split; [exact counter_shuffle_perm|].
  split; [apply example_valid; left; reflexivity|].
  apply (data_without_val_size_raises nat counter_shuffle counter_shuffle_perm).
  apply example_valid. left. reflexivity.
Defined.

Lemma data_labels_witness :
  (forall l g, Permutation l (fst (counter_shuffle l g))) /\
  data nat counter_shuffle [example_manifest] 2 (Some 2) None 0%nat
  = Ok (example_bundle, 2%nat) /\
  (Forall2 labelled (x_train example_bundle) (y_train example_bundle) /\
   (exists xv yv, x_val example_bundle = Some xv /\ y_val example_bundle = Some yv /\
                  Forall2 labelled xv yv) /\
   Forall2 labelled (x_test example_bundle) (y_test example_bundle)).
Proof.
  split; [exact counter_shuffle_perm|]. split; [reflexivity|].
  apply (data_labels nat counter_shuffle counter_shuffle_perm
           [example_manifest] 2 (Some 2) None 0%nat example_bundle 2%nat).
  reflexivity.
Defined.

Lemma data_splits_disjoint_witness :
  (forall l g, Permutation l (fst (counter_shuffle l g))) /\
  data nat counter_shuffle [example_manifest] 2 (Some 2) None 0%nat
  = Ok (example_bundle, 2%nat) /\
  NoDup (manifest_filenames example_manifest) /\
  (NoDup (x_train example_bundle ++ val_names example_bundle ++ x_test example_bundle) /\
   (forall f, In f (x_train example_bundle) -> ~ In f (val_names example_bundle)) /\
   (forall f, In f (x_train example_bundle) -> ~ In f (x_test example_bundle)) /\
   (forall f, In f (val_names example_bundle) -> ~ In f (x_test example_bundle))).
Proof.
  split; [exact counter_shuffle_perm|]. split; [reflexivity|].
  split; [exact example_filenames_distinct|].
  apply (data_splits_disjoint nat counter_shuffle counter_shuffle_perm
           example_manifest 2 (Some 2) None 0%nat example_bundle 2%nat).
  - reflexivity.
  - exact example_filenames_distinct.
Defined.

(** C1, where the code misses it.  With [train_size=4] and no validation
    size the splits are computed with exact counts (four training files, two
    from each pool, [x_val] left [None]), but no bundle is returned: building
    [data_dict] raises [UnboundLocalError]. *)
Theorem data_exact_count_lost_without_val_size :
  (exists a g',
      partition nat counter_shuffle example_manifest 4 None None 0%nat = Ok (a, g') /\
      length (l_x_train a) = 4%nat /\ l_x_val a = None /\
      length (l_x_test a) = 2%nat) /\
  data nat counter_shuffle [example_manifest] 4 None None 0%nat
  = Raise UnboundLocalError.
Proof.
  split; [|vm_compute; reflexivity].
  eexists _, _. split; [vm_compute; reflexivity|].
  cbn [l_x_train l_x_val l_x_test length]. repeat split.
Qed.

(** ** The random stream *)

Section TwoGenerators.

Variables rng1 rng2 : Type.
Variable shuffle1 : list nat -> rng1 -> list nat * rng1.
Variable shuffle2 : list nat -> rng2 -> list nat * rng2.
Variable R : rng1 -> rng2 -> Prop.
Hypothesis streams : same_stream shuffle1 shuffle2 R.

Lemma agree_bind {A B} (m1 : M rng1 A) (m2 : M rng2 A)
    (k1 : A -> M rng1 B) (k2 : A -> M rng2 B) g1 g2 :
  agree R (m1 g1) (m2 g2) ->
  (forall a h1 h2, R h1 h2 -> agree R (k1 a h1) (k2 a h2)) ->
  agree R (bind rng1 m1 k1 g1) (bind rng2 m2 k2 g2).
Proof.
  unfold bind, agree at 1. intros Hm Hk.
  destruct (m1 g1) as [[a1 h1]|e1], (m2 g2) as [[a2 h2]|e2]; try contradiction.
  - destruct Hm as [<- HR]. apply Hk. exact HR.
  - exact Hm.
Qed.

Lemma agree_lift {A} (r : result A) g1 g2 :
  R g1 g2 -> agree R (lift rng1 r g1) (lift rng2 r g2).
Proof. intros HR. destruct r; simpl; auto. Qed.

Lemma agree_ret {A} (a : A) g1 g2 :
  R g1 g2 -> agree R (ret rng1 a g1) (ret rng2 a g2).
Proof. intros HR. simpl. auto. Qed.

Lemma agree_raise {A} (e : exn) g1 g2 :
  agree (A := A) R (raise rng1 e g1) (raise rng2 e g2).
Proof. reflexivity. Qed.

Lemma agree_shuffle l g1 g2 :
  R g1 g2 ->
  agree R (random_shuffle rng1 shuffle1 l g1) (random_shuffle rng2 shuffle2 l g2).
Proof.
  intros HR. unfold random_shuffle, agree.
  destruct (streams l g1 g2 HR) as [E HR'].
  destruct (shuffle1 l g1), (shuffle2 l g2). simpl in *. auto.
Qed.

Lemma agree_for_each {A S} (l : list A)
    (body1 : A -> S -> M rng1 S) (body2 : A -> S -> M rng2 S) :
  (forall x s h1 h2, R h1 h2 -> agree R (body1 x s h1) (body2 x s h2)) ->
  forall s g1 g2,
    R g1 g2 -> agree R (for_each rng1 l body1 s g1) (for_each rng2 l body2 s g2).
Proof.
  intros Hbody. induction l as [|x l IH]; intros s g1 g2 HR; cbn [for_each].
  - apply agree_ret. exact HR.
  - apply agree_bind; [apply Hbody; exact HR|].
    intros s' h1 h2 HR'. apply IH. exact HR'.
Qed.

Ltac agree_step :=
  match goal with
  | |- agree _ (bind _ _ _ _) (bind _ _ _ _) => apply agree_bind
  | |- agree _ (lift _ _ _) (lift _ _ _) => apply agree_lift
  | |- agree _ (ret _ _ _) (ret _ _ _) => apply agree_ret
  | |- agree _ (raise _ _ _) (raise _ _ _) => apply agree_raise
  | |- agree _ (random_shuffle _ _ _ _) (random_shuffle _ _ _ _) => apply agree_shuffle
  | |- agree _ (for_each _ _ _ _ _) (for_each _ _ _ _ _) => apply agree_for_each
  | |- agree _ ((if ?b then _ else _) _) ((if ?b then _ else _) _) => destruct b
  | |- agree _ ((let '(_, _) := ?p in _) _) _ => destruct p
  | |- agree _ ((match ?o with Some _ => _ | None => _ end) _) _ => destruct o
  | |- forall _, _ => intro
  | |- R _ _ => assumption
  end.

Lemma leaf_body_agree st ss tr va te pool a g1 g2 :
  R g1 g2 ->
  agree R (leaf_body rng1 shuffle1 st ss tr va te pool a g1)
          (leaf_body rng2 shuffle2 st ss tr va te pool a g2).
Proof.
  intros HR. unfold leaf_body. repeat agree_step.
Qed.

Lemma stim_type_body_agree val_size test_size trT vaT teT item a g1 g2 :
  R g1 g2 ->
  agree R (stim_type_body rng1 shuffle1 val_size test_size trT vaT teT item a g1)
          (stim_type_body rng2 shuffle2 val_size test_size trT vaT teT item a g2).
Proof.
  intros HR. unfold stim_type_body. destruct item as [st by_ss].
  repeat agree_step.
  match goal with x : (Z * present_absent_dict)%type |- _ => destruct x as [ss pa] end.
  repeat agree_step.
  match goal with x : (string * list string)%type |- _ => destruct x as [k fnames] end.
  apply leaf_body_agree. assumption.
Qed.

Lemma partition_agree m train_size val_size test_size g1 g2 :
  R g1 g2 ->
  agree R (partition rng1 shuffle1 m train_size val_size test_size g1)
          (partition rng2 shuffle2 m train_size val_size test_size g2).
Proof.
  intros HR. unfold partition. repeat agree_step.
  all: try (apply stim_type_body_agree; assumption).
Qed.

(** Two runs of [data] on the same arguments whose generators deal the same
    permutations return the same bundle, or raise the same exception. *)
Lemma data_agree found train_size val_size test_size g1 g2 :
  R g1 g2 ->
  agree R (data rng1 shuffle1 found train_size val_size test_size g1)
          (data rng2 shuffle2 found train_size val_size test_size g2).
Proof.
  intros HR. unfold data. destruct found as [|m [|m' found]].
  - apply agree_raise.
  - apply agree_bind; [apply partition_agree; exact HR|].
    intros a h1 h2 HR'. apply agree_lift. exact HR'.
  - apply agree_raise.
Qed.

Lemma bind_keywords_Ok kwargs : forall s s',
  bind_keywords kwargs s = Ok s' ->
  Forall (fun name => name = "val_size"%string \/ name = "test_size"%string)
    (map fst kwargs).
Proof.
  induction kwargs as [|[name v] kwargs IH]; intros s s' H; cbn [map fst];
    [constructor|].
  cbn [bind_keywords] in H.
  destruct (String.eqb_spec name "val_size") as [->|_].
  - destruct (fst s); [discriminate|].
    constructor; [left; reflexivity|apply (IH _ _ H)].
  - destruct (String.eqb_spec name "test_size") as [->|_]; [|discriminate].
    destruct (snd s); [discriminate|].
    constructor; [right; reflexivity|apply (IH _ _ H)].
Qed.

Lemma bind_keywords_Raise kwargs : forall s e,
  bind_keywords kwargs s = Raise e -> e = TypeError.
Proof.
  induction kwargs as [|[name v] kwargs IH]; intros s e H; cbn [bind_keywords] in H;
    [discriminate|].
  destruct (String.eqb name "val_size").
  - destruct (fst s); [congruence|apply (IH _ _ H)].
  - destruct (String.eqb name "test_size"); [|congruence].
    destruct (snd s); [congruence|apply (IH _ _ H)].
Qed.

Lemma bind_optional_Raise extra kwargs e :
  bind_optional extra kwargs = Raise e -> e = TypeError.
Proof.
  unfold bind_optional.
  destruct (bind_positional extra) as [s|e0] eqn:Ep.
  - destruct (bind_keywords kwargs s) as [[v t]|e1] eqn:Ek; [discriminate|].
    intros [= <-]. apply (bind_keywords_Raise _ _ _ Ek).
  - intros [= <-]. unfold bind_positional in Ep.
    destruct extra as [|v [|t [|x extra]]]; congruence.
Qed.

Lemma bind_optional_refuses extra kwargs :
  (exists name, In name (map fst kwargs) /\ ~ In name data_parameters)
  \/ (2 < length extra)%nat ->
  bind_optional extra kwargs = Raise TypeError.
Proof.
  intros H. destruct (bind_optional extra kwargs) as [[v t]|e] eqn:E.
  - exfalso. unfold bind_optional in E.
    destruct (bind_positional extra) as [s|] eqn:Ep; [|discriminate].
    destruct (bind_keywords kwargs s) as [[v' t']|] eqn:Ek; [|discriminate].
    destruct H as [(name & Hin & Hnot)|Hlen].
    + pose proof (bind_keywords_Ok _ _ _ Ek) as Hall. rewrite Forall_forall in Hall.
      apply Hnot. unfold data_parameters.
      destruct (Hall name Hin) as [->| ->]; simpl; auto 10.
    + unfold bind_positional in Ep.
      destruct extra as [|x [|y [|z extra]]]; try discriminate; simpl in Hlen; lia.
  - f_equal. apply (bind_optional_Raise _ _ _ E).
Qed.

(** C9 (as the code has it).  [data] has no seed among its parameters: a
    call that passes an argument that is no parameter, [seed] among them, as
    a keyword or as a sixth positional argument, raises [TypeError] before
    the body runs.  The shuffles consume the generator of module [random],
    which [data] never seeds: two calls with the same arguments whose
    generators deal the same permutations (as two calls made from one
    generator state do) return the same bundle, or raise the same
    exception. *)
Theorem data_call_no_seed :
  ~ In "seed"%string data_parameters /\
  (forall found train_size extra kwargs g,
      (exists name, In name (map fst kwargs) /\ ~ In name data_parameters)
      \/ (2 < length extra)%nat ->
      call_data rng1 shuffle1 found train_size extra kwargs g = Raise TypeError) /\
  (forall found train_size extra kwargs g1 g2,
      R g1 g2 ->
      agree R (call_data rng1 shuffle1 found train_size extra kwargs g1)
              (call_data rng2 shuffle2 found train_size extra kwargs g2)).
Proof.
  split; [|split].
  - unfold data_parameters. simpl. intuition discriminate.
  - intros found train_size extra kwargs g H. unfold call_data.
    rewrite (bind_optional_refuses _ _ H). reflexivity.
  - intros found train_size extra kwargs g1 g2 HR. unfold call_data.
    destruct (bind_optional extra kwargs) as [[v t]|e].
    + apply data_agree. exact HR.
    + apply agree_raise.
Qed.

End TwoGenerators.

Lemma logged_same_stream :
  same_stream counter_shuffle logged_shuffle (fun g1 g2 => g1 = fst g2).
Proof.
  intros l g1 [c n] Hg. cbn [fst] in Hg. subst c.
  unfold logged_shuffle, counter_shuffle. cbn [fst snd]. split; reflexivity.
Qed.

Lemma data_call_no_seed_witness :
  same_stream counter_shuffle logged_shuffle (fun g1 g2 => g1 = fst g2) /\
  call_data nat counter_shuffle [example_manifest] 2 []
    [("val_size"%string, Some 2); ("seed"%string, Some 0)] 0%nat
  = Raise TypeError /\
  agree (fun g1 g2 => g1 = fst g2)
    (call_data nat counter_shuffle [example_manifest] 2 []
       [("val_size"%string, Some 2)] 0%nat)
    (call_data (nat * nat) logged_shuffle [example_manifest] 2 []
       [("val_size"%string, Some 2)] (0%nat, 7%nat)).
Proof.
  split; [exact logged_same_stream|].
  destruct (data_call_no_seed nat (nat * nat) counter_shuffle logged_shuffle
              (fun g1 g2 => g1 = fst g2) logged_same_stream) as (Hseed & Hrefuse & Hagree).
  split.
  - apply Hrefuse. left. exists "seed"%string. split; [|exact Hseed].
    right. left. reflexivity.
  - apply Hagree. reflexivity.
Defined.

(** C9, against the claim as it stands: no call can pass a seed.  A request
    that returns a bundle raises [TypeError] once [seed] is added to it. *)
Lemma data_seed_not_exposed :
  ~ (forall (rng : Type) (shuffle : list nat -> rng -> list nat * rng)
            (found : list manifest) (train_size : Z)
            (kwargs : list (string * option Z)) (s : Z) (g1 g2 : rng),
        (exists b g', call_data rng shuffle found train_size [] kwargs g1 = Ok (b, g')) ->
        exists b g1' g2',
          call_data rng shuffle found train_size []
            (kwargs ++ [("seed"%string, Some s)]) g1 = Ok (b, g1') /\
          call_data rng shuffle found train_size []
            (kwargs ++ [("seed"%string, Some s)]) g2 = Ok (b, g2')).
Proof.
  intros H.
  destruct (H nat counter_shuffle [example_manifest] 2
              [("val_size"%string, Some 2)] 0 0%nat 0%nat) as (b & g1' & g2' & E & _).
  - exists example_bundle, 2%nat. reflexivity.
  - discriminate E.
Qed.

(** The bundle does depend on the state of the generator: from two states
    the same request gives two different training sets. *)
Lemma data_depends_on_generator_state :
  exists b1 b2 h1 h2,
    data nat counter_shuffle [example_manifest] 2 (Some 2) None 0%nat = Ok (b1, h1) /\
    data nat counter_shuffle [example_manifest] 2 (Some 2) None 1%nat = Ok (b2, h2) /\
    x_train b1 <> x_train b2.
Proof.
  eexists _, _, _, _. split; [vm_compute; reflexivity|].
  split; [vm_compute; reflexivity|]. cbn [x_train]. discriminate.
Qed.

(** * The signal-detection engine *)

Lemma np_logical_and_same (a b : list bool) :
  length a = length b ->
  np_logical_and a b = Ok (map (fun p => fst p && snd p) (combine a b)).
Proof.
  intros H. unfold np_logical_and. rewrite H, Nat.eqb_refl. reflexivity.
Qed.

Lemma count_where_tally (y_true y_pred : list Z) (p t : Z) :
  length y_true = length y_pred ->
  count_where y_true y_pred p t = Ok (tally y_true y_pred p t).
Proof.
  intros H. unfold count_where, np_eq.
  rewrite np_logical_and_same by (rewrite !length_map; congruence).
  f_equal. unfold np_sum, tally. f_equal. clear H.
  revert y_true. induction y_pred as [|yp y_pred IH]; intros [|yt y_true];
    try reflexivity.
  cbn [map combine filter fst snd].
  destruct ((yp =? p) && (yt =? t)); cbn [length]; rewrite IH; reflexivity.
Qed.

Lemma tally_nonneg y_true y_pred p t : 0 <= tally y_true y_pred p t.
Proof. unfold tally. lia. Qed.

(** A class that is absent from [y_true] has no hits and no misses. *)
Lemma tally_absent y_true y_pred p t :
  ~ In t y_true -> tally y_true y_pred p t = 0.
Proof.
  unfold tally. revert y_true.
  induction y_pred as [|yp y_pred IH]; intros [|yt y_true] Hnot; try reflexivity.
  cbn [combine filter fst snd].
  destruct (Z.eqb_spec yt t) as [->|Hne].
  - exfalso. apply Hnot. left. reflexivity.
  - rewrite andb_false_r. apply IH. intros H. apply Hnot. right. exact H.
Qed.

(** A class that is present in [y_true] has a hit or a miss, when the
    predictions are binary. *)
Lemma tally_present y_true y_pred t :
  length y_true = length y_pred -> binary y_pred -> In t y_true ->
  1 <= tally y_true y_pred 1 t + tally y_true y_pred 0 t.
Proof.
  unfold tally. revert y_true.
  induction y_pred as [|yp y_pred IH]; intros [|yt y_true] Hlen Hb Hin;
    try discriminate; [contradiction|].
  inversion Hb as [|? ? Hyp Hb']; subst.
  cbn [combine filter fst snd].
  destruct Hin as [->|Hin].
  - rewrite Z.eqb_refl, !andb_true_r.
    destruct Hyp as [->| ->];
      change (0 =? 1) with false; change (1 =? 0) with false;
      change (0 =? 0) with true; change (1 =? 1) with true;
      cbn [andb length]; lia.
  - specialize (IH y_true (f_equal pred Hlen) Hb' Hin).
    destruct ((yp =? 1) && (yt =? t)), ((yp =? 0) && (yt =? t)); cbn [length]; lia.
Qed.

(** ** The corrected rates *)

Lemma raw_rate_pos (k : Z) (p : positive) :
  (inject_Z k / inject_Z (Z.pos p) == k # p)%Q.
Proof. unfold Qeq, Qdiv, Qmult, Qinv, inject_Z. simpl. lia. Qed.

Lemma half_sample_pos (p : positive) :
  ((1 # 2) / inject_Z (Z.pos p) == 1 # (2 * p))%Q.
Proof. unfold Qeq, Qdiv, Qmult, Qinv, inject_Z. simpl. lia. Qed.

Lemma Qeq_bool_false (x y : Q) : Qeq_bool x y = false <-> ~ (x == y)%Q.
Proof.
  split; [apply Qeq_bool_neq|].
  intros H. destruct (Qeq_bool x y) eqn:E; [|reflexivity].
  apply Qeq_bool_eq in E. contradiction.
Qed.

Lemma correct_rate_spec (k n : Z) :
  1 <= n -> 0 <= k <= n ->
  exists q,
    correct_rate (f_div (of_int k) (of_int n)) (f_div (Finite (1 # 2)) (of_int n))
    = Finite q /\
    corrected_rate k n q.
Proof.
  intros Hn Hk. destruct n as [|p|p]; try lia.
  unfold of_int, f_div.
  assert (E0 : Qeq_bool (inject_Z (Z.pos p)) 0 = false) by reflexivity.
  rewrite E0.
  pose proof (raw_rate_pos k p) as Hraw. pose proof (half_sample_pos p) as Hhalf.
  unfold corrected_rate.
  set (raw := (inject_Z k / inject_Z (Z.pos p))%Q) in *.
  set (half := ((1 # 2) / inject_Z (Z.pos p))%Q) in *.
  assert (Hh : (0 < half /\ half <= 1 # 2)%Q).
  { rewrite Hhalf. unfold Qlt, Qle. simpl. lia. }
  assert (Hr : (0 <= raw /\ raw <= 1)%Q).
  { rewrite Hraw. unfold Qlt, Qle. simpl. lia. }
  destruct Hh as [Hh1 Hh2]. destruct Hr as [Hr1 Hr2].
  unfold correct_rate. cbn [f_eqb].
  destruct (Qeq_bool raw 1) eqn:E1.
  - apply Qeq_bool_iff in E1. cbn [f_sub f_eqb].
    assert (E2 : Qeq_bool (1 - half) 0 = false) by (apply Qeq_bool_false; lra).
    rewrite E2. exists (1 - half)%Q. split; [reflexivity|].
    repeat split; try lra; intros; try lra.
  - apply Qeq_bool_false in E1. cbn [f_eqb].
    destruct (Qeq_bool raw 0) eqn:E2.
    + apply Qeq_bool_iff in E2. exists half. split; [reflexivity|].
      repeat split; try lra; intros; try lra; contradiction.
    + apply Qeq_bool_false in E2. exists raw. split; [reflexivity|].
      repeat split; try lra; intros; try lra; contradiction.
Qed.

(** A rate over an empty class is NaN, before and after the correction. *)
Lemma correct_rate_empty :
  correct_rate (f_div (of_int 0) (of_int (0 + 0))) (f_div (Finite (1 # 2)) (of_int (0 + 0)))
  = NaN.
Proof. reflexivity. Qed.

Section DPrimeProperties.

Variable z_score : float64 -> float64.

Lemma f_sub_nan_l x : f_sub NaN x = NaN.
Proof. destruct x; reflexivity. Qed.

Lemma f_sub_nan_r x : f_sub x NaN = NaN.
Proof. destruct x; reflexivity. Qed.

(** C4 (as the code has it).  With an empty target-present class or an
    empty lure class [compute_d_prime] raises nothing: the rate of the
    empty class is 0/0 = NaN (numpy warns), the boundary correction leaves
    it, and the triple is returned with that NaN and, as the quantile of
    NaN is NaN, a NaN d-prime. *)
Theorem compute_d_prime_empty_class y_true y_pred :
  length y_true = length y_pred ->
  (~ In 1 y_true ->
   exists far d, compute_d_prime z_score y_true y_pred = Ok (NaN, far, d) /\
                 (z_score NaN = NaN -> d = NaN)) /\
  (~ In 0 y_true ->
   exists hr d, compute_d_prime z_score y_true y_pred = Ok (hr, NaN, d) /\
                (z_score NaN = NaN -> d = NaN)).
Proof.
  intros Hlen. unfold compute_d_prime.
  rewrite !count_where_tally by exact Hlen. split; intros Hnot.
  - rewrite !(tally_absent _ _ _ 1 Hnot), correct_rate_empty.
    do 2 eexists. split; [reflexivity|].
    intros ->. apply f_sub_nan_l.
  - rewrite !(tally_absent _ _ _ 0 Hnot), correct_rate_empty.
    do 2 eexists. split; [reflexivity|].
    intros ->. apply f_sub_nan_r.
Qed.

(** The quantile function is finite inside the unit interval. *)
Hypothesis z_score_finite :
  forall q, (0 < q /\ q < 1)%Q -> exists z, z_score (Finite q) = Finite z.

(** C5.  With a target-present and a target-absent sample (and binary
    predictions of the same length) [compute_d_prime] returns three finite
    values; each rate is strictly between 0 and 1, and is the raw rate
    moved to [1 - 0.5/N] when that is exactly 1 and to [0.5/N] when it is
    exactly 0, [N] being the size of its class. *)
Theorem compute_d_prime_finite y_true y_pred :
  length y_true = length y_pred -> binary y_pred ->
  In 1 y_true -> In 0 y_true ->
  exists hr far d,
    compute_d_prime z_score y_true y_pred = Ok (Finite hr, Finite far, Finite d) /\
    corrected_rate (tally y_true y_pred 1 1)
      (tally y_true y_pred 1 1 + tally y_true y_pred 0 1) hr /\
    corrected_rate (tally y_true y_pred 1 0)
      (tally y_true y_pred 1 0 + tally y_true y_pred 0 0) far.
Proof.
  intros Hlen Hb H1 H0. unfold compute_d_prime.
  rewrite !count_where_tally by exact Hlen.
  pose proof (tally_present _ _ 1 Hlen Hb H1) as Ht.
  pose proof (tally_present _ _ 0 Hlen Hb H0) as Hl.
  pose proof (tally_nonneg y_true y_pred 1 1). pose proof (tally_nonneg y_true y_pred 0 1).
  pose proof (tally_nonneg y_true y_pred 1 0). pose proof (tally_nonneg y_true y_pred 0 0).
  destruct (correct_rate_spec (tally y_true y_pred 1 1)
              (tally y_true y_pred 1 1 + tally y_true y_pred 0 1))
    as (hr & -> & Chr); [lia|lia|].
  destruct (correct_rate_spec (tally y_true y_pred 1 0)
              (tally y_true y_pred 1 0 + tally y_true y_pred 0 0))
    as (far & -> & Cfar); [lia|lia|].
  destruct (z_score_finite hr (proj1 Chr)) as (z1 & ->).
  destruct (z_score_finite far (proj1 Cfar)) as (z2 & ->).
  exists hr, far, (z1 - z2)%Q. split; [reflexivity|]. split; assumption.
Qed.

End DPrimeProperties.

(** The worked example: 2 hits, 1 miss, 1 false alarm, 2 correct rejects,
    rates 2/3 and 1/3, and the difference of their quantiles, in the order
    (hit rate, false-alarm rate, d-prime). *)
Lemma compute_d_prime_example_run (z_score : float64 -> float64) :
  tally example_y_true example_y_pred 1 1 = 2 /\
  tally example_y_true example_y_pred 0 1 = 1 /\
  tally example_y_true example_y_pred 1 0 = 1 /\
  tally example_y_true example_y_pred 0 0 = 2 /\
  compute_d_prime z_score example_y_true example_y_pred
  = Ok (Finite (2 # 3), Finite (1 # 3),
        f_sub (z_score (Finite (2 # 3))) (z_score (Finite (1 # 3)))).
Proof. repeat split. Qed.

(** * The accuracy and error grids *)

Lemma f_div_defined (c t : Z) :
  t <> 0 -> f_div (of_int c) (of_int t) = Finite (inject_Z c / inject_Z t).
Proof.
  intros Ht. unfold f_div, of_int.
  assert (E : Qeq_bool (inject_Z t) 0 = false).
  { apply Qeq_bool_false. unfold Qeq. simpl. lia. }
  rewrite E. reflexivity.
Qed.

Lemma grid_complement_cells (acc : list (list float64)) :
  Forall2 (Forall2 complement_cell) acc (grid_complement acc).
Proof.
  unfold grid_complement.
  induction acc as [|row acc IH]; cbn [map]; constructor; [|exact IH].
  clear IH. induction row as [|a row IH]; cbn [map]; constructor; [|exact IH].
  split.
  - intros q ->. reflexivity.
  - intros ->. reflexivity.
Qed.

(** C10.  Where [acc_grid] returns, [err_grid] returns on the same
    arguments: its grid is cell by cell 1 minus the accuracy where that is
    defined (and undefined where it is not), and with [return_counts] the
    two arrays of counts are those of [acc_grid]; the accuracy of a cell with
    a nonzero trial count is defined. *)
Theorem err_grid_complement stim_fnames y_true y_pred char_grids stim_fnames_meta
    return_counts r :
  acc_grid stim_fnames y_true y_pred char_grids stim_fnames_meta return_counts = Ok r ->
  err_grid stim_fnames y_true y_pred char_grids stim_fnames_meta return_counts
  = Ok (complement_result r) /\
  Forall2 (Forall2 complement_cell) (result_grid r) (result_grid (complement_result r)) /\
  (if return_counts
   then exists correct_counts trial_counts,
       r = GridCounts (grid_div correct_counts trial_counts) correct_counts trial_counts
   else exists correct_counts trial_counts,
       r = Grid (grid_div correct_counts trial_counts)) /\
  (forall c t, t <> 0 ->
     f_sub (Finite 1) (f_div (of_int c) (of_int t))
     = Finite (1 - inject_Z c / inject_Z t)).
Proof.
  intros H. unfold err_grid. rewrite H.
  assert (Hshape : if return_counts
                   then exists correct_counts trial_counts,
                       r = GridCounts (grid_div correct_counts trial_counts)
                             correct_counts trial_counts
                   else exists correct_counts trial_counts,
                       r = Grid (grid_div correct_counts trial_counts)).
  { unfold acc_grid in H.
    destruct (common_shape char_grids) as [shape|]; [|discriminate].
    destruct (acc_grid_loop _ _ _ _ _) as [[c t]|]; [|discriminate].
    destruct return_counts; injection H as <-; eauto. }
  split; [|split; [|split]].
  - destruct return_counts; destruct Hshape as (c & t & ->); reflexivity.
  - destruct r; apply grid_complement_cells.
  - exact Hshape.
  - intros c t Ht. rewrite f_div_defined by exact Ht. reflexivity.
Qed.

(** * The claims on the examples *)

Lemma example_ppf_finite :
  forall q, (0 < q /\ q < 1)%Q -> exists z, example_ppf (Finite q) = Finite z.
Proof. intros q _. eexists. reflexivity. Qed.

Lemma compute_d_prime_empty_class_witness :
  length [0; 0] = length [0; 1] /\
  ((~ In 1 [0; 0] ->
    exists far d, compute_d_prime example_ppf [0; 0] [0; 1] = Ok (NaN, far, d) /\
                  (example_ppf NaN = NaN -> d = NaN)) /\
   (~ In 0 [0; 0] ->
    exists hr d, compute_d_prime example_ppf [0; 0] [0; 1] = Ok (hr, NaN, d) /\
                 (example_ppf NaN = NaN -> d = NaN))).
Proof.
  split; [reflexivity|].
  apply (compute_d_prime_empty_class example_ppf [0; 0] [0; 1]). reflexivity.
Defined.

(** C4, against the claim as it stands: there is a run with no
    target-present sample that returns instead of raising. *)
Lemma compute_d_prime_no_division_error :
  ~ (forall (z_score : float64 -> float64) (y_true y_pred : list Z),
        ~ In 1 y_true \/ ~ In 0 y_true ->
        exists e, compute_d_prime z_score y_true y_pred = Raise e).
Proof.
  intros H. destruct (H example_ppf [0; 0] [0; 1]) as [e He].
  - left. simpl. intuition discriminate.
  - discriminate He.
Qed.

Lemma compute_d_prime_finite_witness :
  (forall q, (0 < q /\ q < 1)%Q -> exists z, example_ppf (Finite q) = Finite z) /\
  length example_y_true = length example_y_pred /\
  binary example_y_pred /\ In 1 example_y_true /\ In 0 example_y_true /\
  exists hr far d,
    compute_d_prime example_ppf example_y_true example_y_pred
    = Ok (Finite hr, Finite far, Finite d) /\
    corrected_rate (tally example_y_true example_y_pred 1 1)
      (tally example_y_true example_y_pred 1 1 + tally example_y_true example_y_pred 0 1)
      hr /\
    corrected_rate (tally example_y_true example_y_pred 1 0)
      (tally example_y_true example_y_pred 1 0 + tally example_y_true example_y_pred 0 0)
      far.
Proof.
  assert (Hb : binary example_y_pred).
  { unfold binary, example_y_pred.
    repeat (apply Forall_cons; [first [left; reflexivity|right; reflexivity]|]).
    apply Forall_nil. }
  assert (H1 : In 1 example_y_true) by (simpl; auto).
  assert (H0 : In 0 example_y_true) by (simpl; auto 10).
  split; [exact example_ppf_finite|]. split; [reflexivity|].
  split; [exact Hb|]. split; [exact H1|]. split; [exact H0|].
  apply (compute_d_prime_finite example_ppf example_ppf_finite
           example_y_true example_y_pred eq_refl Hb H1 H0).
Defined.

Lemma err_grid_complement_witness :
  acc_grid ["a.png"%string] [1] [1] [example_grid] ["a.png"%string] true
  = Ok (GridCounts [[Finite 1; NaN]; [NaN; Finite 1]] [[1; 0]; [0; 1]] [[1; 0]; [0; 1]]) /\
  err_grid ["a.png"%string] [1] [1] [example_grid] ["a.png"%string] true
  = Ok (GridCounts [[Finite (1 - 1); NaN]; [NaN; Finite (1 - 1)]]
          [[1; 0]; [0; 1]] [[1; 0]; [0; 1]]).
Proof.
  split; [reflexivity|].
  apply (err_grid_complement ["a.png"%string] [1] [1] [example_grid] ["a.png"%string] true
           (GridCounts [[Finite 1; NaN]; [NaN; Finite 1]] [[1; 0]; [0; 1]] [[1; 0]; [0; 1]])).
  reflexivity.
Defined.

(** * Further properties of the partitioner *)

Section PartitionerRefusals.

Variable rng : Type.
Variable shuffle : list nat -> rng -> list nat * rng.
Hypothesis shuffle_perm : forall l g, Permutation l (fst (shuffle l g)).

(** A pass over a leaf pool that returns has drawn a training file, and
    found the pool large enough for the three draws. *)
Lemma leaf_body_Ok_serves st ss tr va te pool a g a' g' :
  leaf_body rng shuffle st ss tr va te pool a g = Ok (a', g') ->
  0 < tr /\ serves (mk_leaf st ss tr va te pool).
Proof.
  unfold leaf_body. intros H.
  destruct (Z.of_nat (length pool) <? total_size tr va te) eqn:Etot; [discriminate|].
  apply (bind_Ok rng) in H as (p & g1 & Hs & H).
  unfold random_shuffle in Hs. injection Hs as Hs.
  pose proof (shuffle_perm (seq 0 (length pool)) g) as Hp.
  rewrite Hs in Hp. cbn [fst] in Hp.
  assert (Hlen : length p = length pool).
  { rewrite <- (Permutation_length Hp), length_seq. reflexivity. }
  apply (bind_Ok rng) in H as ([train_inds inds1] & g2 & Hp1 & H).
  apply (lift_Ok rng) in Hp1 as [Hp1 ->].
  apply pops_Ok in Hp1. destruct Hp1 as (Hktr & -> & ->).
  apply (bind_Ok rng) in H as (tmp_tr & g2 & Hf1 & H).
  apply (lift_Ok rng) in Hf1 as [Hf1 ->].
  apply (fancy_index_Ok EmptyString) in Hf1. destruct Hf1 as (Hne1 & _ & _).
  assert (Htr : 0 < tr).
  { destruct (Z.to_nat tr) eqn:E; [exfalso; apply Hne1; reflexivity|lia]. }
  split; [exact Htr|].
  apply (bind_Ok rng) in H as ([a2 inds2] & g2 & Hv & H).
  set (r := rev p) in *.
  assert (Hr : length r = length pool) by (subst r; rewrite length_rev; exact Hlen).
  assert (Hval : exists kva,
             (kva <= length pool - Z.to_nat tr)%nat /\ va <= Z.of_nat kva /\
             inds2 = rev (skipn kva (skipn (Z.to_nat tr) r))).
  { destruct (0 <? va) eqn:Eva.
    - apply (bind_Ok rng) in Hv as ([val_inds inds3] & g3 & Hp2 & Hv).
      apply (lift_Ok rng) in Hp2 as [Hp2 ->].
      apply pops_Ok in Hp2. rewrite rev_involutive in Hp2.
      destruct Hp2 as (Hkva & -> & ->).
      apply (bind_Ok rng) in Hv as (tmp_va & g3 & _ & Hv).
      apply (bind_Ok rng) in Hv as (xv' & g4 & _ & Hv).
      apply (bind_Ok rng) in Hv as (sv' & g5 & _ & Hv).
      apply (bind_Ok rng) in Hv as (tv' & g6 & _ & Hv).
      apply (ret_Ok rng) in Hv as [Hv _]. injection Hv as _ ->.
      exists (Z.to_nat va). rewrite length_rev, length_skipn, Hr in Hkva.
      split; [exact Hkva|]. split; [lia|reflexivity].
    - apply (ret_Ok rng) in Hv as [Hv _]. injection Hv as _ ->.
      apply Z.ltb_ge in Eva. exists 0%nat.
      split; [lia|]. split; [lia|reflexivity]. }
  destruct Hval as (kva & Hkva & Hva & ->).
  cbv beta iota in H.
  apply (bind_Ok rng) in H as (test_inds & g3 & Ht & H).
  apply (bind_Ok rng) in H as (tmp_te & g4 & Hf3 & H).
  apply (lift_Ok rng) in Hf3 as [Hf3 ->].
  apply (fancy_index_Ok EmptyString) in Hf3. destruct Hf3 as (Hne3 & _ & _).
  set (B := skipn kva (skipn (Z.to_nat tr) r)) in *.
  assert (HB : length B = (length pool - Z.to_nat tr - kva)%nat).
  { subst B. rewrite !length_skipn, Hr. reflexivity. }
  unfold serves. cbn [lf_train lf_val lf_test lf_pool].
  destruct (0 <? te) eqn:Ete.
  - apply (bind_Ok rng) in Ht as ([ti inds3] & g5 & Hp3 & Ht).
    apply (lift_Ok rng) in Hp3 as [Hp3 ->].
    apply pops_Ok in Hp3. destruct Hp3 as (Hkte & _ & _).
    rewrite length_rev, HB in Hkte. apply Z.ltb_lt in Ete. lia.
  - destruct (Z.eqb_spec te (-1)) as [->|Hne]; [|discriminate].
    apply (ret_Ok rng) in Ht as [-> _]. split; [reflexivity|].
    assert (0 < length B)%nat.
    { destruct B as [|i B']; [exfalso; apply Hne3; reflexivity|simpl; lia]. }
    lia.
Qed.

(** A loop returns only when each of its passes did. *)
Lemma for_each_Ok_items {A} (P : A -> Prop) (body : A -> locals -> M rng locals)
    (l : list A) :
  (forall x a g a' g', In x l -> body x a g = Ok (a', g') -> P x) ->
  forall a g a' g', for_each rng l body a g = Ok (a', g') -> Forall P l.
Proof.
  induction l as [|x l IH]; intros Hbody a g a' g' H; [constructor|].
  cbn [for_each] in H. apply (bind_Ok rng) in H as (a1 & g1 & Hx & H).
  constructor.
  - eapply Hbody; [left; reflexivity|exact Hx].
  - eapply IH; [|exact H]. intros y b h b' h' Hy. apply Hbody. right. exact Hy.
Qed.

Lemma set_size_loop_Ok_serves st tr va te (by_ss : stim_info_by_set_size) a g a' g' :
  for_each rng by_ss
    (fun '(set_size, present_absent) a =>
       for_each rng (stim_fnames_of present_absent)
         (fun '(_, stim_fnames) a =>
            leaf_body rng shuffle st set_size tr va te stim_fnames a)
         a)
    a g = Ok (a', g') ->
  Forall (fun lf => 0 < lf_train lf /\ serves lf)
    (leaves_of_stim_type tr va te (st, by_ss)).
Proof.
  intros H. unfold leaves_of_stim_type. cbn [fst snd].
  apply Forall_flat_map.
  revert H. apply for_each_Ok_items.
  intros [ss pa] a0 g0 a1 g1 _ H.
  rewrite <- leaves_of_set_size_flat.
  apply Forall_flat_map.
  revert H. apply for_each_Ok_items.
  intros [k fnames] a2 g2 a3 g3 _ H. cbn [snd].
  constructor; [|constructor].
  apply leaf_body_Ok_serves in H. exact H.
Qed.


Lemma whole_level_divides (z : Z) (T k : nat) :
  (Z.of_nat T * (Z.of_nat k * 2) | z * (Z.of_nat k * 2) * Z.of_nat T).
Proof. exists z. ring. Qed.

Lemma stim_type_body_Ok_request (T : nat) train_size val_size test_size
    trT vaT teT item a g a' g' :
  per_stim_type train_size T = Ok trT ->
  (if truthy val_size
   then exists v, val_size = Some v /\ per_stim_type v T = Ok vaT
   else vaT = 0) ->
  (match test_size with
   | Some t => if truthy test_size then per_stim_type t T = Ok teT else teT = -1
   | None => teT = -1
   end) ->
  stim_type_body rng shuffle val_size test_size trT vaT teT item a g = Ok (a', g') ->
  type_request_ok T train_size val_size test_size item.
Proof.
  intros Htr Hva Hte H. destruct item as [st by_ss]. unfold stim_type_body in H.
  unfold type_request_ok. cbn [snd].
  apply (bind_Ok rng) in H as (tr & g1 & H1 & H). apply (lift_Ok rng) in H1 as [H1 ->].
  apply (bind_Ok rng) in H as (va & g1 & H2 & H).
  apply (bind_Ok rng) in H as (te & g2 & H3 & H).
  rewrite length_map in *.
  apply per_stim_type_spec in Htr as [HT ->].
  apply per_set_size_spec in H1 as [Hk ->].
  apply set_size_loop_Ok_serves in H.
  assert (Hne : by_ss <> []).
  { intros ->. apply Hk. reflexivity. }
  assert (Etr : train_per_leaf (tr * (Z.of_nat (length by_ss) * 2) * Z.of_nat T) T
                  (length by_ss) = tr).
  { apply leaf_count_exact; assumption. }
  assert (Eva : val_per_leaf val_size T (length by_ss) = va /\
                (forall v, val_size = Some v -> v <> 0 ->
                           (Z.of_nat T * (Z.of_nat (length by_ss) * 2) | v))).
  { unfold val_per_leaf. destruct (truthy val_size) eqn:Et.
    - destruct Hva as (v & -> & Hv). apply (lift_Ok rng) in H2 as [H2 ->].
      apply per_stim_type_spec in Hv as [_ ->].
      apply per_set_size_spec in H2 as [_ ->]. split.
      + apply leaf_count_exact; assumption.
      + intros v' [= <-] _. apply whole_level_divides.
    - apply (ret_Ok rng) in H2 as [-> ->]. destruct val_size as [v|].
      + simpl in Et. apply negb_false_iff, Z.eqb_eq in Et. subst v. split.
        * unfold leaf_count. rewrite !Z.div_0_l by lia. reflexivity.
        * intros v' [= <-] Hv'. congruence.
      + split; [reflexivity|]. intros v' [=]. }
  assert (Ete : test_per_leaf test_size T (length by_ss) = te /\
                (forall t, test_size = Some t -> t <> -1 ->
                           0 < t /\ (Z.of_nat T * (Z.of_nat (length by_ss) * 2) | t))).
  { unfold test_per_leaf. destruct test_size as [t|].
    - destruct (Z.eqb_spec t (-1)) as [E1|E1].
      + apply (ret_Ok rng) in H3 as [-> _]. split; [reflexivity|].
        intros t' [= <-] Ht'. congruence.
      + destruct (0 <? t) eqn:E0; [|discriminate].
        apply (lift_Ok rng) in H3 as [H3 ->]. apply Z.ltb_lt in E0.
        assert (Ht : truthy (Some t) = true).
        { simpl. apply negb_true_iff, Z.eqb_neq. lia. }
        rewrite Ht in Hte.
        apply per_stim_type_spec in Hte as [_ ->].
        apply per_set_size_spec in H3 as [_ ->]. split.
        * apply leaf_count_exact; assumption.
        * intros t' [= <-] _. split; [exact E0|apply whole_level_divides].
    - apply (ret_Ok rng) in H3 as [-> _]. split; [reflexivity|]. intros t' [=]. }
  destruct Eva as [Eva Hdv]. destruct Ete as [Ete Hdt].
  rewrite Etr, Eva, Ete.
  split; [exact Hne|]. split; [apply whole_level_divides|].
  split; [exact Hdv|]. split; [exact Hdt|exact H].
Qed.

(** The splits are computed only for a manifest with a stimulus type and a
    request that divides into whole numbers at every level and that every
    leaf pool can serve. *)
Lemma partition_Ok_request m train_size val_size test_size g a g' :
  partition rng shuffle m train_size val_size test_size g = Ok (a, g') ->
  m <> [] /\
  Forall (type_request_ok (length m) train_size val_size test_size) m.
Proof.
  unfold partition. intros H.
  apply (bind_Ok rng) in H as (trT & g1 & H1 & H). apply (lift_Ok rng) in H1 as [H1 ->].
  apply (bind_Ok rng) in H as (vaT & g1 & H2 & H).
  apply (bind_Ok rng) in H as (teT & g2 & H3 & H).
  split.
  { apply per_stim_type_spec in H1 as [HT _]. intros ->. apply HT. reflexivity. }
  revert H. apply for_each_Ok_items.
  intros item a0 g0 a1 g3 _ H.
  eapply stim_type_body_Ok_request; [exact H1| | |exact H].
  - destruct val_size as [v|]; simpl in *.
    + destruct (negb (v =? 0)).
      * apply (lift_Ok rng) in H2 as [H2 _]. eauto.
      * apply (ret_Ok rng) in H2 as [-> _]. reflexivity.
    + apply (ret_Ok rng) in H2 as [-> _]. reflexivity.
  - destruct test_size as [t|]; simpl in *.
    + destruct (negb (t =? 0)).
      * apply (lift_Ok rng) in H3 as [H3 _]. exact H3.
      * apply (ret_Ok rng) in H3 as [-> _]. reflexivity.
    + apply (ret_Ok rng) in H3 as [-> _]. reflexivity.
Qed.


(** [data] returns a bundle only when every leaf pool holds the files asked
    of it: at least the train, validation and test counts together, or, when
    the test split takes the remainder, more than the train and validation
    counts.  An oversubscribed pool is never silently truncated. *)
Theorem data_Ok_pools_serve m train_size val_size test_size g b g' :
  data rng shuffle [m] train_size val_size test_size g = Ok (b, g') ->
  Forall (fun lf => 0 < lf_train lf /\ serves lf)
    (leaves m train_size val_size test_size).
Proof.
  intros H. apply (data_Ok_partition rng shuffle) in H as (m' & a & [= <-] & Hp & _).
  apply partition_Ok_request in Hp as [_ Hall].
  unfold leaves. apply Forall_flat_map.
  eapply Forall_impl; [|exact Hall].
  intros item (_ & _ & _ & _ & Hs). exact Hs.
Qed.

(** For sizes that float64 holds exactly (below 2^53 in magnitude), [data]
    returns a bundle only for a manifest with at least one stimulus type,
    each with at least one set size, and sizes that divide into whole
    numbers at every level; the validation size is then set and not zero,
    and a test size other than -1 is positive. *)
Theorem data_Ok_whole_numbers m train_size val_size test_size g b g' :
  request_exact_in_float64 train_size val_size test_size ->
  data rng shuffle [m] train_size val_size test_size g = Ok (b, g') ->
  m <> [] /\
  Forall (fun item => snd item <> []) m /\
  whole_at_every_level m train_size /\
  (exists v, val_size = Some v /\ v <> 0 /\ whole_at_every_level m v) /\
  (forall t, test_size = Some t -> t <> -1 -> 0 < t /\ whole_at_every_level m t).
Proof.
  intros _ H.
  pose proof (data_Ok rng shuffle shuffle_perm _ _ _ _ _ _ _ H) as (_ & _ & _ & Hv & _).
  apply (data_Ok_partition rng shuffle) in H as (m' & a & [= <-] & Hp & _).
  apply partition_Ok_request in Hp as [Hne Hall].
  split; [exact Hne|].
  split; [eapply Forall_impl; [|exact Hall]; intros item (Hs & _); exact Hs|].
  split.
  { unfold whole_at_every_level. eapply Forall_impl; [|exact Hall].
    intros item (_ & Hd & _). exact Hd. }
  split.
  - destruct val_size as [v|]; [|discriminate].
    simpl in Hv. apply negb_true_iff, Z.eqb_neq in Hv.
    exists v. split; [reflexivity|]. split; [exact Hv|].
    eapply Forall_impl; [|exact Hall].
    intros item (_ & _ & H & _). apply H; [reflexivity|exact Hv].
  - intros t Ht Hneq.
    assert (Hitem : exists item, In item m).
    { destruct m as [|item m']; [congruence|]. exists item. left. reflexivity. }
    destruct Hitem as (item0 & Hin0).
    rewrite Forall_forall in Hall. split.
    + destruct (Hall _ Hin0) as (_ & _ & _ & H & _). apply (H t Ht Hneq).
    + apply Forall_forall. intros item Hin.
      destruct (Hall _ Hin) as (_ & _ & _ & H & _). apply (H t Ht Hneq).
Qed.

Lemma per_stim_type_not_whole (n : Z) (k : nat) :
  k <> 0%nat -> ~ (Z.of_nat k | n) -> per_stim_type n k = Raise TypeError.
Proof.
  intros Hk Hnd.
  destruct (per_stim_type n k) as [z|e] eqn:E.
  - apply per_stim_type_spec in E as [_ ->]. exfalso. apply Hnd. exists z. reflexivity.
  - unfold per_stim_type, true_div in E.
    destruct (Qeq_bool (inject_Z (Z.of_nat k)) 0) eqn:E0.
    + apply Qeq_bool_iff in E0. apply inject_Z_of_nat_neq0 in Hk. contradiction.
    + unfold whole in E. destruct (is_integer _); [discriminate|]. symmetry. exact E.
Qed.

(** When the manifest has stimulus types and their number does not divide a
    [train_size] that float64 holds exactly (below 2^53 in magnitude),
    [data] raises [TypeError], whatever the other sizes and the state of the
    generator. *)
Theorem data_train_size_not_whole m train_size val_size test_size g :
  m <> [] -> exact_in_float64 train_size ->
  ~ (Z.of_nat (length m) | train_size) ->
  data rng shuffle [m] train_size val_size test_size g = Raise TypeError.
Proof.
  intros Hne _ Hnd. unfold data, partition, bind at 1.
  assert (HT : length m <> 0%nat).
  { intros E. apply length_zero_iff_nil in E. contradiction. }
  unfold bind at 1. rewrite (per_stim_type_not_whole _ _ HT Hnd). reflexivity.
Qed.

Lemma draws_exhaust lfs draws :
  Forall2 draw_ok lfs draws ->
  Forall (fun lf => lf_test lf = -1) lfs ->
  Permutation
    (concat (map d_train draws) ++ concat (map d_val draws) ++ concat (map d_test draws))
    (flat_map lf_pool lfs).
Proof.
  induction 1 as [|lf d lfs draws Hd _ IH]; intros Hrem.
  - reflexivity.
  - inversion Hrem as [|? ? Hlf Hrest]; subst.
    specialize (IH Hrest). destruct Hd as (Ht & Hv & He & rest0 & Hp).
    assert (rest0 = []).
    { pose proof (Permutation_length Hp) as Hl.
      rewrite !length_app, Ht, Hv, He in Hl. unfold test_count in Hl. rewrite Hlf in Hl.
      change (0 <? -1) with false in Hl. cbv iota in Hl.
      destruct rest0; [reflexivity|simpl in Hl; lia]. }
    subst rest0. rewrite app_nil_r in Hp.
    cbn [map concat flat_map]. rewrite <- Hp, <- IH.
    set (TR := concat (map d_train draws)). set (VA := concat (map d_val draws)).
    set (TE := concat (map d_test draws)).
    etransitivity; [|apply perm_interleave].
    apply Permutation_app_head. apply perm_interleave.
Qed.

(** When the test split takes the remainder ([test_size] is [None] or -1),
    every file of the manifest is in the bundle: the three splits together
    are a rearrangement of all file names. *)
Theorem data_remainder_exhausts m train_size val_size test_size g b g' :
  test_size = None \/ test_size = Some (-1) ->
  data rng shuffle [m] train_size val_size test_size g = Ok (b, g') ->
  Permutation (x_train b ++ val_names b ++ x_test b) (manifest_filenames m).
Proof.
  intros Hte H.
  apply (data_Ok rng shuffle shuffle_perm) in H as (m' & draws & [= <-] & _ & HF & Hb).
  destruct Hb as (E1 & E2 & E3 & _).
  unfold val_names. rewrite E1, E2, E3.
  rewrite (inc_combine_train _ _ HF), (inc_combine_val _ _ HF), (inc_combine_test _ _ HF).
  rewrite <- (leaves_pools m train_size val_size test_size).
  apply draws_exhaust; [exact HF|].
  apply Forall_forall. intros lf Hlf.
  apply leaves_counts in Hlf as (item & _ & _ & _ & ->).
  unfold test_per_leaf. destruct Hte as [->| ->]; reflexivity.
Qed.


(** *** The tags of the samples *)

Lemma draw_ok_incl lf d :
  draw_ok lf d ->
  incl (d_train d) (lf_pool lf) /\ incl (d_val d) (lf_pool lf) /\
  incl (d_test d) (lf_pool lf).
Proof.
  intros (_ & _ & _ & rest & Hp).
  repeat split; intros f Hf; apply (Permutation_in _ Hp);
    repeat (apply in_or_app; first [left; exact Hf | right]).
Qed.

Lemma inc_tags {T} (sel : draw -> list string) (tag : leaf -> T) lfs draws :
  (forall lf d, draw_ok lf d -> incl (sel d) (lf_pool lf)) ->
  Forall2 draw_ok lfs draws ->
  Forall2 (fun f t => exists lf, In lf lfs /\ tag lf = t /\ In f (lf_pool lf))
    (flat_map (fun ld => sel (snd ld)) (combine lfs draws))
    (flat_map (fun ld => repeat (tag (fst ld)) (length (sel (snd ld))))
       (combine lfs draws)).
Proof.
  intros Hsel. induction 1 as [|lf d lfs draws Hd _ IH]; [constructor|].
  cbn [combine flat_map fst snd]. apply Forall2_app.
  - pose proof (Hsel lf d Hd) as Hincl. clear IH Hd.
    induction (sel d) as [|f fs IHf]; [constructor|].
    cbn [length repeat]. constructor.
    + exists lf. split; [left; reflexivity|]. split; [reflexivity|].
      apply Hincl. left. reflexivity.
    + apply IHf. intros x Hx. apply Hincl. right. exact Hx.
  - eapply Forall2_impl; [|exact IH].
    intros f t (lf' & Hin & Ht & Hf). exists lf'. split; [right; exact Hin|]. auto.
Qed.

Lemma leaves_in_pool m train_size val_size test_size lf f :
  In lf (leaves m train_size val_size test_size) ->
  In f (lf_pool lf) ->
  in_pool m (lf_stim_type lf) (lf_set_size lf) f.
Proof.
  unfold leaves, leaves_of_stim_type, leaves_of_set_size. intros Hlf Hf.
  apply in_flat_map in Hlf as ([st by_ss] & Hm & Hlf). cbn [fst snd] in Hlf.
  apply in_flat_map in Hlf as ([ss pa] & Hss & Hlf). cbn [fst snd] in Hlf.
  apply in_map_iff in Hlf as ([key infos] & <- & Hkv). cbn [snd] in *.
  exists by_ss, pa, key, infos. auto.
Qed.

(** In every bundle that [data] returns, the set-size tag of a sample is the
    set size of a pool of the manifest that holds its file, in each of the
    three splits, and the stimulus-type tag of a validation sample is the
    stimulus type of such a pool. *)
Theorem data_tags_describe_files m train_size val_size test_size g b g' :
  data rng shuffle [m] train_size val_size test_size g = Ok (b, g') ->
  Forall2 (fun f ss => exists st, in_pool m st ss f) (x_train b) (set_size_vec_train b) /\
  Forall2 (fun f ss => exists st, in_pool m st ss f) (x_test b) (set_size_vec_test b) /\
  exists xv sv,
    x_val b = Some xv /\ set_size_vec_val b = Some sv /\
    Forall2 (fun f ss => exists st, in_pool m st ss f) xv sv /\
    Forall2 (fun f st => exists ss, in_pool m st ss f) xv (stim_type_vec_val b).
Proof.
  intros H.
  apply (data_Ok rng shuffle shuffle_perm) in H as (m' & draws & [= <-] & _ & HF & Hb).
  destruct Hb as (E1 & E2 & E3 & _ & _ & _ & E7 & E8 & E9 & _ & E11 & _).
  rewrite E1, E3, E7, E9, E11.
  assert (Hss : forall sel,
    (forall lf d, draw_ok lf d -> incl (sel d) (lf_pool lf)) ->
    Forall2 (fun f ss => exists st, in_pool m st ss f)
      (flat_map (fun ld => sel (snd ld))
         (combine (leaves m train_size val_size test_size) draws))
      (flat_map (fun ld => repeat (lf_set_size (fst ld)) (length (sel (snd ld))))
         (combine (leaves m train_size val_size test_size) draws))).
  { intros sel Hsel. eapply Forall2_impl; [|apply (inc_tags sel lf_set_size _ _ Hsel HF)].
    intros f ss (lf & Hin & <- & Hf). exists (lf_stim_type lf).
    eapply leaves_in_pool; eassumption. }
  split; [apply (Hss d_train); intros lf d Hd; apply (draw_ok_incl lf d Hd)|].
  split; [apply (Hss d_test); intros lf d Hd; apply (draw_ok_incl lf d Hd)|].
  do 2 eexists. split; [exact E2|]. split; [exact E8|]. split.
  - apply (Hss d_val). intros lf d Hd. apply (draw_ok_incl lf d Hd).
  - eapply Forall2_impl;
      [|apply (inc_tags d_val lf_stim_type _ _
                 (fun lf d Hd => proj1 (proj2 (draw_ok_incl lf d Hd))) HF)].
    intros f st (lf & Hin & <- & Hf). exists (lf_set_size lf).
    eapply leaves_in_pool; eassumption.
Qed.

(** *** The catalog *)

Lemma for_each_fold {A X} (F : locals -> X) (upd : X -> A -> X)
    (body : A -> locals -> M rng locals) (l : list A) :
  (forall x a g a' g', In x l -> body x a g = Ok (a', g') -> F a' = upd (F a) x) ->
  forall a g a' g',
    for_each rng l body a g = Ok (a', g') -> F a' = fold_left upd l (F a).
Proof.
  induction l as [|x l IH]; intros Hbody a g a' g' H; cbn [for_each fold_left] in *.
  - apply (ret_Ok rng) in H as [-> _]. reflexivity.
  - apply (bind_Ok rng) in H as (a1 & g1 & Hx & H).
    rewrite <- (Hbody x a g a1 g1 (or_introl eq_refl) Hx).
    eapply IH; [|exact H]. intros y b h b' h' Hy. apply Hbody. right. exact Hy.
Qed.

Lemma fold_left_const {A X} (l : list A) (c : X) :
  fold_left (fun c _ => c) l c = c.
Proof. induction l as [|x l IH]; [reflexivity|exact IH]. Qed.

Lemma stim_type_body_catalog val_size test_size trT vaT teT item a g a' g' :
  stim_type_body rng shuffle val_size test_size trT vaT teT item a g = Ok (a', g') ->
  l_set_sizes_by_stim_stype a'
  = dict_set (l_set_sizes_by_stim_stype a) (fst item) (map fst (snd item)).
Proof.
  destruct item as [st by_ss]. unfold stim_type_body. intros H.
  apply (bind_Ok rng) in H as (tr & g1 & _ & H).
  apply (bind_Ok rng) in H as (va & g2 & _ & H).
  apply (bind_Ok rng) in H as (te & g3 & _ & H).
  apply (for_each_fold l_set_sizes_by_stim_stype (fun c _ => c)) in H.
  - rewrite H. rewrite fold_left_const. reflexivity.
  - intros [ss pa] a0 g0 a1 g4 _ H0.
    apply (for_each_fold l_set_sizes_by_stim_stype (fun c _ => c)) in H0.
    + rewrite H0. apply fold_left_const.
    + intros [k fnames] a2 g5 a3 g6 _ H1.
      apply (leaf_body_Ok rng shuffle shuffle_perm) in H1 as (d & _ & -> & _).
      reflexivity.
Qed.

Lemma dict_set_fresh {V} (d : list (string * V)) (k : string) (v : V) :
  ~ In k (map fst d) -> dict_set d k v = d ++ [(k, v)].
Proof.
  induction d as [|[k' v'] d IH]; intros Hk; [reflexivity|].
  cbn [dict_set]. destruct (String.eqb_spec k' k) as [->|Hne].
  - exfalso. apply Hk. left. reflexivity.
  - cbn [app]. f_equal. apply IH. intros H. apply Hk. right. exact H.
Qed.

Lemma catalog_fold (m : manifest) (c : list (string * list Z)) :
  NoDup (map fst c ++ map fst m) ->
  fold_left (fun c item => dict_set c (fst item) (map fst (snd item))) m c
  = c ++ catalog_of m.
Proof.
  revert c. induction m as [|item m IH]; intros c Hnd; cbn [fold_left catalog_of map].
  - rewrite app_nil_r. reflexivity.
  - rewrite dict_set_fresh.
    + rewrite IH.
      * rewrite <- app_assoc. reflexivity.
      * rewrite map_app. cbn [map fst]. rewrite <- app_assoc. exact Hnd.
    + cbn [map] in Hnd. intros Hin.
      apply NoDup_remove_2 in Hnd. apply Hnd. apply in_or_app. left. exact Hin.
Qed.

(** When the stimulus types of the manifest are distinct keys, the catalog
    [set_sizes_by_stim_stype] of the bundle lists each stimulus type with its
    set sizes, in the order of the manifest. *)
Theorem data_catalog m train_size val_size test_size g b g' :
  NoDup (map fst m) ->
  data rng shuffle [m] train_size val_size test_size g = Ok (b, g') ->
  set_sizes_by_stim_stype b = catalog_of m.
Proof.
  intros Hnd H.
  apply (data_Ok_partition rng shuffle) in H as (m' & a & [= <-] & Hp & Hd).
  assert (Hc : l_set_sizes_by_stim_stype a = catalog_of m).
  { unfold partition in Hp.
    apply (bind_Ok rng) in Hp as (trT & g1 & _ & Hp).
    apply (bind_Ok rng) in Hp as (vaT & g2 & _ & Hp).
    apply (bind_Ok rng) in Hp as (teT & g3 & _ & Hp).
    apply (for_each_fold l_set_sizes_by_stim_stype
             (fun c item => dict_set c (fst item) (map fst (snd item)))) in Hp.
    - rewrite Hp. rewrite catalog_fold.
      + unfold init_locals. destruct (truthy val_size); reflexivity.
      + unfold init_locals. destruct (truthy val_size); exact Hnd.
    - intros item a0 g0 a1 g4 _ H0. eapply stim_type_body_catalog. exact H0. }
  unfold make_dict in Hd.
  destruct (if truthy val_size then _ else _) as [yv|]; [|discriminate].
  destruct (read_local _) as [tv|]; [|discriminate].
  injection Hd as <-. exact Hc.
Qed.

End PartitionerRefusals.

(** *** The properties at the example manifest *)

Lemma data_Ok_pools_serve_witness :
  (forall l g, Permutation l (fst (counter_shuffle l g))) /\
  data nat counter_shuffle [example_manifest] 2 (Some 2) None 0%nat
  = Ok (example_bundle, 2%nat) /\
  Forall (fun lf => 0 < lf_train lf /\ serves lf)
    (leaves example_manifest 2 (Some 2) None).
Proof.
  split; [exact counter_shuffle_perm|]. split; [reflexivity|].
  apply (data_Ok_pools_serve nat counter_shuffle counter_shuffle_perm
           example_manifest 2 (Some 2) None 0%nat example_bundle 2%nat).
  reflexivity.
Defined.

Lemma example_request_exact : request_exact_in_float64 2 (Some 2) None.
Proof.
  unfold request_exact_in_float64, exact_in_float64.
  split; [reflexivity|]. split; [intros v [= <-]; reflexivity|intros t; discriminate].
Qed.

Lemma data_Ok_whole_numbers_witness :
  (forall l g, Permutation l (fst (counter_shuffle l g))) /\
  request_exact_in_float64 2 (Some 2) None /\
  data nat counter_shuffle [example_manifest] 2 (Some 2) None 0%nat
  = Ok (example_bundle, 2%nat) /\
  (example_manifest <> [] /\
   Forall (fun item => snd item <> []) example_manifest /\
   whole_at_every_level example_manifest 2 /\
   (exists v, Some 2 = Some v /\ v <> 0 /\ whole_at_every_level example_manifest v) /\
   (forall t, @None Z = Some t -> t <> -1 ->
              0 < t /\ whole_at_every_level example_manifest t)).
Proof.
  split; [exact counter_shuffle_perm|]. split; [exact example_request_exact|].
  split; [reflexivity|].
  apply (data_Ok_whole_numbers nat counter_shuffle counter_shuffle_perm
           example_manifest 2 (Some 2) None 0%nat example_bundle 2%nat
           example_request_exact).
  reflexivity.
Defined.

Lemma data_train_size_not_whole_witness :
  two_type_manifest <> [] /\
  exact_in_float64 3 /\
  ~ (Z.of_nat (length two_type_manifest) | 3) /\
  data nat counter_shuffle [two_type_manifest] 3 (Some 4) None 0%nat
  = Raise TypeError.
Proof.
  assert (Hne : two_type_manifest <> []) by discriminate.
  assert (Hnd : ~ (Z.of_nat (length two_type_manifest) | 3)).
  { intros [q Hq]. cbn in Hq. lia. }
  assert (Hex : exact_in_float64 3) by reflexivity.
  split; [exact Hne|]. split; [exact Hex|]. split; [exact Hnd|].
  apply (data_train_size_not_whole nat counter_shuffle two_type_manifest 3 (Some 4)
           None 0%nat Hne Hex Hnd).
Defined.

Lemma data_remainder_exhausts_witness :
  (forall l g, Permutation l (fst (counter_shuffle l g))) /\
  data nat counter_shuffle [example_manifest] 2 (Some 2) None 0%nat
  = Ok (example_bundle, 2%nat) /\
  Permutation
    (x_train example_bundle ++ val_names example_bundle ++ x_test example_bundle)
    (manifest_filenames example_manifest).
Proof.
  split; [exact counter_shuffle_perm|]. split; [reflexivity|].
  apply (data_remainder_exhausts nat counter_shuffle counter_shuffle_perm
           example_manifest 2 (Some 2) None 0%nat example_bundle 2%nat).
  - left. reflexivity.
  - reflexivity.
Defined.

Lemma data_tags_describe_files_witness :
  (forall l g, Permutation l (fst (counter_shuffle l g))) /\
  data nat counter_shuffle [example_manifest] 2 (Some 2) None 0%nat
  = Ok (example_bundle, 2%nat) /\
  (Forall2 (fun f ss => exists st, in_pool example_manifest st ss f)
     (x_train example_bundle) (set_size_vec_train example_bundle) /\
   Forall2 (fun f ss => exists st, in_pool example_manifest st ss f)
     (x_test example_bundle) (set_size_vec_test example_bundle) /\
   exists xv sv,
     x_val example_bundle = Some xv /\ set_size_vec_val example_bundle = Some sv /\
     Forall2 (fun f ss => exists st, in_pool example_manifest st ss f) xv sv /\
     Forall2 (fun f st => exists ss, in_pool example_manifest st ss f) xv
       (stim_type_vec_val example_bundle)).
Proof.
  split; [exact counter_shuffle_perm|]. split; [reflexivity|].
  apply (data_tags_describe_files nat counter_shuffle counter_shuffle_perm
           example_manifest 2 (Some 2) None 0%nat example_bundle 2%nat).
  reflexivity.
Defined.

Lemma data_catalog_witness :
  (forall l g, Permutation l (fst (counter_shuffle l g))) /\
  NoDup (map fst example_manifest) /\
  data nat counter_shuffle [example_manifest] 2 (Some 2) None 0%nat
  = Ok (example_bundle, 2%nat) /\
  set_sizes_by_stim_stype example_bundle = catalog_of example_manifest.
Proof.
  assert (Hnd : NoDup (map fst example_manifest)).
  { repeat constructor. intros []. }
  split; [exact counter_shuffle_perm|]. split; [exact Hnd|]. split; [reflexivity|].
  apply (data_catalog nat counter_shuffle counter_shuffle_perm
           example_manifest 2 (Some 2) None 0%nat example_bundle 2%nat Hnd).
  reflexivity.
Defined.

(** * Further properties of the metrics *)

(** ** Counting in a grid *)

Lemma replace_nth {A} (l : list A) (i : nat) (x v d : A) (j : nat) :
  nth_error l i = Some x ->
  nth j (firstn i l ++ v :: skipn (S i) l) d
  = if (j =? i)%nat then v else nth j l d.
Proof.
  revert i j. induction l as [|y l IH]; intros [|i] [|j] H;
    try discriminate; try reflexivity.
  cbn [nth_error] in H. cbn [firstn skipn app nth].
  change (S j =? S i)%nat with (j =? i)%nat. apply IH. exact H.
Qed.

Lemma replace_length {A} (l : list A) (i : nat) (x v : A) :
  nth_error l i = Some x ->
  length (firstn i l ++ v :: skipn (S i) l) = length l.
Proof.
  intros H. assert (Hi : (i < length l)%nat).
  { apply nth_error_Some. rewrite H. discriminate. }
  rewrite length_app, length_firstn. cbn [length]. rewrite length_skipn. lia.
Qed.

Lemma incr_at_spec counts r c counts' :
  incr_at counts (r, c) = Ok counts' ->
  length counts' = length counts /\
  (forall r', length (nth r' counts' []) = length (nth r' counts [])) /\
  (forall r' c', cell_at counts' r' c'
                 = cell_at counts r' c'
                   + (if (r' =? r)%nat && (c' =? c)%nat then 1 else 0)).
Proof.
  unfold incr_at. cbn [fst snd].
  destruct (nth_error counts r) as [row|] eqn:Er; [|discriminate].
  destruct (nth_error row c) as [v|] eqn:Ec; [|discriminate].
  intros [= <-].
  assert (Hrow : nth r counts [] = row) by (apply nth_error_nth; exact Er).
  assert (Hv : nth c row 0 = v) by (apply nth_error_nth; exact Ec).
  split; [apply (replace_length _ _ _ _ Er)|]. split.
  - intros r'. rewrite (replace_nth _ _ _ _ _ _ Er).
    destruct (Nat.eqb_spec r' r) as [->|_]; [|reflexivity].
    rewrite Hrow. apply (replace_length _ _ _ _ Ec).
  - intros r' c'. unfold cell_at. rewrite (replace_nth _ _ _ _ _ _ Er).
    destruct (Nat.eqb_spec r' r) as [->|_]; cbn [andb]; [|lia].
    rewrite Hrow, (replace_nth _ _ _ _ _ _ Ec).
    destruct (Nat.eqb_spec c' c) as [->|_]; lia.
Qed.

Lemma incr_at_total counts r c :
  (r < length counts)%nat -> (c < length (nth r counts []))%nat ->
  exists counts', incr_at counts (r, c) = Ok counts'.
Proof.
  intros Hr Hc. unfold incr_at. cbn [fst snd].
  destruct (nth_error counts r) as [row|] eqn:Er.
  - rewrite (nth_error_nth _ _ _ Er) in Hc.
    destruct (nth_error row c) as [v|] eqn:Ec; [eexists; reflexivity|].
    apply nth_error_None in Ec. lia.
  - apply nth_error_None in Er. lia.
Qed.

Lemma incr_all_spec ps : forall counts counts',
  incr_all counts ps = Ok counts' ->
  length counts' = length counts /\
  (forall r, length (nth r counts' []) = length (nth r counts [])) /\
  (forall r c, cell_at counts' r c = cell_at counts r c + occurrences ps r c).
Proof.
  induction ps as [|[r0 c0] ps IH]; intros counts counts' H; cbn [incr_all] in H.
  - injection H as <-. repeat split. intros r c. unfold occurrences. simpl. lia.
  - destruct (incr_at counts (r0, c0)) as [counts1|] eqn:E1; [|discriminate].
    apply incr_at_spec in E1 as (L1 & R1 & C1).
    apply IH in H as (L2 & R2 & C2).
    split; [congruence|]. split; [intros r; rewrite R2; apply R1|].
    intros r c. rewrite C2, C1. unfold occurrences. cbn [filter fst snd].
    rewrite (Nat.eqb_sym r0 r), (Nat.eqb_sym c0 c).
    destruct ((r =? r0)%nat && (c =? c0)%nat); cbn [length]; lia.
Qed.

Lemma incr_all_total ps : forall counts,
  Forall (fun p => (fst p < length counts)%nat
                   /\ (snd p < length (nth (fst p) counts []))%nat) ps ->
  exists counts', incr_all counts ps = Ok counts'.
Proof.
  induction ps as [|[r0 c0] ps IH]; intros counts H; cbn [incr_all].
  - eexists; reflexivity.
  - inversion H as [|? ? [Hr Hc] Hrest]; subst. cbn [fst snd] in Hr, Hc.
    destruct (incr_at_total counts r0 c0 Hr Hc) as (counts1 & E1). rewrite E1.
    apply incr_at_spec in E1 as (L1 & R1 & _).
    apply IH. eapply Forall_impl; [|exact Hrest].
    intros p [Hp1 Hp2]. rewrite L1, R1. split; assumption.
Qed.

(** *** The positions that a mask selects *)

Lemma occ_seq (q : nat -> bool) (c : nat) (n : nat) : forall s,
  length (filter (fun x => (x =? c)%nat) (filter q (seq s n)))
  = if (s <=? c)%nat && (c <? s + n)%nat && q c then 1%nat else 0%nat.
Proof.
  induction n as [|n IH]; intros s.
  - cbn [seq filter length].
    destruct (Nat.leb_spec s c), (Nat.ltb_spec c (s + 0)); cbn [andb];
      try reflexivity; lia.
  - cbn [seq filter].
    assert (Hrest : length (filter (fun x => (x =? c)%nat) (filter q (seq (S s) n)))
                    = if (S s <=? c)%nat && (c <? s + S n)%nat && q c
                      then 1%nat else 0%nat).
    { rewrite IH. replace (S s + n)%nat with (s + S n)%nat by lia. reflexivity. }
    destruct (q s) eqn:Eq.
    + cbn [filter]. destruct (Nat.eqb_spec s c) as [->|Hne].
      * cbn [length]. rewrite Hrest, Eq.
        destruct (Nat.leb_spec (S c) c), (Nat.leb_spec c c), (Nat.ltb_spec c (c + S n));
          cbn [andb]; try reflexivity; lia.
      * rewrite Hrest.
        destruct (Nat.leb_spec (S s) c), (Nat.leb_spec s c), (Nat.ltb_spec c (s + S n));
          cbn [andb]; try reflexivity; lia.
    + rewrite Hrest.
      destruct (Nat.leb_spec (S s) c), (Nat.leb_spec s c), (Nat.ltb_spec c (s + S n));
        cbn [andb]; try reflexivity; try lia.
      assert (s = c) by lia. subst. rewrite Eq. reflexivity.
Qed.

Lemma occ_row (r' r c : nat) (cs : list nat) :
  length (filter (fun p => (fst p =? r)%nat && (snd p =? c)%nat)
            (map (fun c' => (r', c')) cs))
  = if (r' =? r)%nat then length (filter (fun x => (x =? c)%nat) cs) else 0%nat.
Proof.
  destruct (r' =? r)%nat eqn:E.
  - induction cs as [|x cs IH]; cbn [map filter fst snd]; [reflexivity|].
    rewrite E. cbn [andb]. destruct (x =? c)%nat; cbn [length]; rewrite IH; reflexivity.
  - induction cs as [|x cs IH]; cbn [map filter fst snd]; [reflexivity|].
    rewrite E. cbn [andb]. exact IH.
Qed.

Lemma occ_flat (F : nat -> list (nat * nat)) (r c k : nat) (n : nat) :
  (forall r', length (filter (fun p => (fst p =? r)%nat && (snd p =? c)%nat) (F r'))
              = if (r' =? r)%nat then k else 0%nat) ->
  forall s,
    length (filter (fun p => (fst p =? r)%nat && (snd p =? c)%nat)
              (flat_map F (seq s n)))
    = if (s <=? r)%nat && (r <? s + n)%nat then k else 0%nat.
Proof.
  intros HF. induction n as [|n IH]; intros s.
  - cbn [seq flat_map filter length].
    destruct (Nat.leb_spec s r), (Nat.ltb_spec r (s + 0)); cbn [andb];
      try reflexivity; lia.
  - cbn [seq flat_map]. rewrite filter_app, length_app, HF, IH.
    destruct (Nat.eqb_spec s r) as [->|Hne].
    + destruct (Nat.leb_spec (S r) r), (Nat.leb_spec r r), (Nat.ltb_spec r (r + S n));
        cbn [andb]; try lia.
    + destruct (Nat.leb_spec (S s) r), (Nat.leb_spec s r),
        (Nat.ltb_spec r (S s + n)), (Nat.ltb_spec r (s + S n));
        cbn [andb]; try reflexivity; lia.
Qed.

Lemma positions_where_occurrences (q : string -> bool) (g : char_grid) (r c : nat) :
  (r < length g)%nat -> (c < length (nth r g []))%nat ->
  occurrences (positions_where q g) r c = if q (char_at g r c) then 1 else 0.
Proof.
  intros Hr Hc. unfold occurrences, positions_where.
  rewrite (occ_flat _ r c
             (length (filter (fun x => (x =? c)%nat)
                        (filter (fun c' => q (nth c' (nth r g []) EmptyString))
                           (seq 0 (length (nth r g []))))))).
  - rewrite occ_seq. unfold char_at.
    destruct (Nat.leb_spec 0 r), (Nat.ltb_spec r (0 + length g)),
      (Nat.leb_spec 0 c), (Nat.ltb_spec c (0 + length (nth r g [])));
      cbn [andb]; try lia.
    destruct (q _); reflexivity.
  - intros r'. rewrite occ_row. destruct (Nat.eqb_spec r' r) as [->|_]; reflexivity.
Qed.

Lemma positions_where_in_range (q : string -> bool) (g : char_grid) :
  Forall (fun p => (fst p < length g)%nat
                   /\ (snd p < length (nth (fst p) g []))%nat)
    (positions_where q g).
Proof.
  apply Forall_forall. intros [r c] H. unfold positions_where in H.
  apply in_flat_map in H as (r' & Hr' & H).
  apply in_map_iff in H as (c' & [= <- <-] & Hc').
  apply filter_In in Hc' as [Hc' _]. apply in_seq in Hr'. apply in_seq in Hc'.
  cbn [fst snd]. lia.
Qed.

Lemma nonzero_positions_where (g : char_grid) :
  nonzero_positions g = positions_where (fun s => negb (String.eqb s EmptyString)) g.
Proof. reflexivity. Qed.

(** One grid added to a count of the shape of the grid. *)
Lemma incr_positions (q : string -> bool) (R C : nat) (g : char_grid)
    (counts : list (list Z)) :
  has_shape R C g -> has_shape R C counts ->
  exists counts',
    incr_all counts (positions_where q g) = Ok counts' /\
    has_shape R C counts' /\
    forall r c, (r < R)%nat -> (c < C)%nat ->
      cell_at counts' r c = cell_at counts r c + if q (char_at g r c) then 1 else 0.
Proof.
  intros [Lg Rg] [Lc Rc].
  destruct (incr_all_total (positions_where q g) counts) as (counts' & E).
  { eapply Forall_impl; [|apply positions_where_in_range].
    intros [r c]. cbn [fst snd]. intros [Hr Hc].
    rewrite Lg in Hr. rewrite (Rg r Hr) in Hc. rewrite Lc, (Rc r Hr). split; assumption. }
  exists counts'. split; [exact E|].
  apply incr_all_spec in E as (L & Rw & Cl). split.
  - split; [congruence|]. intros r Hr. rewrite Rw. apply Rc. exact Hr.
  - intros r c Hr Hc. rewrite Cl. f_equal.
    apply positions_where_occurrences; [lia|]. rewrite (Rg r Hr). exact Hc.
Qed.

(** *** Shapes *)

Lemma np_shape_has_shape (g : char_grid) (s : list nat) :
  np_shape g = Ok s -> has_shape (rows_of s) (cols_of s) g.
Proof.
  destruct g as [|row rows]; cbn [np_shape].
  - intros [= <-]. split; [reflexivity|]. intros r Hr. cbn in Hr. lia.
  - destruct (forallb _ rows) eqn:E; [|discriminate]. intros [= <-].
    cbn [rows_of cols_of]. split; [reflexivity|].
    intros [|r] Hr; [reflexivity|]. cbn [nth length] in *.
    rewrite forallb_forall in E. apply Nat.eqb_eq. apply E. apply nth_In. lia.
Qed.

Lemma np_zeros_has_shape (s : list nat) :
  has_shape (rows_of s) (cols_of s) (np_zeros s) /\
  forall r c, cell_at (np_zeros s) r c = 0.
Proof.
  assert (Hnil : has_shape 0 0 (@nil (list Z)) /\ forall r c, cell_at [] r c = 0).
  { split; [split; [reflexivity|intros r Hr; lia]|].
    intros [|r] [|c]; reflexivity. }
  destruct s as [|R [|C [|x s]]]; try exact Hnil.
  cbn [rows_of cols_of np_zeros].
  assert (Hrow : forall r, (r < R)%nat -> nth r (repeat (repeat 0 C) R) [] = repeat 0 C).
  { intros r Hr. rewrite (nth_indep _ [] (repeat 0 C)) by (rewrite repeat_length; exact Hr).
    apply nth_repeat. }
  split.
  - split; [apply repeat_length|]. intros r Hr. rewrite (Hrow r Hr). apply repeat_length.
  - intros r c. unfold cell_at. destruct (Nat.lt_ge_cases r R) as [Hr|Hr].
    + rewrite (Hrow r Hr). apply nth_repeat.
    + rewrite (nth_overflow (repeat (repeat 0 C) R)) by (rewrite repeat_length; exact Hr).
      destruct c; reflexivity.
Qed.

Lemma shapes_Ok (gs : list char_grid) : forall ss,
  shapes gs = Ok ss -> Forall2 (fun g s => np_shape g = Ok s) gs ss.
Proof.
  induction gs as [|g gs IH]; intros ss H; cbn [shapes] in H.
  - injection H as <-. constructor.
  - destruct (np_shape g) as [s|] eqn:Eg; [|discriminate].
    destruct (shapes gs) as [ss'|]; [|discriminate].
    injection H as <-. constructor; [exact Eg|apply IH; reflexivity].
Qed.

Lemma common_shape_Ok (gs : list char_grid) (s : list nat) :
  common_shape gs = Ok s ->
  gs <> [] /\ Forall (fun g => np_shape g = Ok s) gs.
Proof.
  unfold common_shape. destruct (shapes gs) as [ss|] eqn:E; [|discriminate].
  apply shapes_Ok in E. destruct ss as [|s0 ss]; [discriminate|].
  destruct (forallb _ ss) eqn:Eall; [|discriminate]. intros [= <-].
  inversion E as [|g s' gs' ss' Hg Hrest]; subst.
  split; [discriminate|]. constructor; [exact Hg|].
  rewrite forallb_forall in Eall. clear Hg E.
  induction Hrest as [|g1 s1 gs1 ss1 H1 _ IH]; [constructor|].
  constructor.
  - specialize (Eall s1 (or_introl eq_refl)).
    destruct (list_eq_dec Nat.eq_dec s1 s0) as [->|]; [exact H1|discriminate].
  - apply IH. intros x Hx. apply Eall. right. exact Hx.
Qed.

(** *** The sum of the counts *)

Lemma split_at {A} (l : list A) (i : nat) (x : A) :
  nth_error l i = Some x -> l = firstn i l ++ x :: skipn (S i) l.
Proof.
  revert i. induction l as [|y l IH]; intros [|i] H; try discriminate.
  - injection H as ->. reflexivity.
  - cbn [firstn skipn app]. f_equal. apply IH. exact H.
Qed.

Lemma np_sum_grid_app (a b : list (list Z)) :
  np_sum_grid (a ++ b) = np_sum_grid a + np_sum_grid b.
Proof. unfold np_sum_grid. rewrite concat_app. apply zsum_app. Qed.

Lemma np_sum_grid_cons (row : list Z) (a : list (list Z)) :
  np_sum_grid (row :: a) = zsum row + np_sum_grid a.
Proof. unfold np_sum_grid. cbn [concat]. apply zsum_app. Qed.

Lemma incr_at_Ok counts p counts' :
  incr_at counts p = Ok counts' ->
  exists row v,
    nth_error counts (fst p) = Some row /\ nth_error row (snd p) = Some v /\
    counts' = firstn (fst p) counts
              ++ (firstn (snd p) row ++ (v + 1) :: skipn (S (snd p)) row)
              :: skipn (S (fst p)) counts.
Proof.
  unfold incr_at.
  destruct (nth_error counts (fst p)) as [row|] eqn:Er; [|discriminate].
  destruct (nth_error row (snd p)) as [v|] eqn:Ec; [|discriminate].
  intros [= <-]. exists row, v. split; [reflexivity|]. split; [exact Ec|reflexivity].
Qed.

Lemma incr_at_sum counts p counts' :
  incr_at counts p = Ok counts' -> np_sum_grid counts' = np_sum_grid counts + 1.
Proof.
  intros H. apply incr_at_Ok in H as (row & v & Er & Ec & ->).
  pose proof (split_at _ _ _ Er) as Hr. pose proof (split_at _ _ _ Ec) as Hc.
  remember (firstn (fst p) counts) as a eqn:Ea.
  remember (skipn (S (fst p)) counts) as b eqn:Eb.
  remember (firstn (snd p) row) as a' eqn:Ea'.
  remember (skipn (S (snd p)) row) as b' eqn:Eb'.
  clear Ea Eb Ea' Eb' Er Ec. subst counts row.
  rewrite !np_sum_grid_app, !np_sum_grid_cons, !zsum_app.
  unfold zsum. cbn [fold_right]. lia.
Qed.

Lemma incr_all_sum ps : forall counts counts',
  incr_all counts ps = Ok counts' ->
  np_sum_grid counts' = np_sum_grid counts + Z.of_nat (length ps).
Proof.
  induction ps as [|p ps IH]; intros counts counts' H; cbn [incr_all] in H.
  - injection H as <-. cbn [length]. lia.
  - destruct (incr_at counts p) as [counts1|] eqn:E1; [|discriminate].
    apply incr_at_sum in E1. apply IH in H. cbn [length]. lia.
Qed.

Lemma zsum_zeros (n : nat) : zsum (repeat 0 n) = 0.
Proof. induction n as [|n IH]; [reflexivity|]. unfold zsum in *. cbn. exact IH. Qed.

Lemma np_sum_grid_zeros (s : list nat) : np_sum_grid (np_zeros s) = 0.
Proof.
  destruct s as [|R [|C [|x s]]]; try reflexivity.
  cbn [np_zeros]. induction R as [|R IH]; [reflexivity|].
  cbn [repeat]. rewrite np_sum_grid_cons, IH, zsum_zeros. reflexivity.
Qed.

Lemma zsum_nonneg (l : list Z) : Forall (fun x => 0 <= x) l -> 0 <= zsum l.
Proof.
  induction 1 as [|x l Hx _ IH]; [reflexivity|]. unfold zsum in *. cbn. lia.
Qed.

Lemma zsum_member (l : list Z) (x : Z) :
  Forall (fun y => 0 <= y) l -> In x l -> x <= zsum l.
Proof.
  induction 1 as [|y l Hy Hl IH]; intros Hin; [destruct Hin|].
  pose proof (zsum_nonneg l Hl) as Hs. unfold zsum in *. cbn [fold_right].
  destruct Hin as [->|Hin]; [lia|]. specialize (IH Hin). lia.
Qed.

Lemma cells_of_grid (R C : nat) (counts : list (list Z)) (x : Z) :
  has_shape R C counts -> In x (concat counts) ->
  exists r c, (r < R)%nat /\ (c < C)%nat /\ x = cell_at counts r c.
Proof.
  intros [L Rw] H. apply in_concat in H as (row & Hrow & Hx).
  destruct (In_nth _ _ [] Hrow) as (r & Hr & Er).
  destruct (In_nth _ _ 0 Hx) as (c & Hc & Ec).
  exists r, c. rewrite L in Hr. split; [exact Hr|]. split.
  - rewrite <- (Rw r Hr), Er. exact Hc.
  - unfold cell_at. rewrite Er. symmetry. exact Ec.
Qed.

Lemma cell_in_grid (R C : nat) (counts : list (list Z)) (r c : nat) :
  has_shape R C counts -> (r < R)%nat -> (c < C)%nat ->
  In (cell_at counts r c) (concat counts).
Proof.
  intros [L Rw] Hr Hc. apply in_concat. exists (nth r counts []). split.
  - apply nth_In. lia.
  - apply nth_In. rewrite (Rw r Hr). exact Hc.
Qed.

(** *** The loop of [p_item_grid] *)

Lemma item_count_cons g gs ch r c :
  item_count (g :: gs) ch r c
  = (if String.eqb (char_at g r c) ch then 1 else 0) + item_count gs ch r c.
Proof.
  unfold item_count. cbn [filter].
  destruct (String.eqb (char_at g r c) ch); cbn [length]; lia.
Qed.

Lemma item_count_nonneg gs ch r c : 0 <= item_count gs ch r c.
Proof. unfold item_count. lia. Qed.

Lemma p_item_grid_loop_spec ch R C gs : forall counts,
  Forall (has_shape R C) gs -> has_shape R C counts ->
  exists counts',
    p_item_grid_loop ch gs counts = Ok counts' /\
    has_shape R C counts' /\
    (forall r c, (r < R)%nat -> (c < C)%nat ->
       cell_at counts' r c = cell_at counts r c + item_count gs ch r c) /\
    np_sum_grid counts' = np_sum_grid counts + item_total gs ch.
Proof.
  induction gs as [|g gs IH]; intros counts Hgs Hc; cbn [p_item_grid_loop].
  - exists counts. split; [reflexivity|]. split; [exact Hc|]. split.
    + intros r c _ _. unfold item_count. simpl. lia.
    + unfold item_total. simpl. lia.
  - inversion Hgs as [|? ? Hg Hrest]; subst.
    destruct (incr_positions (fun s => String.eqb s ch) R C g counts Hg Hc)
      as (counts1 & E1 & H1 & C1).
    unfold item_positions. rewrite E1.
    destruct (IH counts1 Hrest H1) as (counts' & E & H' & C' & S').
    exists counts'. split; [exact E|]. split; [exact H'|]. split.
    + intros r c Hr Hcc. rewrite (C' r c Hr Hcc), (C1 r c Hr Hcc), item_count_cons. lia.
    + apply incr_all_sum in E1. rewrite S', E1. unfold item_total, item_positions.
      cbn [map]. unfold zsum. cbn [fold_right]. lia.
Qed.

Lemma common_shape_has_shape gs s :
  common_shape gs = Ok s -> Forall (has_shape (rows_of s) (cols_of s)) gs.
Proof.
  intros H. apply common_shape_Ok in H as [_ H].
  eapply Forall_impl; [|exact H]. intros g. apply np_shape_has_shape.
Qed.

Lemma value_at_map (f : Z -> float64) (R C : nat) (counts : list (list Z)) (r c : nat) :
  has_shape R C counts -> (r < R)%nat -> (c < C)%nat ->
  value_at (map (map f) counts) r c = f (cell_at counts r c).
Proof.
  intros [L Rw] Hr Hc. unfold value_at, cell_at.
  rewrite (nth_indep _ [] (map f [])) by (rewrite length_map; lia).
  rewrite map_nth.
  rewrite (nth_indep _ NaN (f 0)) by (rewrite length_map, (Rw r Hr); exact Hc).
  apply map_nth.
Qed.

Lemma has_shape_map {A B} (f : A -> B) (R C : nat) (a : list (list A)) :
  has_shape R C a -> has_shape R C (map (map f) a).
Proof.
  intros [L Rw]. split; [rewrite length_map; exact L|].
  intros r Hr. rewrite (nth_indep _ [] (map f [])) by (rewrite length_map; lia).
  rewrite map_nth, length_map. apply Rw. exact Hr.
Qed.

(** Given grids of one shape, [p_item_grid] returns, for any item and with
    or without the counts: the count of a cell is the number of grids that
    hold the item there, and its probability is that count divided by the
    number of cells of all grids that hold the item. *)
Theorem p_item_grid_counts char_grids item_char s :
  common_shape char_grids = Ok s ->
  exists p counts,
    p_item_grid char_grids item_char true = Ok (ProbabilitiesCounts p counts) /\
    p_item_grid char_grids item_char false = Ok (Probabilities p) /\
    has_shape (rows_of s) (cols_of s) counts /\
    has_shape (rows_of s) (cols_of s) p /\
    forall r c, (r < rows_of s)%nat -> (c < cols_of s)%nat ->
      cell_at counts r c = item_count char_grids item_char r c /\
      value_at p r c
      = f_div (of_int (item_count char_grids item_char r c))
          (of_int (item_total char_grids item_char)).
Proof.
  intros Hs. unfold p_item_grid. rewrite Hs.
  destruct (np_zeros_has_shape s) as [Hz Hz0].
  destruct (p_item_grid_loop_spec item_char _ _ char_grids (np_zeros s)
              (common_shape_has_shape _ _ Hs) Hz) as (counts & E & Hc & Hcell & Hsum).
  rewrite E. rewrite np_sum_grid_zeros in Hsum. cbn [Z.add] in Hsum.
  eexists _, counts. split; [reflexivity|]. split; [reflexivity|].
  split; [exact Hc|]. split; [apply has_shape_map; exact Hc|].
  intros r c Hr Hcc. rewrite (value_at_map _ _ _ _ _ _ Hc Hr Hcc).
  rewrite (Hcell r c Hr Hcc), Hz0, Hsum. split; reflexivity.
Qed.

(** *** The item in no cell, and in some cell *)

Lemma positions_where_In (q : string -> bool) (g : char_grid) (r c : nat) :
  In (r, c) (positions_where q g) ->
  (r < length g)%nat /\ (c < length (nth r g []))%nat /\ q (char_at g r c) = true.
Proof.
  unfold positions_where. intros H.
  apply in_flat_map in H as (r' & Hr' & H).
  apply in_map_iff in H as (c' & [= -> ->] & Hc').
  apply filter_In in Hc' as [Hc' Hq]. apply in_seq in Hr'. apply in_seq in Hc'.
  repeat split; [lia|lia|exact Hq].
Qed.

Lemma item_positions_none (R C : nat) (g : char_grid) (ch : string) :
  has_shape R C g ->
  (forall r c, (r < R)%nat -> (c < C)%nat -> char_at g r c <> ch) ->
  item_positions ch g = [].
Proof.
  intros [L Rw] H. unfold item_positions.
  destruct (positions_where _ g) as [|[r c] ps] eqn:E; [reflexivity|exfalso].
  assert (Hin : In (r, c) (positions_where (fun s => String.eqb s ch) g)).
  { rewrite E. left. reflexivity. }
  apply positions_where_In in Hin as (Hr & Hc & Hq).
  rewrite L in Hr. rewrite (Rw r Hr) in Hc.
  apply String.eqb_eq in Hq. exact (H r c Hr Hc Hq).
Qed.

Lemma item_count_some (gs : list char_grid) (ch : string) (g : char_grid) (r c : nat) :
  In g gs -> char_at g r c = ch -> 1 <= item_count gs ch r c.
Proof.
  intros Hin Hch.
  assert (H : In g (filter (fun g => String.eqb (char_at g r c) ch) gs)).
  { apply filter_In. split; [exact Hin|]. apply String.eqb_eq. exact Hch. }
  unfold item_count. destruct (filter _ gs); [destruct H|cbn [length]; lia].
Qed.

Lemma Qsum_scaled (t : Q) (l : list Z) :
  (Qsum (map (fun n => inject_Z n / t) l) == inject_Z (zsum l) / t)%Q.
Proof.
  induction l as [|x l IH].
  - unfold Qsum, zsum. cbn. unfold Qdiv. ring.
  - cbn [map]. unfold Qsum, zsum in *. cbn [fold_right]. rewrite IH.
    rewrite inject_Z_plus. unfold Qdiv. ring.
Qed.

Lemma ratio_bounds (n t : Z) :
  0 <= n <= t -> 0 < t -> (0 <= inject_Z n / inject_Z t <= 1)%Q.
Proof.
  intros Hn Ht. destruct t as [|p|p]; try lia.
  rewrite raw_rate_pos. unfold Qle. cbn. lia.
Qed.

(** When no grid holds the item in any cell, every probability that
    [p_item_grid] returns is NaN (0 / 0): the function returns, it does not
    raise. *)
Theorem p_item_grid_absent char_grids item_char s :
  common_shape char_grids = Ok s ->
  (forall g r c, In g char_grids -> (r < rows_of s)%nat -> (c < cols_of s)%nat ->
                 char_at g r c <> item_char) ->
  exists p,
    p_item_grid char_grids item_char false = Ok (Probabilities p) /\
    has_shape (rows_of s) (cols_of s) p /\
    forall r c, (r < rows_of s)%nat -> (c < cols_of s)%nat -> value_at p r c = NaN.
Proof.
  intros Hs Habs. unfold p_item_grid. rewrite Hs.
  destruct (np_zeros_has_shape s) as [Hz Hz0].
  pose proof (common_shape_has_shape _ _ Hs) as Hgs.
  destruct (p_item_grid_loop_spec item_char _ _ char_grids (np_zeros s) Hgs Hz)
    as (counts & E & Hc & Hcell & Hsum).
  rewrite E. rewrite np_sum_grid_zeros in Hsum. cbn [Z.add] in Hsum.
  assert (HT : item_total char_grids item_char = 0).
  { unfold item_total. rewrite (zsum_const _ 0); [lia|].
    intros g Hg. rewrite Forall_forall in Hgs.
    rewrite (item_positions_none _ _ g item_char (Hgs g Hg)); [reflexivity|].
    intros r c Hr Hcc. apply Habs; assumption. }
  eexists. split; [reflexivity|]. split; [apply has_shape_map; exact Hc|].
  intros r c Hr Hcc. rewrite (value_at_map _ _ _ _ _ _ Hc Hr Hcc).
  rewrite (Hcell r c Hr Hcc), Hz0, Hsum, HT.
  assert (H0 : item_count char_grids item_char r c = 0).
  { unfold item_count.
    assert (Hnil : filter (fun g => String.eqb (char_at g r c) item_char) char_grids = []).
    { destruct (filter _ char_grids) as [|g l] eqn:Ef; [reflexivity|exfalso].
      assert (Hin : In g (filter (fun g => String.eqb (char_at g r c) item_char)
                            char_grids)) by (rewrite Ef; left; reflexivity).
      apply filter_In in Hin as [Hin Hq]. apply String.eqb_eq in Hq.
      exact (Habs g r c Hin Hr Hcc Hq). }
    rewrite Hnil. reflexivity. }
  rewrite H0. reflexivity.
Qed.

(** When some grid holds the item in some cell, the probabilities that
    [p_item_grid] returns are all finite, lie between 0 and 1 and sum
    to 1. *)
Theorem p_item_grid_distribution char_grids item_char s :
  common_shape char_grids = Ok s ->
  (exists g r c, In g char_grids /\ (r < rows_of s)%nat /\ (c < cols_of s)%nat /\
                 char_at g r c = item_char) ->
  exists qs,
    p_item_grid char_grids item_char false = Ok (Probabilities (map (map Finite) qs)) /\
    has_shape (rows_of s) (cols_of s) qs /\
    Forall (fun q => 0 <= q <= 1)%Q (concat qs) /\
    (Qsum (concat qs) == 1)%Q.
Proof.
  intros Hs (g0 & r0 & c0 & Hg0 & Hr0 & Hc0 & Hch). unfold p_item_grid. rewrite Hs.
  destruct (np_zeros_has_shape s) as [Hz Hz0].
  pose proof (common_shape_has_shape _ _ Hs) as Hgs.
  destruct (p_item_grid_loop_spec item_char _ _ char_grids (np_zeros s) Hgs Hz)
    as (counts & E & Hc & Hcell & _).
  rewrite E.
  assert (Hnn : Forall (fun x => 0 <= x) (concat counts)).
  { apply Forall_forall. intros x Hx.
    destruct (cells_of_grid _ _ _ _ Hc Hx) as (r & c & Hr & Hcc & ->).
    rewrite (Hcell r c Hr Hcc), Hz0. pose proof (item_count_nonneg char_grids item_char r c).
    lia. }
  assert (HT : 0 < np_sum_grid counts).
  { pose proof (zsum_member _ _ Hnn (cell_in_grid _ _ _ _ _ Hc Hr0 Hc0)) as Hle.
    rewrite (Hcell r0 c0 Hr0 Hc0), Hz0 in Hle.
    pose proof (item_count_some char_grids item_char g0 r0 c0 Hg0 Hch).
    unfold np_sum_grid. lia. }
  set (T := np_sum_grid counts) in *.
  exists (map (map (fun n => inject_Z n / inject_Z T)%Q) counts).
  split; [|split; [apply has_shape_map; exact Hc|split]].
  - f_equal. f_equal. rewrite map_map. apply map_ext. intros row.
    rewrite map_map. apply map_ext. intros n. apply f_div_defined. lia.
  - rewrite <- concat_map. apply Forall_map.
    rewrite Forall_forall in Hnn. apply Forall_forall. intros n Hn.
    apply ratio_bounds; [|exact HT]. split; [apply Hnn; exact Hn|].
    apply zsum_member; [apply Forall_forall; exact Hnn|exact Hn].
  - rewrite <- concat_map, Qsum_scaled. fold (np_sum_grid counts). fold T.
    unfold Qdiv. apply Qmult_inv_r. unfold Qeq. cbn. lia.
Qed.

(** *** The shape check *)

Lemma np_shape_Raise g e : np_shape g = Raise e -> e = ValueError.
Proof.
  destruct g as [|row rows]; cbn [np_shape]; [discriminate|].
  destruct (forallb _ rows); [discriminate|]. intros [= <-]. reflexivity.
Qed.

Lemma shapes_Raise gs e : shapes gs = Raise e -> e = ValueError.
Proof.
  induction gs as [|g gs IH]; cbn [shapes]; [discriminate|].
  destruct (np_shape g) as [s|e1] eqn:Eg.
  - destruct (shapes gs) as [ss|e2]; [discriminate|].
    intros [= <-]. apply IH. reflexivity.
  - intros [= <-]. apply (np_shape_Raise _ _ Eg).
Qed.

Lemma common_shape_Raise gs e : common_shape gs = Raise e -> e = ValueError.
Proof.
  unfold common_shape. destruct (shapes gs) as [[|s ss]|e1] eqn:E.
  - intros [= <-]. reflexivity.
  - destruct (forallb _ ss); [discriminate|]. intros [= <-]. reflexivity.
  - intros [= <-]. apply (shapes_Raise _ _ E).
Qed.

(** Both grid functions refuse an empty list of grids, and grids of two
    different shapes, with [ValueError]. *)
Theorem grids_of_two_shapes_refused stim_fnames y_true y_pred char_grids
    stim_fnames_meta item_char return_counts :
  char_grids = [] \/
  (exists g1 g2 s1 s2, In g1 char_grids /\ In g2 char_grids /\
                       np_shape g1 = Ok s1 /\ np_shape g2 = Ok s2 /\ s1 <> s2) ->
  p_item_grid char_grids item_char return_counts = Raise ValueError /\
  acc_grid stim_fnames y_true y_pred char_grids stim_fnames_meta return_counts
  = Raise ValueError /\
  err_grid stim_fnames y_true y_pred char_grids stim_fnames_meta return_counts
  = Raise ValueError.
Proof.
  intros H.
  assert (E : common_shape char_grids = Raise ValueError).
  { destruct (common_shape char_grids) as [s|e] eqn:E.
    - exfalso. apply common_shape_Ok in E as [Hne Hall].
      destruct H as [->|(g1 & g2 & s1 & s2 & H1 & H2 & E1 & E2 & Hneq)]; [congruence|].
      rewrite Forall_forall in Hall.
      rewrite (Hall g1 H1) in E1. rewrite (Hall g2 H2) in E2. congruence.
    - f_equal. apply (common_shape_Raise _ _ E). }
  assert (Ha : acc_grid stim_fnames y_true y_pred char_grids stim_fnames_meta
                 return_counts = Raise ValueError).
  { unfold acc_grid. rewrite E. reflexivity. }
  split; [unfold p_item_grid; rewrite E; reflexivity|]. split; [exact Ha|].
  unfold err_grid. rewrite Ha. destruct return_counts; reflexivity.
Qed.

(** *** Looking a file up *)

Lemma where_eq_In (sf : list string) (f : string) (i : nat) :
  In i (where_eq sf f) <-> nth_error sf i = Some f.
Proof.
  unfold where_eq. rewrite filter_In, in_seq, String.eqb_eq. split.
  - intros [Hi <-]. apply nth_error_nth'. lia.
  - intros H. split.
    + assert (i < length sf)%nat by (apply nth_error_Some; rewrite H; discriminate). lia.
    + apply nth_error_nth. exact H.
Qed.

Lemma where_eq_NoDup (sf : list string) (f : string) : NoDup (where_eq sf f).
Proof. unfold where_eq. apply NoDup_filter, seq_NoDup. Qed.

Lemma where_eq_once (sf : list string) (f : string) (ind : nat) :
  where_eq sf f = [ind] <-> found_once sf f ind.
Proof.
  unfold found_once. split.
  - intros E. split.
    + apply where_eq_In. rewrite E. left. reflexivity.
    + intros j Hj. apply where_eq_In in Hj. rewrite E in Hj.
      destruct Hj as [<-|[]]. reflexivity.
  - intros [Hin Huniq].
    pose proof (where_eq_NoDup sf f) as Hnd.
    assert (Hall : forall j, In j (where_eq sf f) -> j = ind).
    { intros j Hj. apply Huniq, where_eq_In. exact Hj. }
    apply where_eq_In in Hin.
    destruct (where_eq sf f) as [|a [|b l]]; [destruct Hin| |].
    + f_equal. apply Hall. left. reflexivity.
    + exfalso. inversion Hnd as [|? ? Hnotin _]; subst. apply Hnotin.
      rewrite (Hall a) by (left; reflexivity).
      rewrite (Hall b) by (right; left; reflexivity). left. reflexivity.
Qed.

Lemma scored_lookup sf yt yp f :
  scored sf yt yp f <->
  exists ind t p, where_eq sf f = [ind] /\
                  nth_error yt ind = Some t /\ nth_error yp ind = Some p.
Proof.
  unfold scored. split.
  - intros (ind & Hf & Ht & Hp). apply where_eq_once in Hf.
    destruct (nth_error yt ind) as [t|] eqn:Et; [|apply nth_error_None in Et; lia].
    destruct (nth_error yp ind) as [p|] eqn:Ep; [|apply nth_error_None in Ep; lia].
    exists ind, t, p. repeat split; assumption.
  - intros (ind & t & p & Hw & Et & Ep). exists ind.
    split; [apply where_eq_once; exact Hw|].
    split; apply nth_error_Some; congruence.
Qed.

(** *** One pass of the loop of [acc_grid] *)

Lemma acc_grid_step_inv sf yt yp g fname counts counts' :
  acc_grid_step sf yt yp (g, fname) counts = Ok counts' ->
  (exists R C, np_shape g = Ok [R; C]) /\ scored sf yt yp fname.
Proof.
  unfold acc_grid_step. destruct counts as [cc tc].
  destruct (np_shape g) as [[|R [|C [|x s]]]|]; try discriminate.
  destruct (where_eq sf fname) as [|ind [|j l]] eqn:Ew; try discriminate.
  destruct (nth_error yt ind) as [t|] eqn:Et; [|discriminate].
  destruct (nth_error yp ind) as [p|] eqn:Ep; [|discriminate].
  intros _. split; [exists R, C; reflexivity|].
  apply scored_lookup. exists ind, t, p. repeat split; assumption.
Qed.

Lemma acc_grid_step_spec sf yt yp g fname cc tc R C :
  np_shape g = Ok [R; C] -> scored sf yt yp fname ->
  has_shape R C cc -> has_shape R C tc ->
  exists cc' tc',
    acc_grid_step sf yt yp (g, fname) (cc, tc) = Ok (cc', tc') /\
    has_shape R C cc' /\ has_shape R C tc' /\
    forall r c, (r < R)%nat -> (c < C)%nat ->
      cell_at tc' r c = cell_at tc r c + (if occupied g r c then 1 else 0) /\
      cell_at cc' r c
      = cell_at cc r c
        + (if occupied g r c && is_correct sf yt yp fname then 1 else 0).
Proof.
  intros Hg Hs Hcc Htc. apply scored_lookup in Hs as (ind & t & p & Ew & Et & Ep).
  pose proof (np_shape_has_shape _ _ Hg) as Hgs. cbn [rows_of cols_of] in Hgs.
  unfold acc_grid_step, is_correct. rewrite Hg, Ew, Et, Ep.
  rewrite nonzero_positions_where.
  destruct (incr_positions (fun s => negb (String.eqb s EmptyString)) R C g tc Hgs Htc)
    as (tc' & E2 & H2 & C2).
  destruct (t =? p).
  - destruct (incr_positions (fun s => negb (String.eqb s EmptyString)) R C g cc Hgs Hcc)
      as (cc' & E1 & H1 & C1).
    rewrite E1, E2. exists cc', tc'. split; [reflexivity|].
    split; [exact H1|]. split; [exact H2|].
    intros r c Hr Hc. rewrite (C1 r c Hr Hc), (C2 r c Hr Hc). unfold occupied.
    rewrite andb_true_r. split; reflexivity.
  - rewrite E2. exists cc, tc'. split; [reflexivity|].
    split; [exact Hcc|]. split; [exact H2|].
    intros r c Hr Hc. rewrite (C2 r c Hr Hc). unfold occupied.
    rewrite andb_false_r. split; [reflexivity|lia].
Qed.

Lemma trial_count_cons item items r c :
  trial_count (item :: items) r c
  = (if occupied (fst item) r c then 1 else 0) + trial_count items r c.
Proof.
  unfold trial_count. cbn [filter].
  destruct (occupied (fst item) r c); cbn [length]; lia.
Qed.

Lemma correct_count_cons sf yt yp item items r c :
  correct_count sf yt yp (item :: items) r c
  = (if occupied (fst item) r c && is_correct sf yt yp (snd item) then 1 else 0)
    + correct_count sf yt yp items r c.
Proof.
  unfold correct_count. cbn [filter].
  destruct (occupied (fst item) r c && is_correct sf yt yp (snd item));
    cbn [length]; lia.
Qed.

Lemma correct_le_trial sf yt yp items r c :
  0 <= correct_count sf yt yp items r c <= trial_count items r c.
Proof.
  induction items as [|item items IH].
  - unfold correct_count, trial_count. simpl. lia.
  - rewrite correct_count_cons, trial_count_cons.
    destruct (occupied (fst item) r c), (is_correct sf yt yp (snd item));
      cbn [andb]; lia.
Qed.

Lemma acc_grid_loop_inv sf yt yp items : forall counts counts',
  acc_grid_loop sf yt yp items counts = Ok counts' ->
  Forall (fun item => (exists R C, np_shape (fst item) = Ok [R; C])
                      /\ scored sf yt yp (snd item)) items.
Proof.
  induction items as [|[g fname] items IH]; intros counts counts' H; [constructor|].
  cbn [acc_grid_loop] in H.
  destruct (acc_grid_step sf yt yp (g, fname) counts) as [counts1|] eqn:E1; [|discriminate].
  constructor; [exact (acc_grid_step_inv _ _ _ _ _ _ _ E1)|].
  apply (IH _ _ H).
Qed.

Lemma acc_grid_loop_spec sf yt yp R C items : forall cc tc,
  Forall (fun item => np_shape (fst item) = Ok [R; C]
                      /\ scored sf yt yp (snd item)) items ->
  has_shape R C cc -> has_shape R C tc ->
  exists cc' tc',
    acc_grid_loop sf yt yp items (cc, tc) = Ok (cc', tc') /\
    has_shape R C cc' /\ has_shape R C tc' /\
    forall r c, (r < R)%nat -> (c < C)%nat ->
      cell_at tc' r c = cell_at tc r c + trial_count items r c /\
      cell_at cc' r c = cell_at cc r c + correct_count sf yt yp items r c.
Proof.
  induction items as [|[g fname] items IH]; intros cc tc Hall Hcc Htc;
    cbn [acc_grid_loop].
  - exists cc, tc. split; [reflexivity|]. split; [exact Hcc|]. split; [exact Htc|].
    intros r c _ _. unfold trial_count, correct_count. simpl. lia.
  - inversion Hall as [|? ? [Hg Hs] Hrest]; subst. cbn [fst snd] in Hg, Hs.
    destruct (acc_grid_step_spec sf yt yp g fname cc tc R C Hg Hs Hcc Htc)
      as (cc1 & tc1 & E1 & H1 & H2 & C1).
    rewrite E1.
    destruct (IH cc1 tc1 Hrest H1 H2) as (cc' & tc' & E & H1' & H2' & C').
    exists cc', tc'. split; [exact E|]. split; [exact H1'|]. split; [exact H2'|].
    intros r c Hr Hc. destruct (C' r c Hr Hc) as [-> ->].
    destruct (C1 r c Hr Hc) as [-> ->].
    rewrite trial_count_cons, correct_count_cons. cbn [fst snd]. lia.
Qed.

(** *** The quotient of two grids of counts *)

Lemma value_at_grid_div (R C : nat) (cc tc : list (list Z)) (r c : nat) :
  has_shape R C cc -> has_shape R C tc -> (r < R)%nat -> (c < C)%nat ->
  value_at (grid_div cc tc) r c
  = f_div (of_int (cell_at cc r c)) (of_int (cell_at tc r c)).
Proof.
  intros [Lc Rc] [Lt Rt] Hr Hc. unfold value_at, grid_div, cell_at.
  set (G := fun cells : Z * Z => f_div (of_int (fst cells)) (of_int (snd cells))).
  set (F := fun rows : list Z * list Z => map G (combine (fst rows) (snd rows))).
  rewrite (nth_indep _ [] (F ([], [])))
    by (rewrite length_map, length_combine; lia).
  rewrite map_nth, combine_nth by lia. unfold F at 1. cbn [fst snd].
  rewrite (nth_indep _ NaN (G (0, 0)))
    by (rewrite length_map, length_combine, (Rc r Hr), (Rt r Hr); lia).
  rewrite map_nth, combine_nth by (rewrite (Rc r Hr), (Rt r Hr); reflexivity).
  reflexivity.
Qed.

Lemma value_at_grid_div_outside (R C : nat) (cc tc : list (list Z)) (r c : nat) :
  has_shape R C cc -> has_shape R C tc -> (R <= r)%nat \/ (C <= c)%nat ->
  value_at (grid_div cc tc) r c = NaN.
Proof.
  intros [Lc Rc] [Lt Rt] Hout. unfold value_at, grid_div.
  set (G := fun cells : Z * Z => f_div (of_int (fst cells)) (of_int (snd cells))).
  set (F := fun rows : list Z * list Z => map G (combine (fst rows) (snd rows))).
  destruct (Nat.lt_ge_cases r R) as [Hr|Hr].
  - destruct Hout as [Hout|Hc]; [lia|].
    rewrite (nth_indep _ [] (F ([], [])))
      by (rewrite length_map, length_combine; lia).
    rewrite map_nth, combine_nth by lia. unfold F at 1. cbn [fst snd].
    apply nth_overflow. rewrite length_map, length_combine, (Rc r Hr), (Rt r Hr). lia.
  - rewrite (nth_overflow (map F (combine cc tc)))
      by (rewrite length_map, length_combine; lia).
    destruct c; reflexivity.
Qed.

Lemma value_at_complement (acc : list (list float64)) (r c : nat) :
  value_at (grid_complement acc) r c = f_sub (Finite 1) (value_at acc r c).
Proof.
  unfold value_at, grid_complement.
  change (@nil float64) with (map (f_sub (Finite 1)) []) at 1. rewrite map_nth.
  change NaN with (f_sub (Finite 1) NaN) at 1. apply map_nth.
Qed.

Lemma count_ratio (k n : Z) :
  0 <= k <= n -> rate_or_nan (f_div (of_int k) (of_int n)).
Proof.
  intros H. destruct (Z.eq_dec n 0) as [->|Hn].
  - assert (k = 0) by lia. subst. left. reflexivity.
  - right. rewrite f_div_defined by exact Hn. eexists. split; [reflexivity|].
    apply ratio_bounds; lia.
Qed.

Lemma rate_complement (x : float64) :
  rate_or_nan x -> rate_or_nan (f_sub (Finite 1) x).
Proof.
  intros [->|(q & -> & Hq)]; [left; reflexivity|].
  right. exists (1 - q)%Q. split; [reflexivity|]. lra.
Qed.

(** *** What [acc_grid] returns *)

Lemma acc_grid_inv sf yt yp gs meta rc res :
  acc_grid sf yt yp gs meta rc = Ok res ->
  exists s cc tc,
    common_shape gs = Ok s /\
    res = (if rc then GridCounts (grid_div cc tc) cc tc else Grid (grid_div cc tc)) /\
    has_shape (rows_of s) (cols_of s) cc /\ has_shape (rows_of s) (cols_of s) tc /\
    forall r c, (r < rows_of s)%nat -> (c < cols_of s)%nat ->
      cell_at tc r c = trial_count (combine gs meta) r c /\
      cell_at cc r c = correct_count sf yt yp (combine gs meta) r c.
Proof.
  unfold acc_grid. destruct (common_shape gs) as [s|] eqn:Es; [|discriminate].
  destruct (acc_grid_loop sf yt yp (combine gs meta) (np_zeros s, np_zeros s))
    as [[cc tc]|] eqn:El; [|discriminate].
  intros H. exists s, cc, tc. split; [reflexivity|].
  split; [destruct rc; injection H as <-; reflexivity|]. clear H.
  destruct (np_zeros_has_shape s) as [Hz Hz0].
  pose proof (acc_grid_loop_inv _ _ _ _ _ _ El) as Hinv.
  apply common_shape_Ok in Es as [_ Hall]. rewrite Forall_forall in Hall.
  destruct (combine gs meta) as [|item items] eqn:Ec.
  - cbn [acc_grid_loop] in El. injection El as <- <-.
    split; [exact Hz|]. split; [exact Hz|]. intros r c _ _.
    rewrite Hz0. split; reflexivity.
  - assert (H2 : exists R C, s = [R; C]).
    { inversion Hinv as [|? ? [(R & C & HRC) _] _]; subst.
      assert (Hin : In (fst item) gs).
      { destruct item as [g f]. apply (in_combine_l gs meta g f). rewrite Ec. left.
        reflexivity. }
      rewrite (Hall _ Hin) in HRC. injection HRC as ->. exists R, C. reflexivity. }
    destruct H2 as (R & C & ->). cbn [rows_of cols_of] in *.
    destruct (acc_grid_loop_spec sf yt yp R C (item :: items) (np_zeros [R; C])
                (np_zeros [R; C])) as (cc' & tc' & E & H1 & H2 & Hc); try exact Hz.
    { rewrite Forall_forall in Hinv. apply Forall_forall. intros it Hit.
      split; [|apply (Hinv it Hit)]. apply Hall.
      destruct it as [g f]. apply (in_combine_l gs meta g f). rewrite Ec. exact Hit. }
    rewrite El in E. injection E as <- <-.
    split; [exact H1|]. split; [exact H2|].
    intros r c Hr Hcc. destruct (Hc r c Hr Hcc) as [-> ->]. rewrite !Hz0. split; reflexivity.
Qed.

(** Whenever [acc_grid] returns the counts, the trial count of a cell is the
    number of paired stimuli that show an item there, the correct count is
    the number of those predicted right, and the accuracy is their quotient;
    without [return_counts] the same accuracy grid is returned. *)
Theorem acc_grid_counts stim_fnames y_true y_pred char_grids stim_fnames_meta
    acc correct_counts trial_counts :
  acc_grid stim_fnames y_true y_pred char_grids stim_fnames_meta true
  = Ok (GridCounts acc correct_counts trial_counts) ->
  exists s,
    common_shape char_grids = Ok s /\
    acc_grid stim_fnames y_true y_pred char_grids stim_fnames_meta false = Ok (Grid acc) /\
    forall r c, (r < rows_of s)%nat -> (c < cols_of s)%nat ->
      cell_at trial_counts r c
      = trial_count (combine char_grids stim_fnames_meta) r c /\
      cell_at correct_counts r c
      = correct_count stim_fnames y_true y_pred (combine char_grids stim_fnames_meta) r c /\
      value_at acc r c
      = f_div (of_int (cell_at correct_counts r c)) (of_int (cell_at trial_counts r c)).
Proof.
  intros H.
  destruct (acc_grid_inv _ _ _ _ _ _ _ H) as (s & cc & tc & Es & [= -> -> ->] & Hcc & Htc & Hc).
  exists s. split; [exact Es|]. split.
  - unfold acc_grid in *. rewrite Es in *.
    destruct (acc_grid_loop _ _ _ _ _) as [[cc' tc']|]; [|discriminate].
    injection H as _ <- <-. reflexivity.
  - intros r c Hr Hcol. destruct (Hc r c Hr Hcol) as [Ht Hco].
    split; [exact Ht|]. split; [exact Hco|].
    apply (value_at_grid_div _ _ _ _ _ _ Hcc Htc Hr Hcol).
Qed.

(** For grids that have cells, [acc_grid] returns exactly when the grids have
    one shape and every file name that is paired with a grid is listed once
    in [stim_fnames], at an index that [y_true] and [y_pred] have. *)
Theorem acc_grid_returns_iff stim_fnames y_true y_pred char_grids stim_fnames_meta
    return_counts :
  Forall has_cell char_grids ->
  ((exists res, acc_grid stim_fnames y_true y_pred char_grids stim_fnames_meta
                  return_counts = Ok res) <->
   (exists s, common_shape char_grids = Ok s) /\
   Forall (scored stim_fnames y_true y_pred)
     (map snd (combine char_grids stim_fnames_meta))).
Proof.
  intros Hcells. split.
  - intros (res & H). unfold acc_grid in H.
    destruct (common_shape char_grids) as [s|] eqn:Es; [|discriminate].
    destruct (acc_grid_loop _ _ _ _ _) as [[cc tc]|] eqn:El; [|discriminate].
    split; [exists s; reflexivity|]. apply Forall_map.
    eapply Forall_impl; [|apply (acc_grid_loop_inv _ _ _ _ _ _ El)].
    intros item [_ Hs]. exact Hs.
  - intros [(s & Es) Hall]. unfold acc_grid. rewrite Es.
    destruct (np_zeros_has_shape s) as [Hz _].
    pose proof (common_shape_Ok _ _ Es) as [Hne Hs]. rewrite Forall_forall in Hs.
    assert (H2 : exists R C, s = [R; C]).
    { destruct char_grids as [|g0 gs]; [congruence|].
      pose proof (Hs g0 (or_introl eq_refl)) as Hg0.
      inversion Hcells as [|? ? (row & Hrow & _) _]; subst.
      destruct g0 as [|row0 rows0]; [destruct Hrow|].
      cbn [np_shape] in Hg0. destruct (forallb _ rows0); [|discriminate].
      injection Hg0 as <-. eexists _, _. reflexivity. }
    destruct H2 as (R & C & ->). cbn [rows_of cols_of] in Hz.
    destruct (acc_grid_loop_spec stim_fnames y_true y_pred R C
                (combine char_grids stim_fnames_meta)
                (np_zeros [R; C]) (np_zeros [R; C])) as (cc' & tc' & E & _);
      try exact Hz.
    { rewrite Forall_forall in Hall.
      apply Forall_forall. intros it Hit.
      split; [|apply Hall, in_map; exact Hit]. apply Hs.
      destruct it as [g f]. apply (in_combine_l char_grids stim_fnames_meta g f).
      exact Hit. }
    rewrite E. destruct return_counts; eexists; reflexivity.
Qed.

(** Every cell of a grid that [acc_grid] or [err_grid] returns is NaN or a
    number from 0 to 1: never an infinity, never outside the unit
    interval. *)
Theorem acc_grid_rates stim_fnames y_true y_pred char_grids stim_fnames_meta
    return_counts res :
  acc_grid stim_fnames y_true y_pred char_grids stim_fnames_meta return_counts = Ok res ->
  (forall r c, rate_or_nan (value_at (result_grid res) r c)) /\
  exists res',
    err_grid stim_fnames y_true y_pred char_grids stim_fnames_meta return_counts
    = Ok res' /\
    forall r c, rate_or_nan (value_at (result_grid res') r c).
Proof.
  intros H.
  destruct (acc_grid_inv _ _ _ _ _ _ _ H) as (s & cc & tc & Es & Hres & Hcc & Htc & Hc).
  assert (Hacc : forall r c, rate_or_nan (value_at (grid_div cc tc) r c)).
  { intros r c.
    destruct (Nat.lt_ge_cases r (rows_of s)) as [Hr|Hr];
      [destruct (Nat.lt_ge_cases c (cols_of s)) as [Hcol|Hcol]|].
    - rewrite (value_at_grid_div _ _ _ _ _ _ Hcc Htc Hr Hcol).
      destruct (Hc r c Hr Hcol) as [-> ->]. apply count_ratio, correct_le_trial.
    - rewrite (value_at_grid_div_outside _ _ _ _ _ _ Hcc Htc) by (right; exact Hcol).
      left. reflexivity.
    - rewrite (value_at_grid_div_outside _ _ _ _ _ _ Hcc Htc) by (left; exact Hr).
      left. reflexivity. }
  split.
  - intros r c. rewrite Hres. destruct return_counts; apply Hacc.
  - unfold err_grid. rewrite H, Hres.
    destruct return_counts; eexists; (split; [reflexivity|]); intros r c;
      cbn [result_grid]; rewrite value_at_complement; apply rate_complement, Hacc.
Qed.

(** ** [compute_d_prime] *)

Lemma tally_same (y : list Z) (p t : Z) :
  tally y y p t = if p =? t then count_of y p else 0.
Proof.
  unfold tally, count_of. destruct (Z.eqb_spec p t) as [->|Hne].
  - induction y as [|v y IH]; cbn [combine filter fst snd length]; [reflexivity|].
    rewrite andb_diag. destruct (v =? t); cbn [length]; lia.
  - induction y as [|v y IH]; cbn [combine filter fst snd length]; [reflexivity|].
    destruct (Z.eqb_spec v p) as [->|_]; cbn [andb]; [|exact IH].
    destruct (Z.eqb_spec p t) as [->|_]; [contradiction|exact IH].
Qed.

Lemma count_of_pos (y : list Z) (v : Z) : In v y -> 1 <= count_of y v.
Proof.
  intros H. assert (Hin : In v (filter (fun x => x =? v) y)).
  { apply filter_In. split; [exact H|apply Z.eqb_refl]. }
  unfold count_of. destruct (filter _ y); [destruct Hin|cbn [length]; lia].
Qed.

Lemma tally_cons_other t0 p0 y_true y_pred p t :
  (t0 <> 0 /\ t0 <> 1) \/ (p0 <> 0 /\ p0 <> 1) ->
  p = 0 \/ p = 1 -> t = 0 \/ t = 1 ->
  tally (t0 :: y_true) (p0 :: y_pred) p t = tally y_true y_pred p t.
Proof.
  intros H Hp Ht. unfold tally. cbn [combine filter fst snd].
  assert (E : (p0 =? p) && (t0 =? t) = false).
  { destruct (Z.eqb_spec p0 p), (Z.eqb_spec t0 t); try reflexivity. lia. }
  rewrite E. reflexivity.
Qed.

Lemma filter_perm_length {A} (f : A -> bool) (l l' : list A) :
  Permutation l l' -> length (filter f l) = length (filter f l').
Proof.
  induction 1 as [|x l l' _ IH|x y l|l l' l'' _ IH1 _ IH2]; cbn [filter].
  - reflexivity.
  - destruct (f x); cbn [length]; rewrite IH; reflexivity.
  - destruct (f x), (f y); reflexivity.
  - congruence.
Qed.

Section DPrimeFurther.

Variable z_score : float64 -> float64.

(** Arrays of different lengths, neither of length one, are refused with
    [ValueError] (they cannot be broadcast together). *)
Theorem compute_d_prime_length_mismatch y_true y_pred :
  length y_true <> length y_pred ->
  length y_true <> 1%nat -> length y_pred <> 1%nat ->
  compute_d_prime z_score y_true y_pred = Raise ValueError.
Proof.
  intros Hne Ht Hp. unfold compute_d_prime, count_where, np_logical_and, np_eq.
  rewrite !length_map.
  destruct (Nat.eqb_spec (length y_pred) (length y_true)) as [E|_]; [congruence|].
  destruct (Nat.eqb_spec (length y_pred) 1) as [E|_]; [congruence|].
  destruct (Nat.eqb_spec (length y_true) 1) as [E|_]; [congruence|].
  reflexivity.
Qed.

(** For predictions that equal the labels, with both classes present, the
    hit rate is 1 - 0.5/P and the false-alarm rate 0.5/A, where P and A
    are the numbers of labels 1 and 0. *)
Theorem compute_d_prime_perfect y :
  In 1 y -> In 0 y ->
  exists hr far,
    compute_d_prime z_score y y
    = Ok (Finite hr, Finite far, f_sub (z_score (Finite hr)) (z_score (Finite far))) /\
    (hr == 1 - (1 # 2) / inject_Z (count_of y 1))%Q /\
    (far == (1 # 2) / inject_Z (count_of y 0))%Q.
Proof.
  intros H1 H0. unfold compute_d_prime.
  rewrite !count_where_tally by reflexivity. rewrite !tally_same.
  change (1 =? 1) with true. change (0 =? 0) with true.
  change (0 =? 1) with false. change (1 =? 0) with false. cbv iota.
  pose proof (count_of_pos y 1 H1) as HP. pose proof (count_of_pos y 0 H0) as HA.
  rewrite Z.add_0_r, Z.add_0_l.
  destruct (correct_rate_spec (count_of y 1) (count_of y 1)) as (hr & -> & Chr);
    [lia|lia|].
  destruct (correct_rate_spec 0 (count_of y 0)) as (far & -> & Cfar); [lia|lia|].
  exists hr, far. split; [reflexivity|]. split.
  - destruct Chr as (_ & Hone & _). apply Hone.
    unfold Qdiv. apply Qmult_inv_r. unfold Qeq. cbn. lia.
  - destruct Cfar as (_ & _ & Hzero & _). apply Hzero.
    unfold Qdiv. change (inject_Z 0) with 0%Q. ring.
Qed.

(** A trial whose label or whose prediction is neither 0 nor 1 is left out
    of all four counts: with it or without it the result is the same. *)
Theorem compute_d_prime_ignores_other_values t0 p0 y_true y_pred :
  length y_true = length y_pred ->
  (t0 <> 0 /\ t0 <> 1) \/ (p0 <> 0 /\ p0 <> 1) ->
  compute_d_prime z_score (t0 :: y_true) (p0 :: y_pred)
  = compute_d_prime z_score y_true y_pred.
Proof.
  intros Hlen H. unfold compute_d_prime.
  rewrite !(count_where_tally (t0 :: y_true) (p0 :: y_pred))
    by (cbn [length]; congruence).
  rewrite !(count_where_tally y_true y_pred) by exact Hlen.
  rewrite !(tally_cons_other t0 p0 y_true y_pred) by (auto; lia).
  reflexivity.
Qed.

(** The result does not depend on the order of the trials. *)
Theorem compute_d_prime_order y_true y_pred y_true' y_pred' :
  length y_true = length y_pred -> length y_true' = length y_pred' ->
  Permutation (combine y_pred y_true) (combine y_pred' y_true') ->
  compute_d_prime z_score y_true y_pred = compute_d_prime z_score y_true' y_pred'.
Proof.
  intros Hlen Hlen' Hperm. unfold compute_d_prime.
  rewrite !(count_where_tally y_true y_pred) by exact Hlen.
  rewrite !(count_where_tally y_true' y_pred') by exact Hlen'.
  assert (E : forall p t, tally y_true y_pred p t = tally y_true' y_pred' p t).
  { intros p t. unfold tally. f_equal. apply filter_perm_length. exact Hperm. }
  rewrite !E. reflexivity.
Qed.

End DPrimeFurther.

(** ** The properties at the examples *)

Lemma p_item_grid_counts_witness :
  common_shape example_grids = Ok [2%nat; 2%nat] /\
  exists p counts,
    p_item_grid example_grids "t" true = Ok (ProbabilitiesCounts p counts) /\
    p_item_grid example_grids "t" false = Ok (Probabilities p) /\
    has_shape 2 2 counts /\ has_shape 2 2 p /\
    forall r c, (r < 2)%nat -> (c < 2)%nat ->
      cell_at counts r c = item_count example_grids "t" r c /\
      value_at p r c
      = f_div (of_int (item_count example_grids "t" r c))
          (of_int (item_total example_grids "t")).
Proof.
  split; [reflexivity|].
  apply (p_item_grid_counts example_grids "t" [2%nat; 2%nat]). reflexivity.
Defined.

Lemma p_item_grid_absent_witness :
  common_shape example_grids = Ok [2%nat; 2%nat] /\
  (forall g r c, In g example_grids -> (r < 2)%nat -> (c < 2)%nat ->
                 char_at g r c <> "x"%string) /\
  exists p,
    p_item_grid example_grids "x" false = Ok (Probabilities p) /\
    has_shape 2 2 p /\
    forall r c, (r < 2)%nat -> (c < 2)%nat -> value_at p r c = NaN.
Proof.
  assert (H : forall g r c, In g example_grids -> (r < 2)%nat -> (c < 2)%nat ->
                            char_at g r c <> "x"%string).
  { intros g r c Hg Hr Hc.
    destruct Hg as [<-|[<-|[]]];
      destruct r as [|[|r]]; try lia; destruct c as [|[|c]]; try lia; discriminate. }
  split; [reflexivity|]. split; [exact H|].
  apply (p_item_grid_absent example_grids "x" [2%nat; 2%nat] eq_refl H).
Defined.

Lemma p_item_grid_distribution_witness :
  common_shape example_grids = Ok [2%nat; 2%nat] /\
  (exists g r c, In g example_grids /\ (r < 2)%nat /\ (c < 2)%nat /\
                 char_at g r c = "t"%string) /\
  exists qs,
    p_item_grid example_grids "t" false = Ok (Probabilities (map (map Finite) qs)) /\
    has_shape 2 2 qs /\
    Forall (fun q => 0 <= q <= 1)%Q (concat qs) /\
    (Qsum (concat qs) == 1)%Q.
Proof.
  assert (H : exists g r c, In g example_grids /\ (r < 2)%nat /\ (c < 2)%nat /\
                            char_at g r c = "t"%string).
  { exists example_grid, 0%nat, 0%nat. split; [left; reflexivity|].
    split; [lia|]. split; [lia|reflexivity]. }
  split; [reflexivity|]. split; [exact H|].
  apply (p_item_grid_distribution example_grids "t" [2%nat; 2%nat] eq_refl H).
Defined.

Lemma grids_of_two_shapes_refused_witness :
  (exists g1 g2 s1 s2,
      In g1 [example_grid; [["t"%string]]] /\ In g2 [example_grid; [["t"%string]]] /\
      np_shape g1 = Ok s1 /\ np_shape g2 = Ok s2 /\ s1 <> s2) /\
  p_item_grid [example_grid; [["t"%string]]] "t" false = Raise ValueError /\
  acc_grid ["a.png"; "b.png"]%string [1; 0] [1; 0] [example_grid; [["t"%string]]]
    ["a.png"; "b.png"]%string false = Raise ValueError /\
  err_grid ["a.png"; "b.png"]%string [1; 0] [1; 0] [example_grid; [["t"%string]]]
    ["a.png"; "b.png"]%string false = Raise ValueError.
Proof.
  assert (H : exists g1 g2 s1 s2,
             In g1 [example_grid; [["t"%string]]] /\
             In g2 [example_grid; [["t"%string]]] /\
             np_shape g1 = Ok s1 /\ np_shape g2 = Ok s2 /\ s1 <> s2).
  { exists example_grid, [["t"%string]], [2%nat; 2%nat], [1%nat; 1%nat].
    split; [left; reflexivity|]. split; [right; left; reflexivity|].
    split; [reflexivity|]. split; [reflexivity|discriminate]. }
  split; [exact H|].
  apply (grids_of_two_shapes_refused ["a.png"; "b.png"]%string [1; 0] [1; 0]
           [example_grid; [["t"%string]]] ["a.png"; "b.png"]%string "t" false).
  right. exact H.
Defined.

Lemma acc_grid_counts_witness :
  acc_grid ["a.png"; "b.png"]%string [1; 1] [1; 0] example_grids
    ["b.png"; "a.png"]%string true
  = Ok (GridCounts [[Finite (1 # 2); NaN]; [NaN; Finite (1 # 2)]]
          [[1; 0]; [0; 1]] [[2; 0]; [0; 2]]) /\
  exists s,
    common_shape example_grids = Ok s /\
    acc_grid ["a.png"; "b.png"]%string [1; 1] [1; 0] example_grids
      ["b.png"; "a.png"]%string false
    = Ok (Grid [[Finite (1 # 2); NaN]; [NaN; Finite (1 # 2)]]) /\
    forall r c, (r < rows_of s)%nat -> (c < cols_of s)%nat ->
      cell_at [[2; 0]; [0; 2]] r c
      = trial_count (combine example_grids ["b.png"; "a.png"]%string) r c /\
      cell_at [[1; 0]; [0; 1]] r c
      = correct_count ["a.png"; "b.png"]%string [1; 1] [1; 0]
          (combine example_grids ["b.png"; "a.png"]%string) r c /\
      value_at [[Finite (1 # 2); NaN]; [NaN; Finite (1 # 2)]] r c
      = f_div (of_int (cell_at [[1; 0]; [0; 1]] r c))
          (of_int (cell_at [[2; 0]; [0; 2]] r c)).
Proof.
  split; [reflexivity|].
  apply (acc_grid_counts ["a.png"; "b.png"]%string [1; 1] [1; 0] example_grids
           ["b.png"; "a.png"]%string). reflexivity.
Defined.

Lemma acc_grid_rates_witness :
  acc_grid ["a.png"; "b.png"]%string [1; 1] [1; 0] example_grids
    ["b.png"; "a.png"]%string false
  = Ok (Grid [[Finite (1 # 2); NaN]; [NaN; Finite (1 # 2)]]) /\
  (forall r c,
      rate_or_nan (value_at [[Finite (1 # 2); NaN]; [NaN; Finite (1 # 2)]] r c)) /\
  exists res',
    err_grid ["a.png"; "b.png"]%string [1; 1] [1; 0] example_grids
      ["b.png"; "a.png"]%string false = Ok res' /\
    forall r c, rate_or_nan (value_at (result_grid res') r c).
Proof.
  split; [reflexivity|].
  apply (acc_grid_rates ["a.png"; "b.png"]%string [1; 1] [1; 0] example_grids
           ["b.png"; "a.png"]%string false
           (Grid [[Finite (1 # 2); NaN]; [NaN; Finite (1 # 2)]])).
  reflexivity.
Defined.

Lemma compute_d_prime_length_mismatch_witness :
  length [1; 0; 1] <> length [1; 0] /\
  length [1; 0; 1] <> 1%nat /\ length [1; 0] <> 1%nat /\
  compute_d_prime example_ppf [1; 0; 1] [1; 0] = Raise ValueError.
Proof.
  split; [discriminate|]. split; [discriminate|]. split; [discriminate|].
  apply (compute_d_prime_length_mismatch example_ppf [1; 0; 1] [1; 0]); discriminate.
Defined.

Lemma compute_d_prime_perfect_witness :
  In 1 [1; 1; 0] /\ In 0 [1; 1; 0] /\
  exists hr far,
    compute_d_prime example_ppf [1; 1; 0] [1; 1; 0]
    = Ok (Finite hr, Finite far,
          f_sub (example_ppf (Finite hr)) (example_ppf (Finite far))) /\
    (hr == 1 - (1 # 2) / inject_Z (count_of [1; 1; 0]%Z 1%Z))%Q /\
    (far == (1 # 2) / inject_Z (count_of [1; 1; 0]%Z 0%Z))%Q.
Proof.
  assert (H1 : In 1 [1; 1; 0]) by (left; reflexivity).
  assert (H0 : In 0 [1; 1; 0]) by (right; right; left; reflexivity).
  split; [exact H1|]. split; [exact H0|].
  apply (compute_d_prime_perfect example_ppf [1; 1; 0] H1 H0).
Defined.

Lemma compute_d_prime_ignores_other_values_witness :
  length [1; 0] = length [1; 1] /\
  ((2 <> 0 /\ 2 <> 1) \/ (1 <> 0 /\ 1 <> 1)) /\
  compute_d_prime example_ppf [2; 1; 0] [1; 1; 1]
  = compute_d_prime example_ppf [1; 0] [1; 1].
Proof.
  assert (H : (2 <> 0 /\ 2 <> 1) \/ (1 <> 0 /\ 1 <> 1)).
  { left. split; discriminate. }
  split; [reflexivity|]. split; [exact H|].
  apply (compute_d_prime_ignores_other_values example_ppf 2 1 [1; 0] [1; 1] eq_refl H).
Defined.

Lemma compute_d_prime_order_witness :
  length [1; 0] = length [1; 0] /\ length [0; 1] = length [0; 1] /\
  Permutation (combine [1; 0] [1; 0]) (combine [0; 1] [0; 1]) /\
  compute_d_prime example_ppf [1; 0] [1; 0] = compute_d_prime example_ppf [0; 1] [0; 1].
Proof.
  assert (H : Permutation (combine [1; 0] [1; 0]) (combine [0; 1] [0; 1])).
  { apply perm_swap. }
  split; [reflexivity|]. split; [reflexivity|]. split; [exact H|].
  apply (compute_d_prime_order example_ppf [1; 0] [1; 0] [0; 1] [0; 1] eq_refl eq_refl H).
Defined.

Lemma acc_grid_returns_iff_witness :
  Forall has_cell example_grids /\
  ((exists res, acc_grid ["a.png"; "b.png"]%string [1; 1] [1; 0] example_grids
                  ["b.png"; "a.png"]%string false = Ok res) <->
   (exists s, common_shape example_grids = Ok s) /\
   Forall (scored ["a.png"; "b.png"]%string [1; 1] [1; 0])
     (map snd (combine example_grids ["b.png"; "a.png"]%string))).
Proof.
  assert (H : Forall has_cell example_grids).
  { repeat (apply Forall_cons;
            [eexists; split; [left; reflexivity|discriminate]|]).
    apply Forall_nil. }
  split; [exact H|].
  apply (acc_grid_returns_iff ["a.png"; "b.png"]%string [1; 1] [1; 0] example_grids
           ["b.png"; "a.png"]%string false H).
Defined.

(** * Division in float64 against the exact quotient *)



Lemma round_half_even_error (p q : Z) :
  0 <= p -> 0 < q ->
  0 <= round_half_even p q /\
  - q <= 2 * (round_half_even p q * q - p) <= q.
Proof.
  intros Hp Hq. unfold round_half_even.
  pose proof (Z.div_mod p q ltac:(lia)) as E.
  pose proof (Z.mod_pos_bound p q Hq) as Hr.
  assert (Hf : 0 <= p / q) by (apply Z.div_pos; lia).
  destruct (Z.ltb_spec (2 * (p mod q)) q); [nia|].
  destruct (Z.ltb_spec q (2 * (p mod q))); [nia|].
  destruct (Z.even (p / q)); nia.
Qed.

Lemma round_half_even_exact (p q c : Z) :
  0 < q -> p = c * q -> round_half_even p q = c.
Proof.
  intros Hq ->. unfold round_half_even.
  rewrite Z.mod_mul, Z.div_mul by lia.
  destruct (Z.ltb_spec (2 * 0) q); [reflexivity|lia].
Qed.

Lemma floor_log2_quotient_spec (a d : Z) :
  0 < a -> 0 < d ->
  exists K L,
    1 <= K /\ 0 <= L /\ floor_log2_quotient a d = L - K /\
    d * 2 ^ L <= a * 2 ^ K /\ a * 2 ^ K < d * 2 ^ (L + 1).
Proof.
  intros Ha Hd. unfold floor_log2_quotient.
  set (K := Z.log2 d + 1). set (y := a * 2 ^ K / d).
  pose proof (Z.log2_nonneg d) as HK0.
  assert (HdK : d < 2 ^ K).
  { unfold K. replace (Z.log2 d + 1) with (Z.succ (Z.log2 d)) by lia.
    apply Z.log2_spec. exact Hd. }
  assert (HK : 0 < 2 ^ K) by (apply Z.pow_pos_nonneg; lia).
  assert (Hy : 1 <= y).
  { unfold y. apply Z.div_le_lower_bound; [exact Hd|]. nia. }
  pose proof (Z.log2_spec y ltac:(lia)) as [Hl Hu].
  pose proof (Z.log2_nonneg y) as HL0.
  pose proof (Z.div_mod (a * 2 ^ K) d ltac:(lia)) as E.
  pose proof (Z.mod_pos_bound (a * 2 ^ K) d Hd) as Hr.
  fold y in E.
  exists K, (Z.log2 y). split; [unfold K; lia|]. split; [exact HL0|].
  split; [reflexivity|].
  replace (Z.log2 y + 1) with (Z.succ (Z.log2 y)) by lia. split; nia.
Qed.



Lemma pow2_pos (k : Z) : 0 <= k -> 0 < 2 ^ k.
Proof. intros H. apply Z.pow_pos_nonneg; lia. Qed.

Lemma pow2_lt_inv (a b : Z) : 0 <= b -> 2 ^ a < 2 ^ b -> a < b.
Proof. intros Hb H. apply (Z.pow_lt_mono_r_iff 2); [lia|exact Hb|exact H]. Qed.

Lemma pow2_succ (k : Z) : 0 <= k -> 2 ^ (k + 1) = 2 * 2 ^ k.
Proof. intros H. rewrite Z.pow_add_r by lia. change (2 ^ 1) with 2. lia. Qed.

(** The bounds of the quotient, carried from one fraction to an equal one. *)
Lemma quotient_bounds (a dx na d P Q W M2 : Z) :
  0 < dx -> 0 < d -> 0 < a -> 0 < na -> 0 < P -> 0 < Q -> 0 < W -> 0 < M2 ->
  a * d = na * dx -> na < 2 * M2 -> W * P = M2 * Q ->
  dx * P <= a * Q -> a * Q < dx * (2 * P) ->
  d * P <= na * Q /\ na * Q < d * (2 * P) /\
  a * W < dx * (2 * M2) /\ d < 2 * W /\ W < 2 * M2 * d /\ P < 2 * M2 * Q.
Proof.
  intros Hdx Hd Ha Hna HP HQ HW HM Hcross Hbound HE Hlo Hhi.
  assert (HA : d * P <= na * Q).
  { apply (Z.mul_le_mono_pos_l _ _ dx); [exact Hdx|].
    replace (dx * (na * Q)) with (na * dx * Q) by ring. rewrite <- Hcross.
    replace (dx * (d * P)) with (d * (dx * P)) by ring.
    replace (a * d * Q) with (d * (a * Q)) by ring.
    apply Z.mul_le_mono_nonneg_l; lia. }
  assert (HB : na * Q < d * (2 * P)).
  { apply (Z.mul_lt_mono_pos_l dx); [exact Hdx|].
    replace (dx * (na * Q)) with (na * dx * Q) by ring. rewrite <- Hcross.
    replace (a * d * Q) with (d * (a * Q)) by ring.
    replace (dx * (d * (2 * P))) with (d * (dx * (2 * P))) by ring.
    apply Z.mul_lt_mono_pos_l; lia. }
  split; [exact HA|]. split; [exact HB|]. split; [|split; [|split]].
  - apply (Z.mul_lt_mono_pos_r Q); [exact HQ|].
    replace (dx * (2 * M2) * Q) with (dx * 2 * (M2 * Q)) by ring. rewrite <- HE.
    replace (a * W * Q) with (W * (a * Q)) by ring.
    replace (dx * 2 * (W * P)) with (W * (dx * (2 * P))) by ring.
    apply Z.mul_lt_mono_pos_l; lia.
  - apply (Z.mul_lt_mono_pos_r P); [exact HP|].
    replace (2 * W * P) with (2 * (W * P)) by ring. rewrite HE.
    apply (Z.le_lt_trans _ (na * Q)); [exact HA|].
    replace (2 * (M2 * Q)) with (2 * M2 * Q) by ring.
    apply Z.mul_lt_mono_pos_r; lia.
  - apply (Z.mul_lt_mono_pos_r P); [exact HP|]. rewrite HE.
    apply (Z.mul_lt_mono_pos_l 2); [lia|].
    apply (Z.le_lt_trans _ (2 * M2 * (na * Q))).
    + replace (2 * (M2 * Q)) with (2 * M2 * (1 * Q)) by ring.
      apply Z.mul_le_mono_nonneg_l; [lia|]. apply Z.mul_le_mono_nonneg_r; lia.
    + replace (2 * (2 * M2 * d * P)) with (2 * M2 * (d * (2 * P))) by ring.
      apply Z.mul_lt_mono_pos_l; lia.
  - apply (Z.mul_lt_mono_pos_l d); [exact Hd|].
    apply (Z.le_lt_trans _ (na * Q)); [exact HA|].
    apply (Z.lt_le_trans _ (2 * M2 * Q)).
    + apply Z.mul_lt_mono_pos_r; lia.
    + replace (d * (2 * M2 * Q)) with (d * (2 * M2 * Q)) by ring.
      replace (2 * M2 * Q) with (1 * (2 * M2 * Q)) at 1 by ring.
      apply Z.mul_le_mono_nonneg_r; lia.
Qed.

(** A whole multiple of the unit within half a unit of the quotient is the
    quotient. *)
Lemma nearest_is_exact (a dx na d W m v : Z) :
  0 < dx -> 0 < d -> 0 < W ->
  a * d = na * dx -> d < 2 * W ->
  - dx <= 2 * (m * dx - a * W) <= dx -> m = v * W ->
  v * d = na.
Proof.
  intros Hdx Hd HW Hcross HH Herr ->.
  assert (Hscale : dx * (2 * W * (v * d - na)) = d * (2 * (v * W * dx - a * W))).
  { assert (Hc2 : W * (a * d) = W * (na * dx)) by (rewrite Hcross; reflexivity). lia. }
  assert (Hb : - d <= 2 * W * (v * d - na) <= d) by nia.
  nia.
Qed.

Lemma round_bound (m dx p B : Z) :
  0 < dx -> 2 * (m * dx - p) <= dx -> p < dx * B -> m <= B.
Proof. intros Hdx Herr Hp. nia. Qed.



Lemma round_float64_quotient (x : Q) (n d : Z) :
  Qnum x * d = n * Z.pos (Qden x) ->
  Z.abs n < 2 ^ 53 -> 0 < d < 2 ^ 1022 ->
  exists m w,
    0 <= w /\ 0 <= m <= 2 ^ 53 /\ 2 ^ w < 2 ^ 53 * d /\
    round_float64 x = Finite (Z.sgn n * m # Z.to_pos (2 ^ w)) /\
    ((2 ^ w | m) <-> (d | n)) /\
    ((d | n) -> m = Z.abs (n / d) * 2 ^ w).
Proof.
  intros Hx Hn [Hd1 Hd2].
  destruct (Z.eq_dec n 0) as [->|Hn0].
  - assert (E : Qnum x = 0) by nia.
    exists 0, 0. split; [lia|]. split; [split; [lia|apply Z.pow_nonneg; lia]|].
    split; [change (2 ^ 0) with 1; pose proof (pow2_pos 53); lia|]. split.
    + unfold round_float64. rewrite E. reflexivity.
    + split.
      * split; intros _; apply Z.divide_0_r.
      * intros _. rewrite Z.div_0_l by lia. reflexivity.
  - assert (H53 : 2 ^ 53 = 2 * 2 ^ 52) by (apply (pow2_succ 52); lia).
    rewrite H53 in *.
    pose proof (pow2_pos 52 ltac:(lia)) as HM2.
    remember (2 ^ 52) as M2 eqn:EM2.
    remember (2 ^ 1022) as B eqn:EB.
    set (nx := Qnum x) in *. set (dx := Z.pos (Qden x)) in *.
    assert (Hdx : 0 < dx) by (unfold dx; lia).
    assert (Hnx : nx <> 0) by nia.
    set (a := Z.abs nx). set (na := Z.abs n) in *.
    assert (Ha : 0 < a) by (unfold a; lia).
    assert (Hna : 0 < na) by (unfold na; lia).
    assert (Hcross : a * d = na * dx).
    { unfold a, na. rewrite <- (Z.abs_eq d) at 1 by lia.
      rewrite <- (Z.abs_eq dx) at 1 by lia. rewrite <- !Z.abs_mul. congruence. }
    assert (Hsgn : Z.sgn nx = Z.sgn n).
    { apply (f_equal Z.sgn) in Hx. rewrite !Z.sgn_mul in Hx.
      rewrite (Z.sgn_pos d), (Z.sgn_pos dx) in Hx by lia. lia. }
    destruct (floor_log2_quotient_spec a dx Ha Hdx) as (K & L & HK & HL & He & Hlo & Hhi).
    pose proof (pow2_pos K ltac:(lia)) as HQ.
    pose proof (pow2_pos L ltac:(lia)) as HP.
    rewrite (pow2_succ L HL) in Hhi.
    set (w := 52 + K - L).
    assert (HC : L < 53 + K).
    { apply pow2_lt_inv; [lia|].
      replace (53 + K) with (52 + K + 1) by lia.
      rewrite pow2_succ, Z.pow_add_r, <- EM2 by lia.
      assert (HA : d * 2 ^ L <= na * 2 ^ K).
      { apply (Z.mul_le_mono_pos_l _ _ dx); [exact Hdx|].
        replace (dx * (na * 2 ^ K)) with (na * dx * 2 ^ K) by ring. rewrite <- Hcross.
        replace (dx * (d * 2 ^ L)) with (d * (dx * 2 ^ L)) by ring.
        replace (a * d * 2 ^ K) with (d * (a * 2 ^ K)) by ring.
        apply Z.mul_le_mono_nonneg_l; lia. }
      apply (Z.le_lt_trans _ (d * 2 ^ L)).
      { replace (2 ^ L) with (1 * 2 ^ L) at 1 by ring.
        apply Z.mul_le_mono_nonneg_r; [clear - HP|clear - Hd1]; lia. }
      apply (Z.le_lt_trans _ (na * 2 ^ K)); [exact HA|].
      replace (2 * (M2 * 2 ^ K)) with (2 * M2 * 2 ^ K) by ring.
      apply Z.mul_lt_mono_pos_r; [exact HQ|exact Hn]. }
    assert (Hw : 0 <= w) by (unfold w; lia).
    pose proof (pow2_pos w Hw) as HW.
    assert (HE : 2 ^ w * 2 ^ L = M2 * 2 ^ K).
    { rewrite EM2, <- !Z.pow_add_r by lia. f_equal. unfold w. lia. }
    destruct (quotient_bounds a dx na d (2 ^ L) (2 ^ K) (2 ^ w) M2
                Hdx Hd1 Ha Hna HP HQ HW HM2 Hcross Hn HE Hlo Hhi)
      as (HA & HB & HF & HH & HWd & _).
    assert (HD : K < L + 1023).
    { apply pow2_lt_inv; [lia|].
      replace (L + 1023) with (1022 + (L + 1)) by lia.
      rewrite Z.pow_add_r, <- EB, pow2_succ by lia.
      apply (Z.le_lt_trans _ (na * 2 ^ K)).
      { replace (2 ^ K) with (1 * 2 ^ K) at 1 by ring.
        apply Z.mul_le_mono_nonneg_r; [clear - HQ|clear - Hna]; lia. }
      apply (Z.lt_trans _ (d * (2 * 2 ^ L))); [exact HB|].
      apply Z.mul_lt_mono_pos_r; [clear - HP; lia|exact Hd2]. }
    set (m := round_half_even (a * 2 ^ w) dx).
    assert (Hp0 : 0 <= a * 2 ^ w) by (apply Z.mul_nonneg_nonneg; [clear - Ha|clear - HW]; lia).
    destruct (round_half_even_error (a * 2 ^ w) dx Hp0 Hdx) as [Hm0 Herr].
    fold m in Hm0, Herr.
    assert (Hm : m <= 2 * M2).
    { apply (round_bound m dx (a * 2 ^ w)); [exact Hdx|apply Herr|exact HF]. }
    exists m, w. split; [exact Hw|]. split; [split; [exact Hm0|exact Hm]|]. split; [exact HWd|].
    assert (Hu : Z.max (floor_log2_quotient a dx - 52) (-1074) = - w).
    { rewrite He. unfold w. clear - HD HC. lia. }
    split; [|split].
    + unfold round_float64. fold nx dx.
      destruct (Z.eqb_spec nx 0) as [|_]; [contradiction|].
      cbv zeta. fold a. rewrite Hu.
      replace (Z.max 0 (- - w)) with w by (clear - Hw; lia).
      replace (Z.max 0 (- w)) with 0 by (clear - Hw; lia).
      change (2 ^ 0) with 1. rewrite !Z.mul_1_r. fold m.
      assert (Hno : (2 ^ 1024 <=? m * 2 ^ (- w)) = false).
      { apply Z.leb_gt.
        assert (Hle : m * 2 ^ (- w) <= m).
        { destruct (Z.eq_dec w 0) as [->|Hw0].
          - change (2 ^ (- 0)) with 1. clear. lia.
          - rewrite Z.pow_neg_r by (clear - Hw Hw0; lia). clear - Hm0. lia. }
        apply (Z.le_lt_trans _ m); [exact Hle|].
        apply (Z.le_lt_trans _ (2 * M2)); [exact Hm|].
        rewrite EM2, <- (pow2_succ 52) by (clear; lia).
        apply Z.pow_lt_mono_r; clear; lia. }
      rewrite Hno, Hsgn. reflexivity.
    + split.
      * intros [v Hv].
        apply Z.divide_abs_r. fold na. exists v. symmetry.
        apply (nearest_is_exact a dx na d (2 ^ w) m v); assumption.
      * intros [k Hk].
        assert (Hak : a = Z.abs k * dx).
        { assert (Hnak : na = Z.abs k * d).
          { unfold na. rewrite Hk, Z.abs_mul, (Z.abs_eq d) by lia. reflexivity. }
          rewrite Hnak in Hcross. clear - Hcross Hd1. nia. }
        exists (Z.abs k). unfold m.
        apply round_half_even_exact; [exact Hdx|]. rewrite Hak. ring.
    + intros [k Hk].
      assert (Hak : a = Z.abs k * dx).
      { assert (Hnak : na = Z.abs k * d).
        { unfold na. rewrite Hk, Z.abs_mul, (Z.abs_eq d) by lia. reflexivity. }
        rewrite Hnak in Hcross. clear - Hcross Hd1. nia. }
      rewrite Hk, Z.div_mul by lia. unfold m.
      apply round_half_even_exact; [exact Hdx|]. rewrite Hak. ring.
Qed.



Lemma whole_Raise (q : Q) (e : exn) : whole q = Raise e -> e = TypeError.
Proof. unfold whole. destruct (is_integer q); [discriminate|]. intros [= <-]. reflexivity. Qed.

Lemma whole_dyadic (s c W : Z) :
  0 < W -> whole (s * (c * W) # Z.to_pos W) = Ok (s * c).
Proof.
  intros HW. apply whole_spec. unfold Qeq. cbn [Qnum Qden inject_Z].
  rewrite Z2Pos.id by exact HW. ring.
Qed.

Lemma whole_not_dyadic (s m W : Z) :
  0 < W -> s = 1 \/ s = -1 -> ~ (W | m) ->
  whole (s * m # Z.to_pos W) = Raise TypeError.
Proof.
  intros HW Hs Hnd. destruct (whole (s * m # Z.to_pos W)) as [z|e] eqn:E.
  - exfalso. apply whole_spec in E. unfold Qeq in E. cbn [Qnum Qden inject_Z] in E.
    rewrite Z2Pos.id in E by exact HW. apply Hnd.
    destruct Hs as [-> | ->]; [exists z|exists (- z)]; lia.
  - f_equal. apply (whole_Raise _ _ E).
Qed.

Lemma sgn_unit (n : Z) : n <> 0 -> Z.sgn n = 1 \/ Z.sgn n = -1.
Proof. destruct n; [congruence|left|right]; reflexivity. Qed.

(** The rounded quotient of a dividend below 2^53 passes [is_integer()]
    exactly when the divisor divides the dividend, and [int()] is then the
    quotient. *)
Lemma float64_whole_quotient (x : Q) (n d : Z) :
  Qnum x * d = n * Z.pos (Qden x) ->
  Z.abs n < 2 ^ 53 -> 0 < d < 2 ^ 1022 ->
  ((d | n) -> float64_whole (round_float64 x) = Ok (n / d)) /\
  (~ (d | n) -> float64_whole (round_float64 x) = Raise TypeError).
Proof.
  intros Hx Hn Hd.
  destruct (round_float64_quotient x n d Hx Hn Hd)
    as (m & w & Hw & Hm & _ & -> & Hiff & Hval).
  pose proof (pow2_pos w Hw) as HW. cbn [float64_whole]. split.
  - intros Hdiv. rewrite (Hval Hdiv), whole_dyadic by exact HW. f_equal.
    destruct Hdiv as [k ->]. rewrite Z.div_mul by lia.
    rewrite Z.sgn_mul, (Z.sgn_pos d) by lia. destruct k; reflexivity.
  - intros Hnd. apply whole_not_dyadic; [exact HW| |].
    + apply sgn_unit. intros ->. apply Hnd. apply Z.divide_0_r.
    + intros H. apply Hnd, Hiff, H.
Qed.

Lemma Qdiv_cross (n k : Z) :
  0 < k ->
  Qnum (inject_Z n / inject_Z k) * k = n * Z.pos (Qden (inject_Z n / inject_Z k)).
Proof. intros Hk. destruct k as [|p|p]; try lia. cbn. lia. Qed.

Lemma Qhalf_cross (q : Q) :
  Qnum (q / 2) = Qnum q /\ Z.pos (Qden (q / 2)) = Z.pos (Qden q) * 2.
Proof. destruct q as [a b]. cbn. split; lia. Qed.

Lemma length_below_2_1022 (k : nat) : dict_length k -> 0 < Z.of_nat k < 2 ^ 1022.
Proof.
  intros [Hk Hb]. split; [lia|].
  apply (Z.lt_trans _ (2 ^ 63)); [exact Hb|]. apply Z.pow_lt_mono_r; lia.
Qed.

Lemma per_stim_type_Raise (n : Z) (k : nat) (e : exn) :
  k <> 0%nat -> per_stim_type n k = Raise e -> e = TypeError.
Proof.
  intros Hk. unfold per_stim_type, true_div.
  destruct (Qeq_bool (inject_Z (Z.of_nat k)) 0) eqn:E0.
  - apply Qeq_bool_iff in E0. apply inject_Z_of_nat_neq0 in Hk. contradiction.
  - apply whole_Raise.
Qed.

Lemma per_set_size_Raise (n : Z) (k : nat) (e : exn) :
  k <> 0%nat -> per_set_size n k = Raise e -> e = TypeError.
Proof.
  intros Hk. unfold per_set_size, true_div.
  destruct (Qeq_bool (inject_Z (Z.of_nat k)) 0) eqn:E0.
  - apply Qeq_bool_iff in E0. apply inject_Z_of_nat_neq0 in Hk. contradiction.
  - change (Qeq_bool 2 0) with false. cbv iota. apply whole_Raise.
Qed.

(** [train_size / num_stim_types] (lines 106-108): for a size that float64
    holds exactly, the float64 quotient made an [int] is what the exact
    quotient gives. *)
Lemma per_stim_type_in_float64 (n : Z) (k : nat) :
  exact_in_float64 n -> dict_length k ->
  float64_whole (round_float64 (inject_Z n / inject_Z (Z.of_nat k)))
  = per_stim_type n k.
Proof.
  intros Hn Hk. pose proof (length_below_2_1022 k Hk) as Hd.
  destruct (float64_whole_quotient _ n (Z.of_nat k)
              (Qdiv_cross n (Z.of_nat k) (proj1 Hd)) Hn Hd) as [Hyes Hno].
  destruct (per_stim_type n k) as [z|e] eqn:E.
  - apply per_stim_type_spec in E as [_ E].
    rewrite Hyes by (exists z; exact E). f_equal. rewrite E. apply Z.div_mul. lia.
  - assert (e = TypeError) by (apply (per_stim_type_Raise n k); [lia|exact E]).
    subst e. apply Hno. intros [z Hz].
    assert (Hok : per_stim_type n k = Ok z) by (apply per_stim_type_spec; split; [lia|exact Hz]).
    congruence.
Qed.



Lemma pow2_divide (a b : Z) : 0 <= a <= b -> (2 ^ a | 2 ^ b).
Proof.
  intros H. exists (2 ^ (b - a)). rewrite <- Z.pow_add_r by lia. f_equal. lia.
Qed.

Lemma below_2_1022 (z : Z) (k : Z) : 0 <= k <= 1021 -> z < 2 ^ k -> z < 2 ^ 1022.
Proof.
  intros Hk Hz. apply (Z.lt_trans _ (2 ^ k)); [exact Hz|]. apply Z.pow_lt_mono_r; lia.
Qed.

(** [(n / len(set_sizes)) / 2] (lines 143-145): two divisions in float64. *)
Lemma per_set_size_in_float64 (n : Z) (k : nat) :
  exact_in_float64 n -> dict_length k ->
  exists q1,
    round_float64 (inject_Z n / inject_Z (Z.of_nat k)) = Finite q1 /\
    float64_whole (round_float64 (q1 / 2)) = per_set_size n k.
Proof.
  intros Hn Hk. pose proof (length_below_2_1022 k Hk) as Hd.
  destruct Hk as [Hk0 Hk63]. set (d := Z.of_nat k) in *.
  destruct (round_float64_quotient _ n d (Qdiv_cross n d (proj1 Hd)) Hn Hd)
    as (m & w & Hw & Hm & HWd & Hq1 & Hiff & Hval).
  pose proof (pow2_pos w Hw) as HW.
  eexists. split; [exact Hq1|].
  set (q1 := Z.sgn n * m # Z.to_pos (2 ^ w)).
  destruct (Qhalf_cross q1) as [Hnum Hden].
  assert (Hden' : Z.pos (Qden (q1 / 2)) = 2 ^ w * 2).
  { rewrite Hden. unfold q1. cbn [Qden]. rewrite Z2Pos.id by exact HW. reflexivity. }
  assert (Hnum' : Qnum (q1 / 2) = Z.sgn n * m) by (rewrite Hnum; reflexivity).
  assert (Hw116 : w < 116).
  { apply pow2_lt_inv; [lia|]. apply (Z.lt_trans _ (2 ^ 53 * d)); [exact HWd|].
    replace 116 with (53 + 63) by reflexivity. rewrite Z.pow_add_r by lia.
    apply Z.mul_lt_mono_pos_l; [apply pow2_pos; lia|exact Hk63]. }
  unfold exact_in_float64 in Hn.
  assert (Hdec : (d | n) \/ ~ (d | n)).
  { destruct (Z.eqb_spec (n mod d) 0) as [E|E];
      [left|right; intros H; apply E]; apply Z.mod_divide; (lia || assumption). }
  destruct Hdec as [Hdiv|Hndiv].
  - (* the first quotient is exact *)
    destruct Hdiv as [c Hc].
    assert (Hm' : m = Z.abs c * 2 ^ w).
    { rewrite (Hval (ex_intro _ c Hc)), Hc, Z.div_mul by lia. reflexivity. }
    assert (Hsc : Z.sgn n * Z.abs c = c).
    { rewrite Hc, Z.sgn_mul, (Z.sgn_pos d) by lia. destruct c; reflexivity. }
    assert (Hcross : Qnum (q1 / 2) * 2 = c * Z.pos (Qden (q1 / 2))).
    { rewrite Hnum', Hden', Hm'.
      replace (Z.sgn n * (Z.abs c * 2 ^ w) * 2) with (Z.sgn n * Z.abs c * (2 ^ w * 2)) by ring.
      rewrite Hsc. reflexivity. }
    assert (Hcb : Z.abs c < 2 ^ 53).
    { apply (Z.le_lt_trans _ (Z.abs n)); [|exact Hn].
      rewrite Hc, Z.abs_mul, (Z.abs_eq d) by lia.
      replace (Z.abs c) with (Z.abs c * 1) at 1 by ring.
      apply Z.mul_le_mono_nonneg_l; lia. }
    assert (H2 : 0 < 2 < 2 ^ 1022).
    { split; [lia|]. apply (below_2_1022 2 2); [lia|reflexivity]. }
    destruct (float64_whole_quotient (q1 / 2) c 2 Hcross Hcb H2) as [Hyes Hno].
    destruct (per_set_size n k) as [z|e] eqn:E.
    + apply per_set_size_spec in E as [_ E]. fold d in E.
      assert (Hcz : c = z * 2) by nia.
      rewrite Hyes by (exists z; exact Hcz). f_equal. rewrite Hcz. apply Z.div_mul. lia.
    + assert (e = TypeError) by (apply (per_set_size_Raise n k); [lia|exact E]).
      subst e. apply Hno. intros [z Hz].
      assert (Hok : per_set_size n k = Ok z).
      { apply per_set_size_spec. split; [lia|]. fold d. rewrite Hc, Hz. ring. }
      congruence.
  - (* the first quotient is rounded: it is not whole, and neither is its half *)
    assert (HnW : ~ (2 ^ w | m)) by (intros H; apply Hndiv, Hiff, H).
    assert (Hn0 : n <> 0) by (intros ->; apply Hndiv, Z.divide_0_r).
    assert (Hps : per_set_size n k = Raise TypeError).
    { destruct (per_set_size n k) as [z|e] eqn:E.
      - apply per_set_size_spec in E as [_ E]. exfalso. apply Hndiv.
        exists (z * 2). fold d in E. rewrite E. ring.
      - f_equal. apply (per_set_size_Raise n k); [lia|exact E]. }
    rewrite Hps.
    destruct (Z.eq_dec m (2 ^ 53)) as [Em|Em].
    + (* the significand was rounded up to 2^53 *)
      assert (Hw53 : 53 < w).
      { destruct (Z.le_gt_cases w 53) as [Hle|Hgt]; [|lia].
        exfalso. apply HnW. rewrite Em. apply pow2_divide. lia. }
      assert (Hcross : Qnum (q1 / 2) * 2 ^ (w - 52) = Z.sgn n * Z.pos (Qden (q1 / 2))).
      { rewrite Hnum', Hden', Em.
        replace (2 ^ w * 2) with (2 ^ (w + 1)).
        - replace (w + 1) with (53 + (w - 52)) by lia.
          rewrite Z.pow_add_r by lia. ring.
        - rewrite Z.pow_add_r by lia. reflexivity. }
      assert (Hsb : Z.abs (Z.sgn n) < 2 ^ 53).
      { destruct (sgn_unit n Hn0) as [-> | ->]; reflexivity. }
      assert (Hdb : 0 < 2 ^ (w - 52) < 2 ^ 1022).
      { split; [apply pow2_pos; lia|]. apply Z.pow_lt_mono_r; lia. }
      destruct (float64_whole_quotient (q1 / 2) (Z.sgn n) (2 ^ (w - 52)) Hcross Hsb Hdb)
        as [_ Hno].
      apply Hno. intros [z Hz].
      assert (H2 : 2 <= 2 ^ (w - 52)).
      { change 2 with (2 ^ 1) at 1. apply Z.pow_le_mono_r; lia. }
      assert (H1 : (2 ^ (w - 52) | 1)).
      { destruct (sgn_unit n Hn0) as [E | E]; rewrite E in Hz.
        - exists z. exact Hz.
        - exists (- z). lia. }
      apply Z.divide_1_r in H1. lia.
    + assert (Hcross : Qnum (q1 / 2) * (2 ^ w * 2)
                       = Z.sgn n * m * Z.pos (Qden (q1 / 2))).
      { rewrite Hnum', Hden'. reflexivity. }
      assert (Hmb : Z.abs (Z.sgn n * m) < 2 ^ 53).
      { rewrite Z.abs_mul, (Z.abs_eq m) by lia.
        destruct (sgn_unit n Hn0) as [-> | ->]; cbn [Z.abs]; lia. }
      assert (Hdb : 0 < 2 ^ w * 2 < 2 ^ 1022).
      { split; [lia|]. apply (below_2_1022 _ (w + 2)); [lia|].
        rewrite Z.pow_add_r by lia. change (2 ^ 2) with 4. lia. }
      destruct (float64_whole_quotient (q1 / 2) (Z.sgn n * m) (2 ^ w * 2) Hcross Hmb Hdb)
        as [_ Hno].
      apply Hno. intros [z Hz]. apply HnW.
      destruct (sgn_unit n Hn0) as [E | E]; rewrite E in Hz;
        [exists (z * 2)|exists (- z * 2)]; lia.
Qed.
